(** * imgFS: a shallow embedding of the storage engine and of the HTTP front end

    The development follows the C sources of the image database:
    - [CStr]    : the libc string primitives the sources call
                  ([strlen], [strcmp], [strncmp], [memcmp], [strncpy], [strstr], [atoi]);
    - [Stdio]   : the [FILE] stream the engine reads and writes;
    - [Printf]  : the decimal conversion of [printf];
    - [ImgFS]   : [do_name_and_content_dedup], [do_insert], [lazily_resize],
                  [do_read], [do_delete], [do_create], [do_list];
    - [Http]    : [http_match_uri], [http_match_verb], [http_get_var],
                  [http_parse_message], [handle_http_message], [http_reply];
    - [Service] : [handle_list_call], [handle_read_call], [handle_delete_call],
                  [handle_insert_call].

    Unsigned machine integers are values of [Z] with the wrap-around written
    out at every store; bytes are [ascii]; a [char] buffer is a [list ascii].
    An access outside an array (undefined behaviour in C) makes the function
    return [None]. *)

From Stdlib Require Import ZArith Lia Ascii String.
From stdpp Require Import base option list strings.

Local Open Scope Z_scope.

Abbreviation bytes := (list ascii).

(** A string literal as the bytes of a C string (without its terminator). *)
Definition str (s : string) : bytes := list_ascii_of_string s.

(** ** Machine integers *)

Definition to_uint32 (z : Z) : Z := z mod 2 ^ 32.
Definition to_uint64 (z : Z) : Z := z mod 2 ^ 64.
(** Conversion of a 64-bit unsigned value to [long] (two's complement). *)
Definition to_long (z : Z) : Z :=
  let u := z mod 2 ^ 64 in if u <? 2 ^ 63 then u else u - 2 ^ 64.
(** Conversion to [int] (two's complement, 32 bits). *)
Definition to_int (z : Z) : Z :=
  let u := z mod 2 ^ 32 in if u <? 2 ^ 31 then u else u - 2 ^ 32.

Definition UINT32_MAX : Z := 2 ^ 32 - 1.

(** ** libc strings *)

Module CStr.

Definition NUL : ascii := Ascii.zero.

Definition uchar (c : ascii) : Z := Z.of_N (N_of_ascii c).

(** The C string held at the start of a buffer: the bytes before the first
    NUL.  The end of the modelled bytes counts as a terminator. *)
Fixpoint cstr (s : bytes) : bytes :=
  match s with
  | [] => []
  | c :: r => if Ascii.eqb c NUL then [] else c :: cstr r
  end.

Definition strlen (s : bytes) : Z := Z.of_nat (length (cstr s)).

Fixpoint strcmp (a b : bytes) : Z :=
  let d := hd NUL b in
  match a with
  | [] => 0 - uchar d
  | c :: a' =>
      if Ascii.eqb c d
      then (if Ascii.eqb c NUL then 0 else strcmp a' (tl b))
      else uchar c - uchar d
  end.

Fixpoint strncmp (a b : bytes) (n : nat) : Z :=
  match n with
  | O => 0
  | S n' =>
      let c := hd NUL a in
      let d := hd NUL b in
      if Ascii.eqb c d
      then (if Ascii.eqb c NUL then 0 else strncmp (tl a) (tl b) n')
      else uchar c - uchar d
  end.

Fixpoint memcmp (a b : bytes) (n : nat) : Z :=
  match n with
  | O => 0
  | S n' =>
      let c := hd NUL a in
      let d := hd NUL b in
      if Ascii.eqb c d then memcmp (tl a) (tl b) n' else uchar c - uchar d
  end.

(** [strncpy dst src n]: exactly [n] bytes of [dst] are written, the string
    at [src] cut to [n] bytes and padded with NUL. *)
Definition strncpy (dst src : bytes) (n : nat) : bytes :=
  take n (cstr src ++ replicate n NUL) ++ drop n dst.

(** Does the C string [s] start with the C string [d]? *)
Fixpoint starts_with (d s : bytes) : bool :=
  match d with
  | [] => true
  | c :: d' =>
      if Ascii.eqb c NUL then true
      else match s with
           | [] => false
           | e :: s' => Ascii.eqb c e && starts_with d' s'
           end
  end.

(** [strstr s d]: offset of the first occurrence of the string [d] in the
    string [s], [None] for a NULL result. *)
Fixpoint strstr (s d : bytes) : option nat :=
  if starts_with d s then Some O
  else match s with
       | [] => None
       | c :: s' =>
           if Ascii.eqb c NUL then None
           else S <$> strstr s' d
       end.

Definition isspace (c : ascii) : bool :=
  let n := uchar c in (n =? 32) || ((9 <=? n) && (n <=? 13)).

Definition isdigit (c : ascii) : bool :=
  let n := uchar c in (48 <=? n) && (n <=? 57).

Fixpoint skip_spaces (s : bytes) : bytes :=
  match s with
  | c :: r => if isspace c then skip_spaces r else s
  | [] => []
  end.

Fixpoint digits_value (s : bytes) (acc : Z) : Z :=
  match s with
  | c :: r => if isdigit c then digits_value r (10 * acc + (uchar c - 48)) else acc
  | [] => acc
  end.

Definition LONG_MAX : Z := 2 ^ 63 - 1.
Definition LONG_MIN : Z := - 2 ^ 63.

(** [strtol] in base 10 without an end pointer: white space, an optional
    sign, decimal digits; the value is clamped to the range of [long]. *)
Definition strtol10 (s : bytes) : Z :=
  let s1 := skip_spaces s in
  let v :=
    match s1 with
    | c :: r =>
        if Ascii.eqb c "-"%char then - digits_value r 0
        else if Ascii.eqb c "+"%char then digits_value r 0
        else digits_value s1 0
    | [] => 0
    end in
  Z.max LONG_MIN (Z.min LONG_MAX v).

(** [atoi] as the C library defines it: [(int) strtol(s, NULL, 10)]. *)
Definition atoi (s : bytes) : Z := to_int (strtol10 s).

End CStr.

(** ** The stdio stream *)

Module Stdio.

(** A stream opened on a regular file: the bytes of the file, the file
    position, and the [faults] the environment will inject, one flag per
    library call ([true]: this call fails).  An empty list means that the
    environment never fails. *)
Record FILE := mkFILE {
  contents : bytes;
  fpos : Z;
  faults : list bool
}.

Inductive whence := SEEK_SET | SEEK_END.

Definition next_fault (f : FILE) : bool * FILE :=
  match faults f with
  | [] => (false, f)
  | b :: r => (b, mkFILE (contents f) (fpos f) r)
  end.

Definition flen (f : FILE) : Z := Z.of_nat (length (contents f)).

(** [fseek]: 0 on success, -1 on failure (the position is then unchanged). *)
Definition fseek (f : FILE) (off : Z) (w : whence) : Z * FILE :=
  let '(bad, f1) := next_fault f in
  let target := match w with SEEK_SET => off | SEEK_END => flen f1 + off end in
  if bad || (target <? 0) then (-1, f1)
  else (0, mkFILE (contents f1) target (faults f1)).

(** [ftell]: the position, or -1. *)
Definition ftell (f : FILE) : Z * FILE :=
  let '(bad, f1) := next_fault f in
  if bad then (-1, f1) else (fpos f1, f1).

(** The bytes of a file after [buf] has been written at position [p];
    a gap past the end of the file reads as zeros. *)
Definition write_at (d : bytes) (p : nat) (buf : bytes) : bytes :=
  take p d ++ replicate (p - length d) CStr.NUL ++ buf ++ drop (p + length buf) d.

(** [fwrite(buf, size, 1, f)] with [size = length buf]: the number of items
    written, 1 or 0.  A zero [size] writes no item. *)
Definition fwrite (buf : bytes) (f : FILE) : Z * FILE :=
  let '(bad, f1) := next_fault f in
  if bad || (Z.of_nat (length buf) =? 0) then (0, f1)
  else (1, mkFILE (write_at (contents f1) (Z.to_nat (fpos f1)) buf)
                  (fpos f1 + Z.of_nat (length buf)) (faults f1)).

(** [fread(buf, size, 1, f)]: the number of items read (1 or 0), the bytes
    delivered and the stream.  A zero [size], or fewer than [size] bytes
    before the end of the file, reads no item. *)
Definition fread (size : Z) (f : FILE) : Z * bytes * FILE :=
  let '(bad, f1) := next_fault f in
  if bad || (size =? 0) then (0, [], f1)
  else if (0 <=? fpos f1) && (fpos f1 + size <=? flen f1)
       then (1, take (Z.to_nat size) (drop (Z.to_nat (fpos f1)) (contents f1)),
             mkFILE (contents f1) (fpos f1 + size) (faults f1))
       else (0, [], mkFILE (contents f1) (Z.max (fpos f1) (flen f1)) (faults f1)).

End Stdio.

(** ** Formatted output *)

Module Printf.
Import CStr.

Definition digit_char (d : Z) : ascii := ascii_of_N (Z.to_N (48 + d)).

(** The decimal digits of [n], most significant first, before [acc]. *)
Fixpoint dec_digits (fuel : nat) (n : Z) (acc : bytes) : bytes :=
  match fuel with
  | O => acc
  | S fuel' =>
      let acc' := digit_char (n mod 10) :: acc in
      if n <? 10 then acc' else dec_digits fuel' (n / 10) acc'
  end.

(** The conversion [%zu] (and [%d] of a value that is not negative): a
    [size_t] has at most 20 decimal digits. *)
Definition print_dec (n : Z) : bytes := dec_digits 20 n [].

End Printf.

(** ** The storage engine *)

Module ImgFS.
Import CStr Stdio.

(** Modelled from the spec: the error kinds of [error.h], which is not among
    the sources; only the kinds the modelled functions return are listed. *)
Inductive error_code :=
| ERR_NONE
| ERR_IO
| ERR_RUNTIME
| ERR_OUT_OF_MEMORY
| ERR_NOT_ENOUGH_ARGUMENTS
| ERR_INVALID_COMMAND
| ERR_INVALID_ARGUMENT
| ERR_RESOLUTIONS
| ERR_INVALID_IMGID
| ERR_IMGFS_FULL
| ERR_IMAGE_NOT_FOUND
| ERR_DUPLICATE_ID
| ERR_IMGLIB.

#[global] Instance error_code_eq_dec : EqDecision error_code.
Proof. solve_decision. Defined.

(** Modelled from the spec: the constants of [imgfs.h], which is not among
    the sources (the id limit of 127 bytes, the flag values of [is_valid],
    the resolution indices). *)
Definition MAX_IMG_ID : nat := 127.
Definition SHA256_DIGEST_LENGTH : nat := 32.
Definition EMPTY : Z := 0.
Definition NON_EMPTY : Z := 1.
Definition THUMB_RES : Z := 0.
Definition SMALL_RES : Z := 1.
Definition ORIG_RES : Z := 2.
Definition NB_RES : Z := 3.

(** An array of [NB_RES] integers, as [size] and [offset] are. *)
Definition arr3 : Type := Z * Z * Z.

Definition get3 (a : arr3) (r : Z) : option Z :=
  let '(x, y, z) := a in
  if r =? 0 then Some x else if r =? 1 then Some y else if r =? 2 then Some z
  else None.

Definition set3 (a : arr3) (r : Z) (v : Z) : arr3 :=
  let '(x, y, z) := a in
  if r =? 0 then (v, y, z) else if r =? 1 then (x, v, z)
  else if r =? 2 then (x, y, v) else a.

(** Modelled from the spec: [struct img_metadata] of [imgfs.h]. *)
Record img_metadata := mk_metadata {
  img_id : bytes;      (* char img_id[MAX_IMG_ID + 1] *)
  SHA : bytes;         (* unsigned char SHA[SHA256_DIGEST_LENGTH] *)
  orig_res : Z * Z;    (* uint32_t orig_res[2] *)
  size : arr3;         (* uint32_t size[NB_RES] *)
  offset : arr3;       (* uint64_t offset[NB_RES] *)
  is_valid : Z         (* uint16_t is_valid *)
}.

(** Modelled from the spec: [struct imgfs_header] of [imgfs.h]. *)
Record imgfs_header := mk_header {
  name : bytes;            (* char name[MAX_IMGFS_NAME + 1] *)
  version : Z;             (* uint32_t *)
  nb_files : Z;            (* uint32_t *)
  max_files : Z;           (* uint32_t *)
  resized_res : list Z     (* uint16_t resized_res[2 * (NB_RES - 1)] *)
}.

Record imgfs_file := mk_imgfs_file {
  file : FILE;
  header : imgfs_header;
  metadata : list img_metadata
}.

#[global] Instance img_metadata_eq_dec : EqDecision img_metadata.
Proof. solve_decision. Defined.

(** [zero_init_var] on a metadata record. *)
Definition zero_metadata : img_metadata :=
  mk_metadata (replicate (S MAX_IMG_ID) NUL) (replicate SHA256_DIGEST_LENGTH NUL)
              (0, 0) (0, 0, 0) (0, 0, 0) 0.

(** The [img_id] buffer of a zeroed record after [strncpy (.., id, MAX_IMG_ID)]
    and the terminator written at [MAX_IMG_ID]. *)
Definition stored_id (id : bytes) : bytes :=
  <[MAX_IMG_ID := NUL]> (strncpy (img_id zero_metadata) id MAX_IMG_ID).

Definition set_img_id (m : img_metadata) (v : bytes) : img_metadata :=
  mk_metadata v (SHA m) (orig_res m) (size m) (offset m) (is_valid m).
Definition set_SHA (m : img_metadata) (v : bytes) : img_metadata :=
  mk_metadata (img_id m) v (orig_res m) (size m) (offset m) (is_valid m).
Definition set_orig_res (m : img_metadata) (v : Z * Z) : img_metadata :=
  mk_metadata (img_id m) (SHA m) v (size m) (offset m) (is_valid m).
Definition set_size (m : img_metadata) (r v : Z) : img_metadata :=
  mk_metadata (img_id m) (SHA m) (orig_res m) (set3 (size m) r v) (offset m) (is_valid m).
Definition set_offset (m : img_metadata) (r v : Z) : img_metadata :=
  mk_metadata (img_id m) (SHA m) (orig_res m) (size m) (set3 (offset m) r v) (is_valid m).
Definition set_is_valid (m : img_metadata) (v : Z) : img_metadata :=
  mk_metadata (img_id m) (SHA m) (orig_res m) (size m) (offset m) v.

Definition set_version (h : imgfs_header) (v : Z) : imgfs_header :=
  mk_header (name h) v (nb_files h) (max_files h) (resized_res h).
Definition set_nb_files (h : imgfs_header) (v : Z) : imgfs_header :=
  mk_header (name h) (version h) v (max_files h) (resized_res h).

(** [metadata[i]] for an integer index; outside the table the access is
    undefined. *)
Definition tbl_get (md : list img_metadata) (i : Z) : option img_metadata :=
  if (0 <=? i) && (i <? Z.of_nat (length md)) then md !! Z.to_nat i else None.

(** The external collaborators: OpenSSL's [SHA256], the JPEG library
    ([get_resolution], whose definition is not among the sources, and the
    three libvips calls of [lazily_resize]).  [get_resolution] yields its
    return code and the pair (height, width) it stores. *)
Class ImgLib := {
  SHA256 : bytes -> bytes;
  get_resolution : bytes -> error_code * (Z * Z);
  VipsImage : Type;
  vips_jpegload_buffer : bytes -> option VipsImage;
  vips_thumbnail_image : VipsImage -> Z -> option VipsImage;
  vips_jpegsave_buffer : VipsImage -> option bytes
}.

(** The memory layout of the two structures, which [imgfs.h] fixes: their
    sizes and the bytes [fwrite] emits for them. *)
Class Layout := {
  sizeof_imgfs_header : Z;
  sizeof_img_metadata : Z;
  encode_header : imgfs_header -> bytes;
  encode_metadata : img_metadata -> bytes;
  sizeof_imgfs_header_pos : 0 < sizeof_imgfs_header;
  sizeof_img_metadata_pos : 0 < sizeof_img_metadata;
  encode_header_length h : Z.of_nat (length (encode_header h)) = sizeof_imgfs_header;
  encode_metadata_length m : Z.of_nat (length (encode_metadata m)) = sizeof_img_metadata
}.

Section Engine.
Context `{ImgLib} `{Layout}.

(** *** image_dedup.c *)

(** The inner loop [for (res = 0; res < NB_RES; ++res)]: the target takes
    the offset and the size of [src] at every resolution. *)
Definition copy_res (src target : img_metadata) : img_metadata :=
  foldl (fun t res =>
           let t1 := set_offset t res (default 0 (get3 (offset src) res)) in
           set_size t1 res (default 0 (get3 (size src) res)))
        target (seqZ 0 NB_RES).

(** The loop [for (i = 0; i < max_files; ++i)], [n] iterations from [i] on.
    [target_metadata] points into the table: it is read again from the
    table at every use. *)
Fixpoint dedup_loop (index : nat) (n : nat) (i : nat) (md : list img_metadata)
  : option (error_code * list img_metadata) :=
  match n with
  | O => Some (ERR_NONE, md)
  | S n' =>
      if bool_decide (i = index) then dedup_loop index n' (S i) md
      else
        mi ← md !! i;
        if is_valid mi =? 0 then dedup_loop index n' (S i) md
        else
          target ← md !! index;
          if strcmp (img_id mi) (img_id target) =? 0
          then Some (ERR_DUPLICATE_ID, md)
          else if memcmp (SHA mi) (SHA target) SHA256_DIGEST_LENGTH =? 0
               then dedup_loop index n' (S i) (<[index := copy_res mi target]> md)
               else dedup_loop index n' (S i) md
  end.

Definition do_name_and_content_dedup (f : imgfs_file) (index : Z)
  : option (error_code * imgfs_file) :=
  if max_files (header f) <=? index then Some (ERR_IMAGE_NOT_FOUND, f)
  else
    target ← tbl_get (metadata f) index;
    if is_valid target =? 0 then Some (ERR_IMAGE_NOT_FOUND, f)
    else
      let md0 := <[Z.to_nat index := set_offset target ORIG_RES 0]> (metadata f) in
      '(err, md1) ← dedup_loop (Z.to_nat index) (Z.to_nat (max_files (header f))) 0 md0;
      Some (err, mk_imgfs_file (file f) (header f) md1).

(** The outcome of the scan for a target [t] whose id no other valid slot
    holds: the target keeps its id, SHA, resolution and validity, and takes
    the offsets and sizes of a valid slot with its SHA when there is one. *)
Definition dedup_outcome (md : list img_metadata) (index lo hi : nat)
    (t t' : img_metadata) : Prop :=
  img_id t' = img_id t /\ SHA t' = SHA t /\ orig_res t' = orig_res t
  /\ is_valid t' = is_valid t
  /\ ((exists j mj, (lo <= j < hi)%nat /\ j <> index /\ md !! j = Some mj
         /\ is_valid mj <> 0
         /\ memcmp (SHA mj) (SHA t) SHA256_DIGEST_LENGTH = 0
         /\ offset t' = offset mj /\ size t' = size mj)
      \/ ((forall j mj, (lo <= j < hi)%nat -> j <> index -> md !! j = Some mj ->
             is_valid mj <> 0 ->
             memcmp (SHA mj) (SHA t) SHA256_DIGEST_LENGTH <> 0)
          /\ offset t' = offset t /\ size t' = size t)).

(** *** imgfs_insert.c *)

(** The search for the first free slot: the index found, or -1. *)
Fixpoint first_free (md : list img_metadata) (n : nat) (i : nat) : option Z :=
  match n with
  | O => Some (-1)
  | S n' =>
      m ← md !! i;
      if is_valid m =? EMPTY then Some (Z.of_nat i) else first_free md n' (S i)
  end.

Definition do_insert (image_buffer : bytes) (id : bytes) (f : imgfs_file)
  : option (error_code * imgfs_file) :=
  let image_size := Z.of_nat (length image_buffer) in
  if image_size =? 0 then Some (ERR_INVALID_ARGUMENT, f)
  else if max_files (header f) <=? nb_files (header f) then Some (ERR_IMGFS_FULL, f)
  else
    free_index ← first_free (metadata f) (Z.to_nat (max_files (header f))) 0;
    let index := to_uint32 free_index in
    _ ← tbl_get (metadata f) index;
    let k := Z.to_nat index in
    (* zero_init_ptr, SHA256, strncpy and the terminator, is_valid *)
    let m0 := zero_metadata in
    let m1 := set_SHA m0 (SHA256 image_buffer) in
    let m2 := set_img_id m1 (<[MAX_IMG_ID := NUL]> (strncpy (img_id m1) id MAX_IMG_ID)) in
    let m3 := set_is_valid m2 NON_EMPTY in
    let h1 := set_nb_files (header f) (to_uint32 (nb_files (header f) + 1)) in
    let f1 := mk_imgfs_file (file f) h1 (<[k := m3]> (metadata f)) in
    let '(err, (height, width)) := get_resolution image_buffer in
    if bool_decide (err ≠ ERR_NONE) then Some (err, f1)
    else
      let m4 := set_orig_res m3 (to_uint32 width, to_uint32 height) in
      let f2 := mk_imgfs_file (file f) h1 (<[k := m4]> (metadata f)) in
      '(err, f3) ← do_name_and_content_dedup f2 index;
      if bool_decide (err ≠ ERR_NONE) then
        if bool_decide (err = ERR_DUPLICATE_ID) then
          Some (err, mk_imgfs_file (file f3)
                       (set_nb_files (header f3) (to_uint32 (nb_files (header f3) - 1)))
                       (<[k := zero_metadata]> (metadata f3)))
        else Some (err, f3)
      else
        m5 ← metadata f3 !! k;
        (* the blob is appended when deduplication attached no offset *)
        let appended :=
          if default 0 (get3 (offset m5) ORIG_RES) =? 0 then
            let '(rc, fl1) := fseek (file f3) 0 SEEK_END in
            if negb (rc =? 0) then inl (ERR_IO, fl1, m5)
            else
              let '(off, fl2) := ftell fl1 in
              if off =? -1 then inl (ERR_IO, fl2, m5)
              else
                let m6 := set_offset m5 ORIG_RES (to_uint64 off) in
                let '(w, fl3) := fwrite image_buffer fl2 in
                if negb (w =? 1) then inl (ERR_IO, fl3, m6)
                else inr (fl3, set_size m6 ORIG_RES (to_uint32 image_size))
          else inr (file f3, m5) in
        match appended with
        | inl (err, fl, m) =>
            Some (err, mk_imgfs_file fl (header f3) (<[k := m]> (metadata f3)))
        | inr (fl, m) =>
            let md := <[k := m]> (metadata f3) in
            let h2 := set_version (header f3) (to_uint32 (version (header f3) + 1)) in
            let '(rc, fl4) := fseek fl 0 SEEK_SET in
            if negb (rc =? 0) then Some (ERR_IO, mk_imgfs_file fl4 h2 md)
            else
              let '(w, fl5) := fwrite (encode_header h2) fl4 in
              if negb (w =? 1) then Some (ERR_IO, mk_imgfs_file fl5 h2 md)
              else
                let '(rc, fl6) :=
                  fseek fl5 (to_long (sizeof_imgfs_header + index * sizeof_img_metadata))
                        SEEK_SET in
                if negb (rc =? 0) then Some (ERR_IO, mk_imgfs_file fl6 h2 md)
                else
                  let '(w, fl7) := fwrite (encode_metadata m) fl6 in
                  if negb (w =? 1) then Some (ERR_IO, mk_imgfs_file fl7 h2 md)
                  else Some (ERR_NONE, mk_imgfs_file fl7 h2 md)
        end.

(** *** image_content.c *)

(** [malloc] is taken to succeed.  The three libvips calls fail with
    [ERR_IMGLIB]. *)
Definition lazily_resize (resolution : Z) (f : imgfs_file) (position : Z)
  : option (error_code * imgfs_file) :=
  if (resolution <? THUMB_RES) || (ORIG_RES <? resolution) then Some (ERR_RESOLUTIONS, f)
  else if nb_files (header f) <=? position then Some (ERR_INVALID_IMGID, f)
  else
    m ← tbl_get (metadata f) position;
    size_r ← get3 (size m) resolution;
    if negb (size_r =? EMPTY) then Some (ERR_NONE, f)
    else if resolution =? ORIG_RES then Some (ERR_NONE, f)
    else
      let with_file fl := mk_imgfs_file fl (header f) (metadata f) in
      let '(rc, fl1) :=
        fseek (file f) (to_long (default 0 (get3 (offset m) ORIG_RES))) SEEK_SET in
      if negb (rc =? 0) then Some (ERR_IO, with_file fl1)
      else
        let '(read_items, original_buffer, fl2) :=
          fread (default 0 (get3 (size m) ORIG_RES)) fl1 in
        if negb (read_items =? 1) then Some (ERR_IO, with_file fl2)
        else
          match vips_jpegload_buffer original_buffer with
          | None => Some (ERR_IMGLIB, with_file fl2)
          | Some original_vips_image =>
              width ← resized_res (header f) !! Z.to_nat (2 * resolution);
              match vips_thumbnail_image original_vips_image width with
              | None => Some (ERR_IMGLIB, with_file fl2)
              | Some new_vips_image =>
                  match vips_jpegsave_buffer new_vips_image with
                  | None => Some (ERR_IMGLIB, with_file fl2)
                  | Some new_buffer =>
                      let resolution_size := Z.of_nat (length new_buffer) in
                      let '(rc, fl3) := fseek fl2 0 SEEK_END in
                      if negb (rc =? 0) then Some (ERR_IO, with_file fl3)
                      else
                        let '(t, fl4) := ftell fl3 in
                        let new_offset := to_uint64 t in
                        if new_offset =? to_uint64 (-1) then Some (ERR_IO, with_file fl4)
                        else
                          let '(w, fl5) := fwrite new_buffer fl4 in
                          if negb (w =? 1) then Some (ERR_IO, with_file fl5)
                          else
                            let m1 := set_offset m resolution new_offset in
                            let m2 := set_size m1 resolution (to_uint32 resolution_size) in
                            let md := <[Z.to_nat position := m2]> (metadata f) in
                            let '(rc, fl6) :=
                              fseek fl5
                                (to_long (sizeof_imgfs_header + position * sizeof_img_metadata))
                                SEEK_SET in
                            if negb (rc =? 0)
                            then Some (ERR_IO, mk_imgfs_file fl6 (header f) md)
                            else
                              let '(w, fl7) := fwrite (encode_metadata m2) fl6 in
                              if negb (w =? 1)
                              then Some (ERR_IO, mk_imgfs_file fl7 (header f) md)
                              else Some (ERR_NONE, mk_imgfs_file fl7 (header f) md)
                  end
              end
          end.

(** *** imgfs_read.c *)

Fixpoint find_pos_by_id (md : list img_metadata) (id : bytes) (n : nat) (i : nat)
  : option Z :=
  match n with
  | O => Some (-1)
  | S n' =>
      m ← md !! i;
      if (is_valid m =? NON_EMPTY) && (strcmp (img_id m) id =? 0)
      then Some (Z.of_nat i)
      else find_pos_by_id md id n' (S i)
  end.

(** The outcome of [do_read]: the return code, the buffer and the size
    stored through the two out-parameters, and the engine state. *)
Record read_result := mk_read_result {
  rd_err : error_code;
  rd_buffer : bytes;
  rd_size : Z;
  rd_state : imgfs_file
}.

Definition do_read (id : bytes) (resolution : Z) (f : imgfs_file) : option read_result :=
  pos ← find_pos_by_id (metadata f) id (Z.to_nat (max_files (header f))) 0;
  if pos =? -1 then Some (mk_read_result ERR_IMAGE_NOT_FOUND [] 0 f)
  else
    let position := pos in
    m ← tbl_get (metadata f) position;
    off_r ← get3 (offset m) resolution;
    size_r ← get3 (size m) resolution;
    '(err, f1) ←
      (if negb (resolution =? ORIG_RES) && ((off_r =? 0) || (size_r =? EMPTY))
       then lazily_resize resolution f position
       else Some (ERR_NONE, f));
    if bool_decide (err ≠ ERR_NONE) then Some (mk_read_result err [] 0 f1)
    else
      m' ← tbl_get (metadata f1) position;
      image_size ← get3 (size m') resolution;
      off ← get3 (offset m') resolution;
      let '(rc, fl1) := fseek (file f1) (to_long off) SEEK_SET in
      if negb (rc =? 0)
      then Some (mk_read_result ERR_IO [] image_size
                   (mk_imgfs_file fl1 (header f1) (metadata f1)))
      else
        let '(read_items, buf, fl2) := fread image_size fl1 in
        let f2 := mk_imgfs_file fl2 (header f1) (metadata f1) in
        if negb (read_items =? 1) then Some (mk_read_result ERR_IO [] image_size f2)
        else Some (mk_read_result ERR_NONE buf image_size f2).

(** *** imgfs_delete.c *)

(** The scan of [do_delete]: the first slot with a non-zero [is_valid] and
    the given id, if any. *)
Fixpoint delete_scan (md : list img_metadata) (id : bytes) (n : nat) (i : nat)
  : option (option nat) :=
  match n with
  | O => Some None
  | S n' =>
      m ← md !! i;
      if negb (is_valid m =? 0) && (strcmp (img_id m) id =? 0)
      then Some (Some i)
      else delete_scan md id n' (S i)
  end.

(** The results of the two [fseek] calls are not examined by the source. *)
Definition do_delete (id : bytes) (f : imgfs_file) : option (error_code * imgfs_file) :=
  found ← delete_scan (metadata f) id (Z.to_nat (max_files (header f))) 0;
  match found with
  | None => Some (ERR_IMAGE_NOT_FOUND, f)
  | Some i =>
      m ← metadata f !! i;
      let m1 := set_is_valid m EMPTY in
      let md := <[i := m1]> (metadata f) in
      let '(_, fl1) :=
        fseek (file f) (to_long (sizeof_imgfs_header + sizeof_img_metadata * Z.of_nat i))
              SEEK_SET in
      let '(w, fl2) := fwrite (encode_metadata m1) fl1 in
      if negb (w =? 1) then Some (ERR_IO, mk_imgfs_file fl2 (header f) md)
      else
        let h1 := set_nb_files (header f) (to_uint32 (nb_files (header f) - 1)) in
        let h2 := set_version h1 (to_uint32 (version h1 + 1)) in
        let '(_, fl3) := fseek fl2 0 SEEK_SET in
        let '(w, fl4) := fwrite (encode_header h2) fl3 in
        if negb (w =? 1) then Some (ERR_IO, mk_imgfs_file fl4 h2 md)
        else Some (ERR_NONE, mk_imgfs_file fl4 h2 md)
  end.

(** *** Well-formed databases

    The conditions of the data model under which the round trip of an image
    is stated: the table allocated at open, the fixed prefix inside the
    file, an environment that does not fail, and slots whose SHA tells the
    truth about the bytes they point to. *)

Definition orig_offset (m : img_metadata) : Z := default 0 (get3 (offset m) ORIG_RES).
Definition orig_size (m : img_metadata) : Z := default 0 (get3 (size m) ORIG_RES).

(** The size of the header and of the metadata table at the start of the file. *)
Definition prefix_size (f : imgfs_file) : Z :=
  sizeof_imgfs_header + max_files (header f) * sizeof_img_metadata.

(** The [sz] bytes of the file from [off] on. *)
Definition blob_at (fl : FILE) (off sz : Z) : bytes :=
  take (Z.to_nat sz) (drop (Z.to_nat off) (contents fl)).

Record well_formed (f : imgfs_file) : Prop := mk_well_formed {
  wf_faults : faults (file f) = [];
  wf_max_files : max_files (header f) <= UINT32_MAX;
  wf_nb_files : 0 <= nb_files (header f);
  wf_table : length (metadata f) = Z.to_nat (max_files (header f));
  wf_prefix : prefix_size f <= flen (file f)
}.

(** The original of slot [m] is the blob [B], stored after the prefix. *)
Definition stores (f : imgfs_file) (m : img_metadata) (B : bytes) : Prop :=
  prefix_size f <= orig_offset m
  /\ orig_offset m + orig_size m <= flen (file f)
  /\ orig_size m = Z.of_nat (length B)
  /\ blob_at (file f) (orig_offset m) (orig_size m) = B.

(** Slot [m] carries the digest of [B], as [memcmp] judges it. *)
Definition same_content (m : img_metadata) (B : bytes) : Prop :=
  memcmp (SHA m) (SHA256 B) SHA256_DIGEST_LENGTH = 0.

(** Every valid slot that has the digest of [B] and an original stores [B]. *)
Definition dedup_sound (f : imgfs_file) (B : bytes) : Prop :=
  forall j m, metadata f !! j = Some m -> is_valid m <> 0 -> same_content m B ->
    orig_offset m <> 0 -> stores f m B.

(** Every valid slot that has the digest of [B] has an original. *)
Definition originals_present (f : imgfs_file) (B : bytes) : Prop :=
  forall j m, metadata f !! j = Some m -> is_valid m <> 0 -> same_content m B ->
    orig_offset m <> 0.

(** No valid slot holds the id. *)
Definition fresh_id (f : imgfs_file) (id : bytes) : Prop :=
  forall j m, metadata f !! j = Some m -> is_valid m <> 0 -> strcmp (img_id m) id <> 0.

Definition free_slot (f : imgfs_file) (i : nat) : Prop :=
  (i < Z.to_nat (max_files (header f)))%nat
  /\ exists m, metadata f !! i = Some m /\ is_valid m = EMPTY.

(** What a successful insert of [B] under [id] into slot [k] leaves: the
    new slot [m], and the state [f1]. *)
Definition shared (f : imgfs_file) (B : bytes) (k : nat) (m : img_metadata)
    (f1 : imgfs_file) : Prop :=
  exists j mj, j <> k /\ metadata f !! j = Some mj /\ is_valid mj <> 0
    /\ same_content mj B /\ orig_offset mj <> 0
    /\ offset m = offset mj /\ size m = size mj
    /\ flen (file f1) = flen (file f).

Definition appended (f : imgfs_file) (B : bytes) (k : nat) (m : img_metadata)
    (f1 : imgfs_file) : Prop :=
  flen (file f1) = flen (file f) + Z.of_nat (length B)
  /\ orig_offset m = flen (file f)
  /\ ((forall j mj, j <> k -> metadata f !! j = Some mj -> is_valid mj <> 0 ->
         ~ same_content mj B)
      \/ (exists j mj, j <> k /\ metadata f !! j = Some mj /\ is_valid mj <> 0
            /\ same_content mj B /\ orig_offset mj = 0)).

Record inserted (f : imgfs_file) (B id : bytes) (k : nat) (m : img_metadata)
    (f1 : imgfs_file) : Prop := mk_inserted {
  ins_slot : first_free (metadata f) (Z.to_nat (max_files (header f))) 0
             = Some (Z.of_nat k);
  ins_header : header f1
               = set_version (set_nb_files (header f) (nb_files (header f) + 1))
                             (to_uint32 (version (header f) + 1));
  ins_table : metadata f1 = <[k := m]> (metadata f);
  ins_faults : faults (file f1) = [];
  ins_id : img_id m = stored_id id;
  ins_sha : SHA m = SHA256 B;
  ins_valid : is_valid m = NON_EMPTY;
  ins_stores : stores f1 m B;
  ins_frame : drop (Z.to_nat (prefix_size f)) (contents (file f))
              `prefix_of` drop (Z.to_nat (prefix_size f)) (contents (file f1));
  ins_blob : shared f B k m f1 \/ appended f B k m f1
}.

(** *** The calls on an open database

    The three operations of the engine that work on the in-memory structure
    and the open file, as one request type; [perform] gives the return code
    and the state a request leaves. *)
Inductive request :=
| Insert (image_buffer : bytes) (id : bytes)
| Delete (id : bytes)
| Read (id : bytes) (resolution : Z).

Definition perform (r : request) (f : imgfs_file) : option (error_code * imgfs_file) :=
  match r with
  | Insert image_buffer id => do_insert image_buffer id f
  | Delete id => do_delete id f
  | Read id resolution => (fun x => (rd_err x, rd_state x)) <$> do_read id resolution f
  end.

Definition mutating (r : request) : bool :=
  match r with
  | Insert _ _ | Delete _ => true
  | Read _ _ => false
  end.

(** *** Invariants of an open database *)

(** No two slots in use hold the same id. *)
Definition unique_ids (f : imgfs_file) : Prop :=
  forall i j mi mj, metadata f !! i = Some mi -> metadata f !! j = Some mj ->
    is_valid mi <> 0 -> is_valid mj <> 0 ->
    strcmp (img_id mi) (img_id mj) = 0 -> i = j.

(** The number of slots in use. *)
Definition count_valid (md : list img_metadata) : nat :=
  length (filter (fun m => is_valid m <> 0) md).

(** The header counts the slots in use. *)
Definition counted (f : imgfs_file) : Prop :=
  nb_files (header f) = Z.of_nat (count_valid (metadata f)).

(** Every flag is one of the two values the engine writes. *)
Definition flags_ok (f : imgfs_file) : Prop :=
  forall j m, metadata f !! j = Some m -> is_valid m = EMPTY \/ is_valid m = NON_EMPTY.

(** The bytes of the table as [fwrite] emits them. *)
Definition table_bytes (md : list img_metadata) : bytes :=
  mjoin (encode_metadata <$> md).

(** The start of the file is the image of the header and of the table in
    memory. *)
Definition on_disk (f : imgfs_file) : Prop :=
  take (Z.to_nat (prefix_size f)) (contents (file f))
  = encode_header (header f) ++ table_bytes (metadata f).

(** What a successful delete of [id] leaves: slot [k], which held [m], is
    the first slot in use with the id; only its flag changes. *)
Record deleted (f : imgfs_file) (id : bytes) (k : nat) (m : img_metadata)
    (f1 : imgfs_file) : Prop := mk_deleted {
  del_slot : metadata f !! k = Some m;
  del_valid : is_valid m <> 0;
  del_id : strcmp (img_id m) id = 0;
  del_first : forall j mj, (j < k)%nat -> metadata f !! j = Some mj ->
                is_valid mj <> 0 -> strcmp (img_id mj) id <> 0;
  del_header : header f1
               = set_version (set_nb_files (header f) (to_uint32 (nb_files (header f) - 1)))
                             (to_uint32 (version (header f) + 1));
  del_table : metadata f1 = <[k := set_is_valid m EMPTY]> (metadata f);
  del_faults : faults (file f1) = [];
  del_length : flen (file f1) = flen (file f);
  del_frame : drop (Z.to_nat (prefix_size f)) (contents (file f1))
              = drop (Z.to_nat (prefix_size f)) (contents (file f))
}.

(** The bytes [T] are what slot [m] records at resolution [r]: an offset
    other than zero and a size, with [T] at that place of the file. *)
Definition variant_at (f : imgfs_file) (m : img_metadata) (r : Z) (T : bytes) : Prop :=
  exists off,
    get3 (offset m) r = Some off /\ get3 (size m) r = Some (Z.of_nat (length T))
    /\ 0 < off /\ off + Z.of_nat (length T) <= flen (file f)
    /\ blob_at (file f) off (Z.of_nat (length T)) = T.

(** The slot of [m] once [lazily_resize] has recorded a variant of [sz]
    bytes at [off] for resolution [r]. *)
Definition with_variant (m : img_metadata) (r off sz : Z) : img_metadata :=
  set_size (set_offset m r off) r sz.

(** The bytes [d'] keep every byte of [d] from [P] on, and may have more
    after them. *)
Definition grows_from (P : nat) (d d' : bytes) : Prop :=
  (length d <= length d')%nat /\ drop P d `prefix_of` drop P d'.

(** *** imgfs_create.c *)

(** A stream that [fopen (filename, "wb")] opened.  The mode makes it
    write-only: it can be written, and the model gives it no read.
    [wb_file] is the file behind it, with the position and the faults to
    come. *)
Record wb_stream := mk_wb_stream { wb_file : FILE }.

(** [fopen (filename, "wb")]: [NULL], or a write-only stream on an empty
    file.  [env] lists the faults of the environment, as for [FILE]. *)
Definition fopen_wb (env : list bool) : option wb_stream :=
  match env with
  | true :: _ => None
  | false :: rest => Some (mk_wb_stream (mkFILE [] 0 rest))
  | [] => Some (mk_wb_stream (mkFILE [] 0 []))
  end.

(** [fwrite (buf, size, nmemb, f)] for a buffer of [nmemb] items: the
    number of items written, all of them or none. *)
Definition fwrite_items (buf : bytes) (nmemb : Z) (f : FILE) : Z * FILE :=
  let '(bad, f1) := next_fault f in
  if bad || (Z.of_nat (length buf) =? 0) || (nmemb =? 0) then (0, f1)
  else (nmemb, mkFILE (write_at (contents f1) (Z.to_nat (fpos f1)) buf)
                      (fpos f1 + Z.of_nat (length buf)) (faults f1)).

(** What [do_create] leaves in [*imgfs_file]: the header, the table, and in
    [cr_stream] the write-only stream of the new file; [None] when [fopen]
    failed and the field was not assigned.  On the error paths after
    [fopen] the stream has been closed. *)
Record created := mk_created {
  cr_stream : option wb_stream;
  cr_header : imgfs_header;
  cr_metadata : list img_metadata
}.

(** [do_create] on a structure whose header carries [max_files] and
    [resized_res].  [CAT_TXT] and [MAX_IMGFS_NAME] are the constants of
    [imgfs.h]; [calloc_ok] tells whether [calloc] delivers the table.  The
    result is the return code, what the structure holds, and the text
    printed.  A table that was not allocated, or that was freed, is the
    empty list. *)
Definition do_create (CAT_TXT : bytes) (MAX_IMGFS_NAME : nat) (env : list bool)
    (calloc_ok : bool) (f : imgfs_file) : error_code * created * bytes :=
  let h0 := mk_header (<[MAX_IMGFS_NAME := NUL]>
                         (strncpy (name (header f)) CAT_TXT MAX_IMGFS_NAME))
                      (version (header f)) (nb_files (header f))
                      (max_files (header f)) (resized_res (header f)) in
  match fopen_wb env with
  | None => (ERR_IO, mk_created None h0 (metadata f), [])
  | Some fp =>
      let h1 := set_nb_files (set_version h0 0) 0 in
      if negb calloc_ok then (ERR_OUT_OF_MEMORY, mk_created (Some fp) h1 [], [])
      else
        let md := replicate (Z.to_nat (max_files h1)) zero_metadata in
        let '(w, fp1) := fwrite (encode_header h1) (wb_file fp) in
        if negb (w =? 1) then (ERR_IO, mk_created (Some (mk_wb_stream fp1)) h1 [], [])
        else
          let '(w, fp2) := fwrite_items (table_bytes md) (max_files h1) fp1 in
          if negb (w =? max_files h1)
          then (ERR_IO, mk_created (Some (mk_wb_stream fp2)) h1 [], [])
          else
            let items_written := 1 + nb_files h1 in
            (ERR_NONE, mk_created (Some (mk_wb_stream fp2)) h1 md,
             Printf.print_dec items_written ++ str " item(s) written" ++ [ascii_of_nat 10])
  end.

(** Modelled from the spec: [do_close] and [do_open], of [imgfs_tools.c],
    are not among the sources.  The structure once the file [do_create]
    wrote is closed and opened again with the mode "rb+", as the commands
    and the server open it: a stream for reading and writing, at the start
    of the bytes written, and the header and the table read from them,
    which are the ones [do_create] wrote there.  There is nothing to open
    when [fopen] had failed. *)
Definition reopened (c : created) : option imgfs_file :=
  s ← cr_stream c;
  Some (mk_imgfs_file (mkFILE (contents (wb_file s)) 0 []) (cr_header c) (cr_metadata c)).

(** *** imgfs_list.c *)

(** The two modes of [do_list], and the values json-c builds. *)
Inductive do_list_mode := STDOUT | JSON | other_mode.

#[local] Unset Elimination Schemes.
Inductive json_object :=
| json_string (s : bytes)
| json_array (items : list json_object)
| json_obj (fields : list (bytes * json_object)).
#[local] Set Elimination Schemes.

(** The loop over the first [n] slots from [i] on, collecting [item m] for
    the slots in use. *)
Fixpoint list_loop {A : Type} (item : img_metadata -> A) (md : list img_metadata)
    (n i : nat) : option (list A) :=
  match n with
  | O => Some []
  | S n' =>
      m ← md !! i;
      rest ← list_loop item md n' (S i);
      Some (if is_valid m =? 0 then rest else item m :: rest)
  end.

(** The object [create_json_from_metadata] builds: the ids of the slots in
    use, in the order of the slots, under the key "Images". *)
Definition images_json (f : imgfs_file) : option json_object :=
  ids ← list_loop (fun m => json_string (cstr (img_id m))) (metadata f)
          (Z.to_nat (max_files (header f))) 0;
  Some (json_obj [(str "Images", json_array ids)]).

(** [do_list]: the return code, the text printed and the string stored in
    [*json].  [print_header] and [print_metadata], of [util.c], and the
    serializer of json-c are parameters; [strdup_ok] tells whether
    [strdup] delivers the copy. *)
Definition do_list (print_header : imgfs_header -> bytes)
    (print_metadata : img_metadata -> bytes)
    (json_object_to_json_string : json_object -> bytes) (strdup_ok : bool)
    (f : imgfs_file) (output_mode : do_list_mode)
  : option (error_code * bytes * option bytes) :=
  match output_mode with
  | STDOUT =>
      if nb_files (header f) =? 0
      then Some (ERR_NONE, print_header (header f) ++ str "<< empty imgFS >>"
                             ++ [ascii_of_nat 10], None)
      else
        lines ← list_loop print_metadata (metadata f) (Z.to_nat (max_files (header f))) 0;
        Some (ERR_NONE, print_header (header f) ++ mjoin lines, None)
  | JSON =>
      jobj ← images_json f;
      if strdup_ok then Some (ERR_NONE, [], Some (json_object_to_json_string jobj))
      else Some (ERR_OUT_OF_MEMORY, [], None)
  | other_mode => Some (ERR_INVALID_ARGUMENT, [], None)
  end.

(** The ids of the slots in use, in the order of the slots, and the object
    that lists them. *)
Definition ids_in_use (md : list img_metadata) : list bytes :=
  (fun m => cstr (img_id m)) <$> filter (fun m => is_valid m <> 0) md.

Definition listing (ids : list bytes) : json_object :=
  json_obj [(str "Images", json_array (json_string <$> ids))].


End Engine.
End ImgFS.

(** ** The HTTP layer *)

Module Http.
Import CStr.
Import ImgFS(error_code(..)).

(** Modelled from the spec: the delimiters and the header capacity of
    [http_prot.h], which is not among the sources. *)
Definition HTTP_LINE_DELIM : bytes := str (String "013" (String "010" EmptyString)).
Definition HTTP_HDR_END_DELIM : bytes := HTTP_LINE_DELIM ++ HTTP_LINE_DELIM.
Definition HTTP_HDR_KV_DELIM : bytes := str ": ".
Definition MAX_HEADERS : nat := 32.

(** [struct http_string]: a pointer into the request buffer and a length.
    [val] is what the pointer designates, the bytes of the buffer from that
    address on. *)
Record http_string := mk_http_string {
  val : bytes;
  len : nat
}.

Record http_header := mk_http_header {
  key : http_string;
  value : http_string
}.

(** [struct http_message]; [headers] holds the [num_headers] parsed entries. *)
Record http_message := mk_http_message {
  method : http_string;
  uri : http_string;
  headers : list http_header;
  body : http_string
}.

Definition num_headers (m : http_message) : nat := length (headers m).

(** The text a [http_string] denotes. *)
Definition text (s : http_string) : bytes := take (len s) (val s).

Definition http_match_uri (message : http_message) (target_uri : bytes) : bool :=
  let target_len := Z.to_nat (strlen target_uri) in
  strncmp (val (uri message)) target_uri target_len =? 0.

Definition http_match_verb (method : http_string) (verb : bytes) : bool :=
  (Z.of_nat (len method) =? strlen verb) && (strncmp (val method) verb (len method) =? 0).

(** Pointers into the request are offsets into [stream].  [get_next_token]
    yields the token and the address after the delimiter, [None] for NULL. *)
Definition get_next_token (stream : bytes) (message : nat) (delimiter : bytes)
  : option (http_string * nat) :=
  match strstr (drop message stream) delimiter with
  | None => None
  | Some d =>
      Some (mk_http_string (drop message stream) d,
            (message + d + Z.to_nat (strlen delimiter))%nat)
  end.

(** The loop of [http_parse_headers] with [room] free entries left in the
    header array; [acc] are the entries filled so far.  The result is the
    address of the body, [None] for NULL, and the entries filled. *)
Fixpoint parse_headers_loop (stream : bytes) (room : nat) (current : nat)
    (acc : list http_header) : option nat * list http_header :=
  let here := drop current stream in
  if negb (Ascii.eqb (hd NUL here) NUL)
     && negb (strncmp here HTTP_HDR_END_DELIM (Z.to_nat (strlen HTTP_HDR_END_DELIM)) =? 0)
  then
    match room with
    | O => (None, acc)                            (* too many headers *)
    | S room' =>
        match strstr here HTTP_LINE_DELIM with
        | None => (None, acc)
        | Some d =>
            let line_end := (current + d)%nat in
            if (line_end =? current)%nat
            then (Some (current + Z.to_nat (strlen HTTP_LINE_DELIM))%nat, acc)
            else
              match get_next_token stream current HTTP_HDR_KV_DELIM with
              | None => (None, acc)
              | Some (k, current1) =>
                  if (line_end <=? current1)%nat then (None, acc)
                  else
                    match get_next_token stream current1 HTTP_LINE_DELIM with
                    | None => (None, acc)
                    | Some (v, current2) =>
                        if (line_end + Z.to_nat (strlen HTTP_LINE_DELIM) <? current2)%nat
                        then (None, acc)
                        else
                          parse_headers_loop stream room'
                            (line_end + Z.to_nat (strlen HTTP_LINE_DELIM))%nat
                            (acc ++ [mk_http_header k v])
                    end
              end
        end
    end
  else (Some (current + Z.to_nat (strlen HTTP_HDR_END_DELIM))%nat, acc).

Definition http_parse_headers (stream : bytes) (header_start : nat)
    (filled : list http_header) : option nat * list http_header :=
  parse_headers_loop stream (MAX_HEADERS - length filled) header_start filled.

(** The loop that looks for the content length: the first header whose key
    passes the [strncmp] test gives it. *)
Fixpoint find_content_len (hs : list http_header) : Z :=
  match hs with
  | [] => 0
  | h :: r =>
      if strncmp (val (key h)) (str "Content-Length") (len (key h)) =? 0
      then atoi (val (value h))
      else find_content_len r
  end.

(** [http_parse_message]: the return value (1 parsed, 0 incomplete), the
    message structure and the content length as the call leaves them. *)
Definition http_parse_message (stream : bytes) (bytes_received : Z)
    (out : http_message) (content_len : Z) : Z * http_message * Z :=
  match strstr stream HTTP_HDR_END_DELIM with
  | None => (0, out, content_len)
  | Some _ =>
      match get_next_token stream 0 (str " ") with
      | None => (0, out, content_len)
      | Some (m, current1) =>
          let out1 := mk_http_message m (uri out) (headers out) (body out) in
          if (len m =? 0)%nat then (0, out1, content_len)
          else
            match get_next_token stream current1 (str " ") with
            | None => (0, out1, content_len)
            | Some (u, current2) =>
                let out2 := mk_http_message m u (headers out) (body out) in
                if (len u =? 0)%nat then (0, out2, content_len)
                else
                  match get_next_token stream current2 HTTP_LINE_DELIM with
                  | None => (0, out2, content_len)
                  | Some (_, current3) =>
                      match http_parse_headers stream current3 [] with
                      | (None, hs) => (0, mk_http_message m u hs (body out), content_len)
                      | (Some current, hs) =>
                          let out3 := mk_http_message m u hs (body out) in
                          let clen := find_content_len hs in
                          let headers_length := Z.of_nat current in
                          if bytes_received <? to_uint64 (headers_length + to_uint64 clen)
                          then (0, out3, clen)
                          else if 0 <? clen
                               then (1, mk_http_message m u hs
                                          (mk_http_string (drop current stream) (Z.to_nat clen)),
                                     clen)
                               else (1, out3, clen)
                      end
                  end
            end
      end
  end.

(** What [handle_http_message] does with a request: the handler it calls. *)
Inductive dispatch :=
| ServeBaseFile
| HandleListCall
| HandleReadCall
| HandleDeleteCall
| HandleInsertCall
| ReplyErrorMsg (e : error_code).

Definition URI_ROOT : string := "/imgfs".

Definition handle_http_message (msg : http_message) : dispatch :=
  if http_match_verb (uri msg) (str "/") || http_match_verb (uri msg) (str "/index.html")
  then ServeBaseFile
  else if http_match_uri msg (str (URI_ROOT ++ "/list")) then HandleListCall
  else if http_match_uri msg (str (URI_ROOT ++ "/read")) then HandleReadCall
  else if http_match_uri msg (str (URI_ROOT ++ "/delete")) then HandleDeleteCall
  else if http_match_uri msg (str (URI_ROOT ++ "/insert"))
          && http_match_verb (method msg) (str "POST")
  then HandleInsertCall
  else ReplyErrorMsg ImgFS.ERR_INVALID_COMMAND.

(** A request buffer and its parse, starting from an empty message. *)
Definition empty_message : http_message :=
  mk_http_message (mk_http_string [] 0) (mk_http_string [] 0) [] (mk_http_string [] 0).

Definition parse (request : string) : Z * http_message * Z :=
  http_parse_message (str request) (Z.of_nat (String.length request)) empty_message 0.

Definition CRLF : string := String "013" (String "010" EmptyString).

(** A token that is followed in the buffer by the space that ended it, as
    the method and the URI of a parsed request are. *)
Definition delimited (s : http_string) : Prop := val s !! len s = Some " "%char.

(** Requests used in the examples. *)
Definition request_list_xyz : string := "GET /imgfs/listXYZ HTTP/1.1" ++ CRLF ++ CRLF.
Definition request_unknown : string := "GET /imgfs/nothing HTTP/1.1" ++ CRLF ++ CRLF.
Definition request_content_prefix : string :=
  "POST /imgfs/insert?name=a HTTP/1.1" ++ CRLF ++ "Content: 5" ++ CRLF ++ CRLF ++ "hello".

(** The four requests of [tests/test-parse.c]. *)
Definition test1 : string :=
  "GET / HTTP/1.1" ++ CRLF ++ "Host: localhost:8000" ++ CRLF ++ "Ac".
Definition test2 : string :=
  "GET / HTTP/1.1" ++ CRLF ++ "Host: localhost:8000" ++ CRLF ++ "Accept: */*" ++ CRLF ++ CRLF.
Definition test3 : string :=
  "GET / HTTP/1.1" ++ CRLF ++ "Host: localhost:8000" ++ CRLF ++ "Content-Length: 10" ++ CRLF
  ++ CRLF ++ "01234".
Definition test4 : string :=
  "GET / HTTP/1.1" ++ CRLF ++ "Host: localhost:8000" ++ CRLF ++ "Content-Length: 10" ++ CRLF
  ++ CRLF ++ "0123456789".


(** *** http_get_var *)

(** [strchr (s, c)] for a character [c] other than NUL: the offset of the
    first [c] in the string at [s], [None] for NULL. *)
Fixpoint strchr (s : bytes) (c : ascii) : option nat :=
  match s with
  | [] => None
  | x :: r =>
      if Ascii.eqb x c then Some O
      else if Ascii.eqb x NUL then None
      else S <$> strchr r c
  end.

(** What [http_get_var] leaves: a return value that is not negative, with
    the buffer [out]; or a negative return value, an error code. *)
Inductive get_var_result :=
| var_value (n : Z) (out : bytes)
| var_error (e : error_code).

(** The loop [while (start)].  Pointers are offsets into [url->val];
    [start] is the occurrence of [param] under examination.  The byte
    before the URI is outside the model: reading it gives [None], as does
    running out of [fuel]. *)
Fixpoint get_var_loop (fuel : nat) (url : http_string) (param : bytes)
    (query_start start : nat) (out : bytes) : option get_var_result :=
  match fuel with
  | O => None
  | S fuel' =>
      at_start ←
        (if (start =? query_start + 1)%nat then Some true
         else match start with
              | O => None
              | S p => (fun c => Ascii.eqb c "&"%char) <$> val url !! p
              end);
      if (at_start : bool) then
        let start1 := (start + Z.to_nat (strlen param))%nat in
        let len :=
          match strchr (drop start1 (val url)) "&"%char with
          | Some e => Z.of_nat e
          | None => to_uint64 (Z.of_nat (len url) - Z.of_nat start1)
          end in
        if Z.of_nat (length out) <=? len then Some (var_error ERR_RUNTIME)
        else
          Some (var_value (to_int len)
                  (<[Z.to_nat len := NUL]>
                     (strncpy out (drop start1 (val url)) (Z.to_nat len))))
      else
        match strstr (drop (S start) (val url)) param with
        | None => Some (var_value 0 out)
        | Some d => get_var_loop fuel' url param query_start (S start + d) out
        end
  end.

(** [http_get_var (url, name, out, sizeof out)]; [param] is [name]
    followed by "=", which [snprintf] writes in full. *)
Definition http_get_var (url : http_string) (name : bytes) (out : bytes)
  : option get_var_result :=
  match strchr (val url) "?"%char with
  | None => Some (var_value 0 out)
  | Some query_start =>
      let param := cstr name ++ str "=" in
      match strstr (drop query_start (val url)) param with
      | None => Some (var_value 0 out)
      | Some d =>
          get_var_loop (S (length (val url))) url param query_start (query_start + d) out
      end
  end.

(** What a return of [http_get_var] into the buffer [out] can be: a
    length and a buffer of the same size, untouched when the length is
    zero because nothing was found, and otherwise holding a string no
    longer than the length, which is smaller than the buffer; or the error
    [ERR_RUNTIME]. *)
Definition safe_result (out : bytes) (r : get_var_result) : Prop :=
  match r with
  | var_value n out' =>
      0 <= n /\ length out' = length out
      /\ ((n = 0 /\ out' = out) \/ (n < Z.of_nat (length out) /\ strlen out' <= n))
  | var_error e => e = ERR_RUNTIME
  end.

(** *** http_net.c: http_reply *)

Definition MAX_SIZE_T_STRING_SIZE : Z := 19.

(** [snprintf (buf, size, ...)] for the text [s] the format expands to:
    the bytes stored before the terminator, and the value returned. *)
Definition snprintf (size : nat) (s : bytes) : bytes * Z :=
  (take (size - 1) s, Z.of_nat (length s)).

(** The header of a reply, as the format of [http_reply] expands. *)
Definition reply_header (HTTP_PROTOCOL_ID status headers : bytes) (body_len : Z) : bytes :=
  cstr HTTP_PROTOCOL_ID ++ cstr status ++ HTTP_LINE_DELIM ++ cstr headers
    ++ str "Content-Length: " ++ Printf.print_dec body_len ++ HTTP_HDR_END_DELIM.

(** [http_reply]: the return code and the bytes handed to [tcp_send].
    [HTTP_PROTOCOL_ID] is the constant of [http_prot.h]; [body] is [None]
    for a NULL pointer; [malloc_ok], the function [tcp_send] and the result
    of [shutdown] stand for the environment.  A read or a write outside the
    response buffer, or outside the body, gives [None]. *)
Definition http_reply (HTTP_PROTOCOL_ID status headers : bytes) (body : option bytes)
    (body_len : Z) (malloc_ok : bool) (tcp_send : bytes -> Z) (shutdown_rc : Z)
  : option (error_code * option bytes) :=
  if bool_decide (body = None) && (0 <? body_len) then Some (ERR_INVALID_ARGUMENT, None)
  else
    let max_total_len :=
      to_uint64 (strlen HTTP_PROTOCOL_ID + strlen (str " ") + strlen status
                 + strlen HTTP_LINE_DELIM + strlen headers + strlen HTTP_LINE_DELIM
                 + strlen (str "Content-Length: ") + MAX_SIZE_T_STRING_SIZE
                 + strlen HTTP_LINE_DELIM + (if 0 <? body_len then body_len else 0)
                 + strlen [NUL]) in
    if negb malloc_ok then Some (ERR_OUT_OF_MEMORY, None)
    else
      let size := to_uint64 (max_total_len + 1) in
      let '(written, currentLen) :=
        snprintf (Z.to_nat size) (reply_header HTTP_PROTOCOL_ID status headers body_len) in
      if size <=? currentLen then None
      else
        response ←
          (if 0 <? body_len then
             b ← body;
             if (currentLen + body_len <=? size) && (body_len <=? Z.of_nat (length b))
             then Some (written ++ take (Z.to_nat body_len) b)
             else None
           else Some written);
        let currentLen := currentLen + (if 0 <? body_len then body_len else 0) in
        let sent := tcp_send response in
        if sent <? 0 then Some (ERR_IO, Some response)
        else if negb (sent =? currentLen) then Some (ERR_IO, Some response)
        else if shutdown_rc <? 0 then Some (ERR_IO, Some response)
        else Some (ERR_NONE, Some response).

End Http.

(** ** The service: from a request to a call of the engine *)

Module Service.
Import CStr Stdio ImgFS Http.

(** The reply a handler sends: [reply_error_msg] for an error code,
    [reply_302_msg], or [http_reply] with the status [HTTP_OK], a header
    line and a body. *)
Inductive service_reply :=
| error_msg (e : error_code)
| found_302
| ok_reply (headers : bytes) (body : bytes) (body_len : Z).

Section Handlers.
Context `{ImgLib} `{Layout}.

(** [char img_id_value[MAX_IMG_ID + 1] = {0}] *)
Definition id_buffer : bytes := replicate (S MAX_IMG_ID) NUL.

(** A handler answers a code other than [ERR_NONE] with
    [reply_error_msg]. *)
Definition reply_for (err : error_code) (ok : service_reply) : service_reply :=
  if bool_decide (err ≠ ERR_NONE) then error_msg err else ok.

(** [handle_delete_call] on the in-memory structure [f]: the reply and the
    structure.  A negative return of [http_get_var] is a [var_error]. *)
Definition handle_delete_call (msg : http_message) (f : imgfs_file)
  : option (service_reply * imgfs_file) :=
  r ← http_get_var (uri msg) (str "img_id") id_buffer;
  match r with
  | var_error e => Some (error_msg e, f)
  | var_value n img_id_value =>
      if n =? 0 then Some (error_msg ERR_NOT_ENOUGH_ARGUMENTS, f)
      else
        let img_id_value := <[MAX_IMG_ID := NUL]> img_id_value in
        '(err, f') ← do_delete img_id_value f;
        Some (reply_for err found_302, f')
  end.


(** [handle_read_call]; [resolution_atoi], of [util.c], is a parameter. *)
Definition handle_read_call (resolution_atoi : bytes -> Z) (msg : http_message)
    (f : imgfs_file) : option (service_reply * imgfs_file) :=
  res ← http_get_var (uri msg) (str "res") id_buffer;
  id ← http_get_var (uri msg) (str "img_id") id_buffer;
  match res, id with
  | var_error e, _ => Some (error_msg e, f)
  | _, var_error e => Some (error_msg e, f)
  | var_value n_res res_value, var_value n_id img_id_value =>
      if (n_res =? 0) || (n_id =? 0) then Some (error_msg ERR_NOT_ENOUGH_ARGUMENTS, f)
      else
        let resolution := resolution_atoi res_value in
        if resolution =? -1 then Some (error_msg ERR_RESOLUTIONS, f)
        else
          r ← do_read img_id_value resolution f;
          Some (reply_for (rd_err r)
                  (ok_reply (str "Content-Type: image/jpeg" ++ HTTP_LINE_DELIM)
                            (rd_buffer r) (rd_size r)),
                rd_state r)
  end.

(** [handle_list_call]. *)
Definition handle_list_call (print_header : imgfs_header -> bytes)
    (print_metadata : img_metadata -> bytes)
    (json_object_to_json_string : json_object -> bytes) (strdup_ok : bool)
    (f : imgfs_file) : option (service_reply * imgfs_file) :=
  '(err, _, json_output) ←
    do_list print_header print_metadata json_object_to_json_string strdup_ok f JSON;
  if bool_decide (err ≠ ERR_NONE) then Some (error_msg err, f)
  else
    json ← json_output;
    Some (ok_reply (str "Content-Type: application/json" ++ HTTP_LINE_DELIM)
                   json (strlen json), f).

(** The length [http_get_var] gives the value that starts at [tail] when
    [n] bytes of the URI are left: up to the first ampersand of the buffer,
    wherever it is, and up to the end of the URI when the string at [tail]
    has none. *)
Definition value_length (tail : bytes) (n : nat) : nat :=
  match strchr tail "&"%char with
  | Some e => e
  | None => n
  end.

(** The value itself, as the string the buffer of the handler holds. *)
Definition query_value (tail : bytes) (n : nat) : bytes :=
  take (value_length tail n) (cstr tail).


End Handlers.
End Service.

(** ** Concrete collaborators and databases, for the examples *)

Module Toy.
Import CStr Stdio ImgFS.

Definition byte_of (z : Z) : ascii := ascii_of_N (Z.to_N (z mod 256)).

(** A stand-in for the digest: the first 32 bytes, NUL-padded. *)
Definition toy_sha (b : bytes) : bytes :=
  take SHA256_DIGEST_LENGTH (b ++ replicate SHA256_DIGEST_LENGTH NUL).

(** A stand-in for the JPEG library: an image is a byte string that starts
    with "JPG"; a thumbnail keeps the mark and [width] more bytes. *)
Definition is_jpg (b : bytes) : bool := bool_decide (take 3 b = str "JPG").

#[global] Instance toy_imglib : ImgLib := {|
  SHA256 := toy_sha;
  get_resolution := fun b => if is_jpg b then (ERR_NONE, (600, 800)) else (ERR_IMGLIB, (0, 0));
  VipsImage := bytes;
  vips_jpegload_buffer := fun b => if is_jpg b then Some b else None;
  vips_thumbnail_image := fun img width => Some (take (3 + Z.to_nat width) img);
  vips_jpegsave_buffer := fun img => Some img
|}.

(** A small layout: a header of 4 bytes and records of 2 bytes. *)
#[global] Instance toy_layout : Layout := {|
  sizeof_imgfs_header := 4;
  sizeof_img_metadata := 2;
  encode_header := fun h =>
    [byte_of (version h); byte_of (nb_files h); byte_of (max_files h); NUL];
  encode_metadata := fun m =>
    [byte_of (is_valid m); byte_of (default 0 (get3 (size m) ORIG_RES))];
  sizeof_imgfs_header_pos := eq_refl;
  sizeof_img_metadata_pos := eq_refl;
  encode_header_length := fun _ => eq_refl;
  encode_metadata_length := fun _ => eq_refl
|}.

(** The buffer [do_insert] leaves in [img_id] for an id. *)
Definition id_buffer (id : string) : bytes := stored_id (str id).

Definition toy_header (ver nb mx : Z) : imgfs_header :=
  mk_header (str "EPFL ImgFS 2024") ver nb mx [64; 64; 256; 256].

(** The database [do_create] writes with [max_files = mx]. *)
Definition fresh_db (mx : nat) : imgfs_file :=
  let h := toy_header 0 0 (Z.of_nat mx) in
  mk_imgfs_file
    (mkFILE (encode_header h ++ concat (replicate mx (encode_metadata zero_metadata))) 0 [])
    h (replicate mx zero_metadata).

Definition jpg_a : bytes := str "JPG-aaaa".
Definition jpg_b : bytes := str "JPG-bbbbbb".

(** A valid slot for an image stored at [off]. *)
Definition slot (id : string) (blob : bytes) (off : Z) : img_metadata :=
  mk_metadata (id_buffer id) (toy_sha blob) (800, 600)
              (0, 0, Z.of_nat (length blob)) (0, 0, off) NON_EMPTY.

(** A table for the duplicate-id check: slot 0 holds the content of the new
    image under another id, slot 1 holds the id of the new image, slot 2 is
    the freshly populated one. *)
Definition dedup_table : imgfs_file :=
  mk_imgfs_file (mkFILE (replicate 12 NUL ++ jpg_a ++ jpg_b) 0 [])
    (toy_header 2 3 4)
    [ slot "other" jpg_a 12;
      slot "pic" jpg_b 20;
      mk_metadata (id_buffer "pic") (toy_sha jpg_a) (800, 600) (0, 0, 0) (0, 0, 0) NON_EMPTY;
      zero_metadata ].

(** The state an engine call leaves, [d] when the call is undefined. *)
Definition state_after (r : option (error_code * imgfs_file)) (d : imgfs_file)
  : imgfs_file :=
  match r with Some (_, f) => f | None => d end.

(** A database of capacity 1 that holds one image under the id "pic". *)
Definition full_db : imgfs_file :=
  state_after (do_insert jpg_a (str "pic") (fresh_db 1)) (fresh_db 1).

(** A database of capacity 2 that holds one image under the id "pic". *)
Definition one_image_db : imgfs_file :=
  state_after (do_insert jpg_a (str "pic") (fresh_db 2)) (fresh_db 2).

(** Two images, "first" in slot 0 and "pic" in slot 1, and the database
    that deleting "first" leaves: slot 0 is a hole, [nb_files] is 1 and the
    remaining image sits at index 1. *)
Definition two_images_db : imgfs_file :=
  let d1 := state_after (do_insert jpg_a (str "first") (fresh_db 2)) (fresh_db 2) in
  state_after (do_insert jpg_b (str "pic") d1) d1.

Definition hole_db : imgfs_file :=
  state_after (do_delete (str "first") two_images_db) two_images_db.

(** A database file whose version counter has reached its last value. *)
Definition last_version_db : imgfs_file :=
  mk_imgfs_file (file (fresh_db 2)) (toy_header UINT32_MAX 0 2) (metadata (fresh_db 2)).

(** The fresh database in an environment whose seventh library call fails:
    for an insert that appends, the write of the metadata record. *)
Definition failing_write_db : imgfs_file :=
  mk_imgfs_file
    (mkFILE (contents (file (fresh_db 2))) 0 [false; false; false; false; false; false; true])
    (header (fresh_db 2)) (metadata (fresh_db 2)).

Definition wrapped_db : imgfs_file :=
  state_after (do_insert jpg_a (str "pic") last_version_db) last_version_db.

(** Two ids one byte longer than the limit. *)
Definition long_id : bytes := replicate (S MAX_IMG_ID) "a"%char.
Definition long_id_b : bytes := replicate (S MAX_IMG_ID) "b"%char.

(** The states after an insert under [long_id], and after a second insert
    of the same blob under [long_id_b]. *)
Definition long_id_db : imgfs_file :=
  state_after (do_insert jpg_a long_id (fresh_db 2)) (fresh_db 2).
Definition long_ids_db : imgfs_file :=
  state_after (do_insert jpg_a long_id_b long_id_db) long_id_db.


(** The structure [do_create_cmd] hands to [do_create]: zeroed, with the
    capacity and the default resolutions. *)
Definition blank (mx : Z) : imgfs_file :=
  mk_imgfs_file (mkFILE [] 0 []) (mk_header (replicate 32 NUL) 0 0 mx [64; 64; 256; 256]) [].

(** The database that holds "pic", after a second image is inserted under
    the id "two". *)
Definition with_two_db : imgfs_file :=
  state_after (do_insert jpg_b (str "two") one_image_db) one_image_db.


(** What a read leaves, [d] when the call is undefined. *)
Definition result_of (r : option read_result) (d : imgfs_file) : read_result :=
  default (mk_read_result ERR_IO [] 0 d) r.

(** The first read of "pic" as a thumbnail. *)
Definition read_thumb : read_result :=
  result_of (do_read (str "pic") THUMB_RES one_image_db) one_image_db.

(** Requests a client sends, and the message [http_parse_message] makes
    of one. *)
Definition delete_pic : string :=
  "GET /imgfs/delete?img_id=pic HTTP/1.1" ++ Http.CRLF ++ Http.CRLF.
Definition delete_pic_accept : string :=
  "GET /imgfs/delete?img_id=pic HTTP/1.1" ++ Http.CRLF ++ "Accept: a&b" ++ Http.CRLF
  ++ Http.CRLF.
Definition read_pic : string :=
  "GET /imgfs/read?res=thumb&img_id=pic HTTP/1.1" ++ Http.CRLF ++ Http.CRLF.
Definition insert_two : string :=
  "POST /imgfs/insert?name=two HTTP/1.1" ++ Http.CRLF ++ "Content-Length: 10" ++ Http.CRLF
  ++ Http.CRLF ++ "JPG-bbbbbb".

Definition message (request : string) : Http.http_message := (Http.parse request).1.2.

(** [tcp_send] on a connection that takes every byte. *)
Definition send_all (b : bytes) : Z := Z.of_nat (length b).


End Toy.

(** * Properties *)

Import CStr Stdio ImgFS.

(** ** C strings *)

Section CStrFacts.

Lemma strcmp_refl (a : bytes) : strcmp a a = 0.
Proof.
  induction a as [|c a IH]; [reflexivity|].
  cbn [strcmp hd tl]. rewrite Ascii.eqb_refl. destruct (Ascii.eqb c NUL); auto.
Qed.

Lemma uchar_inj (c d : ascii) : uchar c = uchar d -> c = d.
Proof.
  unfold uchar. intros E. apply N2Z.inj in E.
  rewrite <- (ascii_N_embedding c), <- (ascii_N_embedding d). congruence.
Qed.

Lemma uchar_NUL : uchar NUL = 0.
Proof. reflexivity. Qed.

(** [strcmp] answers 0 exactly when the two buffers hold the same string. *)
Lemma strcmp_0_iff (a b : bytes) : strcmp a b = 0 <-> cstr a = cstr b.
Proof.
  revert b. induction a as [|c a IH]; intros b.
  - cbn [strcmp cstr]. destruct b as [|d b]; cbn [hd cstr].
    + split; auto.
    + destruct (Ascii.eqb_spec d NUL) as [->|Hd].
      * split; auto.
      * split; [|discriminate]. intros E.
        exfalso. apply Hd, uchar_inj. rewrite uchar_NUL. lia.
  - cbn [strcmp cstr]. destruct b as [|d b]; cbn [hd tl cstr].
    + destruct (Ascii.eqb_spec c NUL) as [->|Hc].
      * split; auto.
      * split; [|discriminate]. intros E.
        exfalso. apply Hc, uchar_inj. rewrite uchar_NUL in E |- *. lia.
    + destruct (Ascii.eqb_spec c d) as [->|Hcd].
      * destruct (Ascii.eqb_spec d NUL) as [->|Hd]; [split; auto|].
        rewrite IH. split; [congruence|]. intros E. congruence.
      * split.
        -- intros E. exfalso. apply Hcd, uchar_inj. lia.
        -- destruct (Ascii.eqb_spec c NUL) as [->|Hc];
             destruct (Ascii.eqb_spec d NUL) as [->|Hd]; try congruence; discriminate.
Qed.

Lemma memcmp_refl (a : bytes) (n : nat) : memcmp a a n = 0.
Proof.
  revert a. induction n as [|n IH]; intros a; [reflexivity|].
  cbn [memcmp]. rewrite Ascii.eqb_refl. apply IH.
Qed.

End CStrFacts.

(** ** Name-and-content deduplication *)

Section Dedup.

Lemma copy_res_eq (src t : img_metadata) :
  copy_res src t
  = mk_metadata (img_id t) (SHA t) (orig_res t) (size src) (offset src) (is_valid t).
Proof.
  destruct src as [? ? ? [[? ?] ?] [[? ?] ?] ?], t as [? ? ? [[? ?] ?] [[? ?] ?] ?].
  reflexivity.
Qed.

(** A valid slot [j <> index] that is still to be visited and holds the id
    of the target stops the loop with [ERR_DUPLICATE_ID], whatever the
    slots visited before it did to the target. *)
Lemma dedup_loop_duplicate (index n : nat) :
  forall (i : nat) (md : list img_metadata) (j : nat) (mj t : img_metadata),
    (i <= j < i + n)%nat -> j <> index ->
    (i + n <= length md)%nat ->
    md !! j = Some mj -> is_valid mj <> 0 ->
    md !! index = Some t -> strcmp (img_id mj) (img_id t) = 0 ->
    exists md', dedup_loop index n i md = Some (ERR_DUPLICATE_ID, md').
Proof.
  induction n as [|n IH]; intros i md j mj t Hj Hne Hlen Hmj Hvj Ht Hcmp; [lia|].
  cbn [dedup_loop]. case_bool_decide as Hi.
  - apply (IH (S i) md j mj t); auto; lia.
  - destruct (md !! i) as [mi|] eqn:Hmi;
      [|apply lookup_ge_None in Hmi; lia].
    cbn [mbind option_bind].
    destruct (is_valid mi =? 0) eqn:Hvi.
    + apply Z.eqb_eq in Hvi.
      assert (i <> j) by (intros ->; congruence).
      apply (IH (S i) md j mj t); auto; lia.
    + rewrite Ht. cbn [mbind option_bind].
      destruct (strcmp (img_id mi) (img_id t) =? 0) eqn:Hs; [eauto|].
      apply Z.eqb_neq in Hs.
      assert (i <> j) by (intros ->; congruence).
      destruct (memcmp (SHA mi) (SHA t) SHA256_DIGEST_LENGTH =? 0).
      * apply (IH (S i) (<[index := copy_res mi t]> md) j mj (copy_res mi t)).
        -- lia.
        -- exact Hne.
        -- rewrite length_insert. lia.
        -- rewrite list_lookup_insert_ne; auto.
        -- exact Hvj.
        -- apply list_lookup_insert_eq. eapply lookup_lt_Some; eauto.
        -- rewrite copy_res_eq. exact Hcmp.
      * apply (IH (S i) md j mj t); auto; lia.
Qed.

Lemma tbl_get_Some (md : list img_metadata) (k : Z) (m : img_metadata) :
  0 <= k -> md !! Z.to_nat k = Some m -> tbl_get md k = Some m.
Proof.
  intros Hk Hm. unfold tbl_get.
  pose proof (lookup_lt_Some _ _ _ Hm) as Hlt.
  replace (0 <=? k) with true by (symmetry; apply Z.leb_le; lia).
  replace (k <? Z.of_nat (length md)) with true by (symmetry; apply Z.ltb_lt; lia).
  exact Hm.
Qed.

(** Any other valid slot with the id of the valid slot [k] makes the
    deduplication answer [ERR_DUPLICATE_ID]. *)
Lemma dedup_finds_duplicate
    (f : imgfs_file) (k : Z) (j : nat) (mk mj : img_metadata) :
  0 <= k < max_files (header f) ->
  (Z.to_nat (max_files (header f)) <= length (metadata f))%nat ->
  metadata f !! Z.to_nat k = Some mk -> is_valid mk <> 0 ->
  (j < Z.to_nat (max_files (header f)))%nat -> j <> Z.to_nat k ->
  metadata f !! j = Some mj -> is_valid mj <> 0 ->
  strcmp (img_id mj) (img_id mk) = 0 ->
  exists f', do_name_and_content_dedup f k = Some (ERR_DUPLICATE_ID, f').
Proof.
  intros Hk Hlen Hmk Hvk Hj Hjk Hmj Hvj Hcmp.
  unfold do_name_and_content_dedup.
  replace (max_files (header f) <=? k) with false by (symmetry; apply Z.leb_gt; lia).
  rewrite (tbl_get_Some _ _ _ (proj1 Hk) Hmk). cbn [mbind option_bind].
  replace (is_valid mk =? 0) with false by (symmetry; apply Z.eqb_neq; exact Hvk).
  destruct (dedup_loop_duplicate (Z.to_nat k) (Z.to_nat (max_files (header f))) 0
              (<[Z.to_nat k := set_offset mk ORIG_RES 0]> (metadata f)) j mj
              (set_offset mk ORIG_RES 0)) as [md' Hloop].
  - lia.
  - exact Hjk.
  - rewrite length_insert. lia.
  - rewrite list_lookup_insert_ne; auto.
  - exact Hvj.
  - apply list_lookup_insert_eq. eapply lookup_lt_Some; eauto.
  - exact Hcmp.
  - rewrite Hloop. cbn [mbind option_bind]. eauto.
Qed.

(** C4.  In [do_name_and_content_dedup] on a valid slot [k], any other valid
    slot [j] with the same [img_id] makes the result [ERR_DUPLICATE_ID]; no
    hypothesis is made on the slots before [j], so a slot with the SHA of
    slot [k] at a lower index does not end the scan with a success. *)
Theorem dedup_reports_duplicate_id
    (f : imgfs_file) (k : Z) (j : nat) (mk mj : img_metadata) :
  0 <= k < max_files (header f) ->
  (Z.to_nat (max_files (header f)) <= length (metadata f))%nat ->
  metadata f !! Z.to_nat k = Some mk -> is_valid mk <> 0 ->
  (j < Z.to_nat (max_files (header f)))%nat -> j <> Z.to_nat k ->
  metadata f !! j = Some mj -> is_valid mj <> 0 ->
  strcmp (img_id mj) (img_id mk) = 0 ->
  exists f', do_name_and_content_dedup f k = Some (ERR_DUPLICATE_ID, f').
Proof.
  intros Hk Hlen Hmk Hvk Hj Hjk Hmj Hvj Hcmp.
  unfold do_name_and_content_dedup.
  replace (max_files (header f) <=? k) with false by (symmetry; apply Z.leb_gt; lia).
  rewrite (tbl_get_Some _ _ _ (proj1 Hk) Hmk). cbn [mbind option_bind].
  replace (is_valid mk =? 0) with false by (symmetry; apply Z.eqb_neq; exact Hvk).
  destruct (dedup_loop_duplicate (Z.to_nat k) (Z.to_nat (max_files (header f))) 0
              (<[Z.to_nat k := set_offset mk ORIG_RES 0]> (metadata f)) j mj
              (set_offset mk ORIG_RES 0)) as [md' Hloop].
  - lia.
  - exact Hjk.
  - rewrite length_insert. lia.
  - rewrite list_lookup_insert_ne; auto.
  - exact Hvj.
  - apply list_lookup_insert_eq. eapply lookup_lt_Some; eauto.
  - exact Hcmp.
  - rewrite Hloop. cbn [mbind option_bind]. eauto.
Qed.

(** In [Toy.dedup_table] slot 0 has the SHA of slot 2 and slot 1 has its id. *)
Lemma dedup_reports_duplicate_id_witness :
  memcmp (SHA (Toy.slot "other" Toy.jpg_a 12)) (Toy.toy_sha Toy.jpg_a)
         SHA256_DIGEST_LENGTH = 0
  /\ exists f', do_name_and_content_dedup Toy.dedup_table 2 = Some (ERR_DUPLICATE_ID, f').
Proof.
  split; [reflexivity|].
  apply (dedup_reports_duplicate_id Toy.dedup_table 2 1
           (mk_metadata (Toy.id_buffer "pic") (Toy.toy_sha Toy.jpg_a) (800, 600)
                        (0, 0, 0) (0, 0, 0) NON_EMPTY)
           (Toy.slot "pic" Toy.jpg_b 20)).
  - cbn. lia.
  - cbn. lia.
  - reflexivity.
  - discriminate.
  - cbn. lia.
  - discriminate.
  - reflexivity.
  - discriminate.
  - reflexivity.
Defined.

End Dedup.

(** ** Insertion: auxiliary facts *)

Section InsertFacts.
Context `{ImgLib} `{Layout}.

Lemma to_uint32_small (z : Z) : 0 <= z <= UINT32_MAX -> to_uint32 z = z.
Proof. unfold to_uint32, UINT32_MAX. intros Hz. apply Z.mod_small. lia. Qed.

Lemma first_free_inv (md : list img_metadata) (n : nat) :
  forall (i k : nat),
    first_free md n i = Some (Z.of_nat k) ->
    (i <= k < i + n)%nat
    /\ (exists m, md !! k = Some m /\ is_valid m = 0)
    /\ (forall j m', (i <= j < k)%nat -> md !! j = Some m' -> is_valid m' <> 0).
Proof.
  induction n as [|n IH]; intros i k Hf; cbn [first_free] in Hf.
  - injection Hf as Hf. lia.
  - destruct (md !! i) as [m|] eqn:Hm; [|discriminate].
    cbn [mbind option_bind] in Hf.
    destruct (is_valid m =? EMPTY) eqn:Hv.
    + injection Hf as Hf. apply Nat2Z.inj in Hf. subst k.
      apply Z.eqb_eq in Hv. split; [lia|]. split; [eauto|]. intros; lia.
    + apply Z.eqb_neq in Hv. apply IH in Hf as (Hk & Hfree & Hbefore).
      split; [lia|]. split; [exact Hfree|].
      intros j m' Hj Hm'. destruct (decide (j = i)) as [->|Hji].
      * rewrite Hm in Hm'. injection Hm' as <-. exact Hv.
      * apply (Hbefore j m'); [lia|exact Hm'].
Qed.

(** The loop of the deduplication writes to the target slot only. *)
Lemma dedup_loop_frame (index n : nat) :
  forall (i : nat) (md md' : list img_metadata) (e : error_code),
    dedup_loop index n i md = Some (e, md') ->
    forall x, <[index := x]> md' = <[index := x]> md.
Proof.
  induction n as [|n IH]; intros i md md' e Hl x; cbn [dedup_loop] in Hl.
  - congruence.
  - case_bool_decide; [eauto|].
    destruct (md !! i) as [mi|]; [|discriminate]. cbn [mbind option_bind] in Hl.
    destruct (is_valid mi =? 0); [eauto|].
    destruct (md !! index) as [t|]; [|discriminate]. cbn [mbind option_bind] in Hl.
    destruct (strcmp (img_id mi) (img_id t) =? 0); [congruence|].
    destruct (memcmp (SHA mi) (SHA t) SHA256_DIGEST_LENGTH =? 0); [|eauto].
    rewrite (IH _ _ _ _ Hl x). apply list_insert_insert_eq.
Qed.

Lemma dedup_frame (f f' : imgfs_file) (k : Z) (e : error_code) :
  do_name_and_content_dedup f k = Some (e, f') ->
  header f' = header f /\ file f' = file f
  /\ forall x, <[Z.to_nat k := x]> (metadata f') = <[Z.to_nat k := x]> (metadata f).
Proof.
  unfold do_name_and_content_dedup. intros Hd.
  destruct (max_files (header f) <=? k); [injection Hd as <- <-; auto|].
  destruct (tbl_get (metadata f) k) as [t|]; [|discriminate].
  cbn [mbind option_bind] in Hd.
  destruct (is_valid t =? 0); [injection Hd as <- <-; auto|].
  destruct (dedup_loop _ _ _ _) as [[e1 md1]|] eqn:Hl; [|discriminate].
  cbn [mbind option_bind] in Hd. injection Hd as <- <-. cbn.
  split; [reflexivity|]. split; [reflexivity|].
  intros x. rewrite (dedup_loop_frame _ _ _ _ _ _ Hl x). apply list_insert_insert_eq.
Qed.

(** The [img_id] buffer after [strncpy] and the forced terminator. *)
Lemma cstr_nul_free (s : bytes) : NUL ∉ cstr s.
Proof.
  induction s as [|c s IH]; cbn [cstr]; [apply not_elem_of_nil|].
  destruct (Ascii.eqb_spec c NUL) as [->|Hc]; [apply not_elem_of_nil|].
  apply not_elem_of_cons. split; [congruence|exact IH].
Qed.

Lemma cstr_take_padded (l : bytes) :
  NUL ∉ l -> forall n m, cstr (take n (l ++ replicate m NUL) ++ [NUL]) = take n l.
Proof.
  induction l as [|c l IH]; intros Hl n m.
  - rewrite take_nil. destruct n as [|n]; [reflexivity|].
    destruct m as [|m]; reflexivity.
  - apply not_elem_of_cons in Hl as [Hc Hl].
    destruct n as [|n]; [reflexivity|].
    cbn [app take cstr].
    destruct (Ascii.eqb_spec c NUL) as [->|_]; [congruence|].
    f_equal. apply IH. exact Hl.
Qed.

Lemma stored_id_eq (id : bytes) :
  stored_id id = take MAX_IMG_ID (cstr id ++ replicate MAX_IMG_ID NUL) ++ [NUL].
Proof.
  unfold stored_id, strncpy.
  assert (Hlen : length (take MAX_IMG_ID (cstr id ++ replicate MAX_IMG_ID NUL)) = MAX_IMG_ID).
  { rewrite length_take, length_app, length_replicate. lia. }
  replace (drop MAX_IMG_ID (img_id zero_metadata)) with [NUL] by reflexivity.
  rewrite insert_app_r_alt by lia.
  rewrite Hlen, Nat.sub_diag. reflexivity.
Qed.

(** The stored id is the id cut to [MAX_IMG_ID] bytes. *)
Lemma cstr_stored_id (id : bytes) : cstr (stored_id id) = take MAX_IMG_ID (cstr id).
Proof. rewrite stored_id_eq. apply cstr_take_padded, cstr_nul_free. Qed.

Lemma length_nonempty (B : bytes) : B <> [] -> (Z.of_nat (length B) =? 0) = false.
Proof. intros HB. apply Z.eqb_neq. destruct B; [congruence|cbn [length]; lia]. Qed.

End InsertFacts.

(** The part of [do_insert] up to the call of [get_resolution], under the
    conditions that let it reach that call: a blob, room in the header
    count and a free slot [k]. *)
Ltac insert_prefix f k HB Hnb Hmax Hfree :=
  let Hk := fresh "Hk" in
  let Hbefore := fresh "Hbefore" in
  let m := fresh "m_old" in
  let Hm := fresh "Hm_old" in
  let Hv := fresh "Hv_old" in
  let Hget := fresh "Hget" in
  destruct (first_free_inv _ _ _ _ Hfree) as (Hk & (m & Hm & Hv) & Hbefore);
  assert (Hget : tbl_get (metadata f) (Z.of_nat k) = Some m)
    by (apply tbl_get_Some; [lia|rewrite Nat2Z.id; exact Hm]);
  unfold do_insert;
  rewrite (length_nonempty _ HB);
  replace (max_files (header f) <=? nb_files (header f)) with false
    by (symmetry; apply Z.leb_gt; lia);
  rewrite Hfree; cbn [mbind option_bind];
  rewrite (to_uint32_small (Z.of_nat k)) by lia;
  rewrite Hget;
  cbn [mbind option_bind];
  rewrite !Nat2Z.id.

(** Case analysis along the paths of a function that returned. *)
Ltac split_paths Hi :=
  repeat match type of Hi with
         | (if ?c then _ else _) = _ => destruct c eqn:?
         | (let '(_, _) := ?p in _) = _ => destruct p eqn:?
         | (match ?x with _ => _ end) = _ => destruct x eqn:?
         | (_ ≫= _) = _ => apply bind_Some in Hi as (? & ? & Hi)
         | (_ <$> _) = _ => apply fmap_Some in Hi as (? & ? & Hi)
         | Some _ = Some _ => injection Hi as Hi; subst
         | (_, _) = (_, _) => injection Hi as Hi; subst
         end.

Ltac use_dedup_frame :=
  match goal with
  | Hd : do_name_and_content_dedup _ _ = Some _ |- _ =>
      let Hh := fresh "Hh" in
      apply dedup_frame in Hd as (Hh & _ & _); rewrite ?Hh
  end.

(** ** Insertion *)

Section Insert.
Context `{ImgLib} `{Layout}.

(** C10.  When [get_resolution] fails, [do_insert] returns its error with
    the slot it has just populated still valid and without any blob
    (all sizes and offsets zero), and with [nb_files] incremented; nothing
    has been written to the file and no other slot has changed.  The slot
    was free before the call: the state is not the one before the call, and
    a valid slot now has no original image. *)
Theorem insert_resolution_error_keeps_slot
    (B id : bytes) (f : imgfs_file) (k : nat) (err : error_code) (hw : Z * Z) :
  B <> [] ->
  0 <= nb_files (header f) < max_files (header f) ->
  max_files (header f) <= UINT32_MAX ->
  first_free (metadata f) (Z.to_nat (max_files (header f))) 0 = Some (Z.of_nat k) ->
  get_resolution B = (err, hw) ->
  err <> ERR_NONE ->
  exists f' m m_before,
    do_insert B id f = Some (err, f')
    /\ metadata f !! k = Some m_before /\ is_valid m_before = EMPTY
    /\ metadata f' !! k = Some m /\ is_valid m = NON_EMPTY
    /\ size m = (0, 0, 0) /\ offset m = (0, 0, 0)
    /\ nb_files (header f') = nb_files (header f) + 1
    /\ version (header f') = version (header f)
    /\ file f' = file f
    /\ (forall j, j <> k -> metadata f' !! j = metadata f !! j).
Proof.
  intros HB Hnb Hmax Hfree Hres Herr.
  insert_prefix f k HB Hnb Hmax Hfree.
  rewrite Hres. destruct hw as [height width].
  rewrite bool_decide_eq_true_2 by exact Herr.
  eexists _, _, m_old. split; [reflexivity|]. cbn.
  split; [exact Hm_old|]. split; [exact Hv_old|].
  split; [apply list_lookup_insert_eq; eapply lookup_lt_Some; eauto|].
  split; [reflexivity|]. split; [reflexivity|]. split; [reflexivity|].
  split; [apply to_uint32_small; unfold UINT32_MAX in *; lia|].
  split; [reflexivity|]. split; [reflexivity|].
  intros j Hj. apply list_lookup_insert_ne. auto.
Qed.

Lemma header_eta (h : imgfs_header) :
  mk_header (name h) (version h) (nb_files h) (max_files h) (resized_res h) = h.
Proof. destruct h; reflexivity. Qed.

(** C3 (amended).  When the header count leaves room, a slot is free, the
    blob is not empty and its dimensions can be read, an insert under an id
    that a valid slot already holds fails with [ERR_DUPLICATE_ID]; the
    header (with [nb_files]) and the file are those before the call, and the
    table is the one before the call with the lowest free slot zeroed: no
    other slot differs, and nothing differs if that slot was zero already. *)
Theorem insert_duplicate_id_reverts
    (B id : bytes) (f : imgfs_file) (k j : nat) (mj : img_metadata) (hw : Z * Z) :
  B <> [] ->
  0 <= nb_files (header f) < max_files (header f) ->
  max_files (header f) <= UINT32_MAX ->
  (Z.to_nat (max_files (header f)) <= length (metadata f))%nat ->
  first_free (metadata f) (Z.to_nat (max_files (header f))) 0 = Some (Z.of_nat k) ->
  get_resolution B = (ERR_NONE, hw) ->
  (length (cstr id) <= MAX_IMG_ID)%nat ->
  (j < Z.to_nat (max_files (header f)))%nat ->
  metadata f !! j = Some mj -> is_valid mj <> 0 -> strcmp (img_id mj) id = 0 ->
  exists f',
    do_insert B id f = Some (ERR_DUPLICATE_ID, f')
    /\ header f' = header f
    /\ file f' = file f
    /\ metadata f' = <[k := zero_metadata]> (metadata f)
    /\ (forall i, i <> k -> metadata f' !! i = metadata f !! i)
    /\ (metadata f !! k = Some zero_metadata -> metadata f' = metadata f).
Proof.
  intros HB Hnb Hmax Hlen Hfree Hres Hid Hj Hmj Hvj Hheld.
  insert_prefix f k HB Hnb Hmax Hfree.
  rewrite Hres. destruct hw as [height width].
  rewrite bool_decide_eq_false_2 by (intros E; apply E; reflexivity).
  assert (Hjk : j <> k) by (intros ->; congruence).
  assert (Hklt : (k < length (metadata f))%nat) by (eapply lookup_lt_Some; eauto).
  match goal with
  | |- context [do_name_and_content_dedup ?f2 (Z.of_nat k)] =>
      destruct (dedup_finds_duplicate f2 (Z.of_nat k) j
                  (set_orig_res
                     (set_is_valid
                        (set_img_id (set_SHA zero_metadata (SHA256 B)) (stored_id id))
                        NON_EMPTY)
                     (to_uint32 width, to_uint32 height)) mj) as [f3 Hd];
        [ cbn; lia
        | cbn; rewrite length_insert; exact Hlen
        | cbn; rewrite Nat2Z.id; apply list_lookup_insert_eq; exact Hklt
        | discriminate
        | exact Hj
        | rewrite Nat2Z.id; exact Hjk
        | cbn; rewrite list_lookup_insert_ne by auto; exact Hmj
        | exact Hvj
        | cbn [img_id set_orig_res set_is_valid set_img_id];
          apply strcmp_0_iff; rewrite cstr_stored_id, take_ge by exact Hid;
          apply strcmp_0_iff; exact Hheld
        | rewrite Hd ]
  end.
  cbn [mbind option_bind].
  rewrite bool_decide_eq_true_2 by discriminate.
  rewrite bool_decide_eq_true_2 by reflexivity.
  apply dedup_frame in Hd as (Hh & Hfl & Hmd). rewrite Nat2Z.id in Hmd.
  rewrite Hh, Hfl, Hmd. cbn.
  rewrite list_insert_insert_eq.
  replace (to_uint32 (to_uint32 (nb_files (header f) + 1) - 1)) with (nb_files (header f))
    by (rewrite (to_uint32_small (nb_files (header f) + 1)),
                to_uint32_small; unfold UINT32_MAX in *; lia).
  eexists. split; [reflexivity|]. cbn.
  split; [unfold set_nb_files; cbn; apply header_eta|].
  split; [reflexivity|]. split; [reflexivity|].
  split.
  - intros i Hi. apply list_lookup_insert_ne. auto.
  - intros Hz. apply list_insert_id. exact Hz.
Qed.

(** A successful insert moves the version counter by one, modulo 2^32. *)
Lemma insert_success_version (B id : bytes) (f f' : imgfs_file) :
  do_insert B id f = Some (ERR_NONE, f') ->
  version (header f') = to_uint32 (version (header f) + 1).
Proof.
  unfold do_insert. intros Hi.
  split_paths Hi; try discriminate; try congruence.
  all: cbn.
  all: try (exfalso; repeat case_match; discriminate).
  all: use_dedup_frame; reflexivity.
Qed.

(** An insert that fails before the header is rewritten leaves the counter. *)
Lemma insert_failure_version (B id : bytes) (f f' : imgfs_file) (e : error_code) :
  do_insert B id f = Some (e, f') -> e <> ERR_NONE -> e <> ERR_IO ->
  version (header f') = version (header f).
Proof.
  unfold do_insert. intros Hi He Hio.
  split_paths Hi; try discriminate; try congruence.
  all: cbn.
  all: try reflexivity.
  all: try (use_dedup_frame; reflexivity).
  all: exfalso; repeat case_match; simplify_eq; congruence.
Qed.

End Insert.

(** ** Deletion and reading *)

Section DeleteRead.
Context `{ImgLib} `{Layout}.

Lemma delete_success_version (id : bytes) (f f' : imgfs_file) :
  do_delete id f = Some (ERR_NONE, f') ->
  version (header f') = to_uint32 (version (header f) + 1).
Proof.
  unfold do_delete. intros Hi.
  split_paths Hi; try discriminate; try congruence.
  all: reflexivity.
Qed.

Lemma delete_failure_version (id : bytes) (f f' : imgfs_file) (e : error_code) :
  do_delete id f = Some (e, f') -> e <> ERR_NONE -> e <> ERR_IO ->
  version (header f') = version (header f).
Proof.
  unfold do_delete. intros Hi He Hio.
  split_paths Hi; try discriminate; try congruence.
Qed.

(** [lazily_resize] refuses every position from [nb_files] on, whatever
    the slot holds. *)
Lemma lazily_resize_rejects_position (r : Z) (f : imgfs_file) (p : Z) :
  THUMB_RES <= r <= ORIG_RES -> nb_files (header f) <= p ->
  lazily_resize r f p = Some (ERR_INVALID_IMGID, f).
Proof.
  intros Hr Hp. unfold lazily_resize.
  replace (r <? THUMB_RES) with false by (symmetry; apply Z.ltb_ge; lia).
  replace (ORIG_RES <? r) with false by (symmetry; apply Z.ltb_ge; lia).
  replace (nb_files (header f) <=? p) with true by (symmetry; apply Z.leb_le; lia).
  reflexivity.
Qed.

Lemma lazily_resize_header (r : Z) (f f' : imgfs_file) (p : Z) (e : error_code) :
  lazily_resize r f p = Some (e, f') -> header f' = header f.
Proof.
  unfold lazily_resize. intros Hi.
  split_paths Hi; try discriminate; try congruence; reflexivity.
Qed.

Lemma read_header (id : bytes) (r : Z) (f : imgfs_file) (res : read_result) :
  do_read id r f = Some res -> header (rd_state res) = header f.
Proof.
  unfold do_read. intros Hi.
  split_paths Hi; try discriminate; try congruence; cbn.
  all: try reflexivity.
  all: match goal with
       | Hl : (if ?c then _ else _) = Some _ |- _ =>
           destruct c;
           [apply lazily_resize_header in Hl; exact Hl | congruence]
       end.
Qed.

(** C7 (amended).  A successful insert or delete sets [header.version] to
    its successor modulo 2^32, which is a strict increase by one whenever
    the counter is below [UINT32_MAX]; a read, with the lazy resize it may
    run, leaves the counter; so does an insert or a delete that fails with
    an error other than [ERR_IO]. *)
Theorem version_counter_steps
    (r : request) (f f' : imgfs_file) (e : error_code) :
  perform r f = Some (e, f') ->
  (mutating r = true -> e = ERR_NONE ->
     version (header f') = to_uint32 (version (header f) + 1)
     /\ (0 <= version (header f) < UINT32_MAX ->
         version (header f') = version (header f) + 1
         /\ version (header f) < version (header f')))
  /\ (mutating r = false -> version (header f') = version (header f))
  /\ (e <> ERR_NONE -> e <> ERR_IO -> version (header f') = version (header f)).
Proof.
  intros Hp.
  assert (Hstep : forall v, 0 <= v < UINT32_MAX ->
                     to_uint32 (v + 1) = v + 1 /\ v < to_uint32 (v + 1)).
  { intros v Hv. rewrite to_uint32_small by (unfold UINT32_MAX in *; lia). lia. }
  destruct r as [B id|id|id res]; cbn [perform mutating] in *.
  - split; [|split; [discriminate|]].
    + intros _ ->. pose proof (insert_success_version _ _ _ _ Hp) as Hv.
      split; [exact Hv|]. intros Hb. rewrite Hv. apply Hstep, Hb.
    + intros He Hio. eapply insert_failure_version; eauto.
  - split; [|split; [discriminate|]].
    + intros _ ->. pose proof (delete_success_version _ _ _ Hp) as Hv.
      split; [exact Hv|]. intros Hb. rewrite Hv. apply Hstep, Hb.
    + intros He Hio. eapply delete_failure_version; eauto.
  - apply fmap_Some in Hp as (x & Hx & Hp). injection Hp as -> ->.
    pose proof (read_header _ _ _ _ Hx) as Hh.
    split; [discriminate|]. split; intros; rewrite Hh; reflexivity.
Qed.

End DeleteRead.

(** ** Insertion: examples on a concrete database *)

Section InsertExamples.

(** A blob that is not a JPEG, on a fresh database of capacity 2. *)
Lemma insert_resolution_error_keeps_slot_witness :
  exists f' m m_before,
    do_insert (str "not a jpeg") (str "pic") (Toy.fresh_db 2) = Some (ERR_IMGLIB, f')
    /\ metadata (Toy.fresh_db 2) !! 0%nat = Some m_before /\ is_valid m_before = EMPTY
    /\ metadata f' !! 0%nat = Some m /\ is_valid m = NON_EMPTY
    /\ size m = (0, 0, 0) /\ offset m = (0, 0, 0)
    /\ nb_files (header f') = nb_files (header (Toy.fresh_db 2)) + 1
    /\ version (header f') = version (header (Toy.fresh_db 2))
    /\ file f' = file (Toy.fresh_db 2)
    /\ (forall j, j <> 0%nat -> metadata f' !! j = metadata (Toy.fresh_db 2) !! j).
Proof.
  apply (insert_resolution_error_keeps_slot
           (str "not a jpeg") (str "pic") (Toy.fresh_db 2) 0 ERR_IMGLIB (0, 0)).
  - discriminate.
  - cbn. lia.
  - cbn. unfold UINT32_MAX. lia.
  - reflexivity.
  - reflexivity.
  - discriminate.
Defined.

(** C3, as stated, fails on a full database: the id "pic" is held by the
    valid slot 0, and the insert is refused with [ERR_IMGFS_FULL]. *)
Lemma insert_duplicate_id_on_full_db :
  metadata Toy.full_db !! 0%nat = Some (Toy.slot "pic" Toy.jpg_a 6)
  /\ is_valid (Toy.slot "pic" Toy.jpg_a 6) = NON_EMPTY
  /\ strcmp (img_id (Toy.slot "pic" Toy.jpg_a 6)) (str "pic") = 0
  /\ do_insert Toy.jpg_b (str "pic") Toy.full_db = Some (ERR_IMGFS_FULL, Toy.full_db)
  /\ ERR_IMGFS_FULL <> ERR_DUPLICATE_ID.
Proof. vm_compute. repeat split; discriminate. Qed.

Ltac by_compute :=
  vm_compute; repeat split; solve [reflexivity | discriminate | lia].

(** A second image under the id "pic", on a database that holds "pic". *)
Lemma insert_duplicate_id_reverts_witness :
  exists f',
    do_insert Toy.jpg_b (str "pic") Toy.one_image_db = Some (ERR_DUPLICATE_ID, f')
    /\ header f' = header Toy.one_image_db
    /\ file f' = file Toy.one_image_db
    /\ metadata f' = <[1%nat := zero_metadata]> (metadata Toy.one_image_db)
    /\ (forall i, i <> 1%nat -> metadata f' !! i = metadata Toy.one_image_db !! i)
    /\ (metadata Toy.one_image_db !! 1%nat = Some zero_metadata ->
        metadata f' = metadata Toy.one_image_db).
Proof.
  apply (insert_duplicate_id_reverts Toy.jpg_b (str "pic") Toy.one_image_db 1 0
           (Toy.slot "pic" Toy.jpg_a 8) (600, 800)); by_compute.
Defined.

(** C6: [do_insert] accepts the empty id and an id of 128 bytes; the long
    id is stored cut to 127 bytes. *)
Lemma insert_accepts_empty_and_long_ids :
  (fst <$> do_insert Toy.jpg_a [] (Toy.fresh_db 2)) = Some ERR_NONE
  /\ metadata (Toy.state_after (do_insert Toy.jpg_a [] (Toy.fresh_db 2)) (Toy.fresh_db 2)) !! 0%nat
     = Some (Toy.slot EmptyString Toy.jpg_a 8)
  /\ length Toy.long_id = 128%nat
  /\ (fst <$> do_insert Toy.jpg_a Toy.long_id (Toy.fresh_db 2)) = Some ERR_NONE
  /\ (cstr <$> (img_id <$>
        metadata (Toy.state_after (do_insert Toy.jpg_a Toy.long_id (Toy.fresh_db 2))
                              (Toy.fresh_db 2)) !! 0%nat))
     = Some (replicate 127 "a"%char).
Proof. by_compute. Qed.

(** C7, as stated, fails at the last value of the counter: the insert
    succeeds and the version goes from [UINT32_MAX] to 0. *)
Lemma insert_wraps_version :
  do_insert Toy.jpg_a (str "pic") Toy.last_version_db = Some (ERR_NONE, Toy.wrapped_db)
  /\ version (header Toy.last_version_db) = UINT32_MAX
  /\ version (header Toy.wrapped_db) = 0
  /\ ~ version (header Toy.last_version_db) < version (header Toy.wrapped_db).
Proof. by_compute. Qed.

(** An insert that fails with [ERR_IO] at the last write has already moved
    the counter. *)
Lemma insert_io_failure_moves_version :
  (fst <$> do_insert Toy.jpg_a (str "pic") Toy.failing_write_db) = Some ERR_IO
  /\ version (header Toy.failing_write_db) = 0
  /\ version (header (Toy.state_after (do_insert Toy.jpg_a (str "pic") Toy.failing_write_db)
                                       Toy.failing_write_db)) = 1.
Proof. by_compute. Qed.

(** The first insert into a fresh database takes the version from 0 to 1. *)
Lemma version_counter_steps_witness :
  version (header Toy.one_image_db) = version (header (Toy.fresh_db 2)) + 1
  /\ version (header (Toy.fresh_db 2)) < version (header Toy.one_image_db).
Proof.
  destruct (version_counter_steps (Insert Toy.jpg_a (str "pic")) (Toy.fresh_db 2)
              Toy.one_image_db ERR_NONE) as [Hmut _]; [by_compute|].
  destruct (Hmut eq_refl eq_refl) as [_ Hinc].
  apply Hinc. by_compute.
Defined.

(** C5: after "first" has been deleted, the image "pic" sits at index 1
    while [nb_files] is 1; its thumbnail is not materialized, and the read
    that should create it is refused with [ERR_INVALID_IMGID].  Before the
    deletion the same read succeeds. *)
Lemma read_thumbnail_behind_hole :
  nb_files (header Toy.hole_db) = 1
  /\ find_pos_by_id (metadata Toy.hole_db) (str "pic") 2 0 = Some 1
  /\ (size <$> metadata Toy.hole_db !! 1%nat) = Some (0, 0, 10)
  /\ (rd_err <$> do_read (str "pic") THUMB_RES Toy.hole_db) = Some ERR_INVALID_IMGID
  /\ (rd_err <$> do_read (str "pic") ORIG_RES Toy.hole_db) = Some ERR_NONE
  /\ (rd_err <$> do_read (str "pic") THUMB_RES Toy.two_images_db) = Some ERR_NONE.
Proof. by_compute. Qed.

End InsertExamples.

(** ** The HTTP parser and the router *)

Section HttpFacts.
Import Http.

Lemma cstr_id (t : bytes) : NUL ∉ t -> cstr t = t.
Proof.
  induction t as [|c t IH]; intros Ht; [reflexivity|].
  apply not_elem_of_cons in Ht as [Hc Ht]. cbn [cstr].
  destruct (Ascii.eqb_spec c NUL) as [->|_]; [congruence|]. rewrite IH; auto.
Qed.

Lemma strlen_literal (t : bytes) : NUL ∉ t -> Z.to_nat (strlen t) = length t.
Proof. intros Ht. unfold strlen. rewrite cstr_id by exact Ht. apply Nat2Z.id. Qed.

Lemma uchar_diff (c d : ascii) : c <> d -> uchar c - uchar d <> 0.
Proof. intros Hcd E. apply Hcd, uchar_inj. lia. Qed.

(** Against a literal [t], [strncmp] over the length of [t] is a prefix test. *)
Lemma strncmp_literal (t : bytes) :
  NUL ∉ t -> forall a, strncmp a t (length t) = 0 <-> t `prefix_of` a.
Proof.
  induction t as [|d t IH]; intros Ht a.
  - split; [intros _; apply prefix_nil|reflexivity].
  - apply not_elem_of_cons in Ht as [Hd Ht].
    cbn [length strncmp hd tl]. destruct a as [|c a]; cbn [hd tl].
    + destruct (Ascii.eqb_spec NUL d) as [E|_]; [congruence|].
      split; [intros E; exfalso; revert E; apply uchar_diff; exact Hd|].
      intros Hp. apply prefix_nil_inv in Hp. discriminate.
    + destruct (Ascii.eqb_spec c d) as [->|Hcd].
      * destruct (Ascii.eqb_spec d NUL) as [E|_]; [congruence|].
        rewrite IH by exact Ht. split; [apply prefix_cons|apply prefix_cons_inv_2].
      * split; [intros E; exfalso; revert E; apply uchar_diff; exact Hcd|].
        intros Hp. apply prefix_cons_inv_1 in Hp. congruence.
Qed.

(** Over the first [n] bytes of [a], none of them NUL, [strncmp] compares
    [n] bytes of [a] with at most [n] bytes of the literal. *)
Lemma strncmp_bounded (n : nat) :
  forall a t, (n <= length a)%nat -> NUL ∉ take n a -> NUL ∉ t ->
    strncmp a t n = 0 <-> take n a = take n t.
Proof.
  induction n as [|n IH]; intros a t Hn Ha Ht; [split; reflexivity|].
  destruct a as [|c a]; [cbn [length] in Hn; lia|].
  cbn [take] in Ha. apply not_elem_of_cons in Ha as [Hc Ha].
  cbn [length] in Hn. cbn [strncmp hd tl take].
  destruct t as [|d t]; cbn [hd tl take].
  - destruct (Ascii.eqb_spec c NUL) as [E|_]; [congruence|].
    split; [intros E; exfalso; revert E; apply uchar_diff; congruence|discriminate].
  - apply not_elem_of_cons in Ht as [Hd Ht].
    destruct (Ascii.eqb_spec c d) as [->|Hcd].
    + destruct (Ascii.eqb_spec d NUL) as [E|_]; [congruence|].
      rewrite IH by (auto; lia). split; [congruence|]. intros E. congruence.
    + split; [intros E; exfalso; revert E; apply uchar_diff; exact Hcd|congruence].
Qed.

Lemma match_uri_spec (msg : http_message) (t : bytes) :
  NUL ∉ t -> http_match_uri msg t = true <-> t `prefix_of` val (uri msg).
Proof.
  intros Ht. unfold http_match_uri. rewrite strlen_literal by exact Ht.
  rewrite Z.eqb_eq. apply strncmp_literal. exact Ht.
Qed.

Lemma prefix_take_iff (t a : bytes) : t `prefix_of` a <-> take (length t) a = t.
Proof.
  split.
  - intros [k ->]. apply take_app_length.
  - intros <-. apply prefix_take.
Qed.

(** A route path contains no space: it is a prefix of the bytes at the URI
    pointer exactly when it is a prefix of the URI. *)
Lemma prefix_of_token (s : http_string) (t : bytes) :
  delimited s -> " "%char ∉ t ->
  t `prefix_of` val s <-> t `prefix_of` text s.
Proof.
  unfold delimited, text. intros Hs Ht. split.
  - intros [k Hk]. destruct (decide (length t <= len s)%nat) as [Hle|Hgt].
    + rewrite Hk, take_app_ge by exact Hle. eexists; reflexivity.
    + exfalso. apply Ht. rewrite Hk, lookup_app_l in Hs by lia.
      eapply list_elem_of_lookup_2; eauto.
  - intros Hp. etrans; [exact Hp|apply prefix_take].
Qed.

Lemma match_verb_spec (s : http_string) (t : bytes) :
  NUL ∉ t -> delimited s -> http_match_verb s t = true <-> text s = t.
Proof.
  unfold delimited, text, http_match_verb, strlen. intros Ht Hs.
  apply lookup_lt_Some in Hs. rewrite cstr_id by exact Ht.
  rewrite andb_true_iff, !Z.eqb_eq. split.
  - intros [Hl Hc]. apply Nat2Z.inj in Hl. rewrite Hl in *.
    apply strncmp_literal in Hc; [|exact Ht]. apply prefix_take_iff. exact Hc.
  - intros Htx.
    assert (Hl : len s = length t).
    { rewrite <- Htx, length_take. lia. }
    split; [lia|]. rewrite Hl. apply strncmp_literal; [exact Ht|].
    apply prefix_take_iff. rewrite <- Hl. exact Htx.
Qed.

(** The tokens [get_next_token] cuts at a space are followed by it. *)
Lemma strstr_char (c : ascii) :
  c <> NUL -> forall s d, strstr s [c] = Some d -> s !! d = Some c.
Proof.
  intros Hc. induction s as [|e s IH]; intros d Hd.
  - cbn in Hd. destruct (Ascii.eqb_spec c NUL); [congruence|discriminate].
  - cbn [strstr starts_with] in Hd.
    destruct (Ascii.eqb_spec c NUL) as [E|_]; [congruence|].
    destruct (Ascii.eqb_spec c e) as [->|Hce]; cbn [andb] in Hd.
    + injection Hd as <-. reflexivity.
    + destruct (Ascii.eqb e NUL); [discriminate|].
      apply fmap_Some in Hd as (d' & Hd' & ->). cbn. apply IH. exact Hd'.
Qed.

Lemma get_next_token_delimited (stream : bytes) (p q : nat) (s : http_string) :
  get_next_token stream p (str " ") = Some (s, q) -> delimited s.
Proof.
  unfold get_next_token. intros Hg.
  destruct (strstr (drop p stream) (str " ")) as [d|] eqn:Hd; [|discriminate].
  injection Hg as <- _. unfold delimited. cbn [val len].
  apply (strstr_char " "%char); [discriminate|exact Hd].
Qed.

Lemma parse_delimited (stream : bytes) (n : Z) (out msg : http_message) (cl clen : Z) :
  http_parse_message stream n out cl = (1, msg, clen) ->
  delimited (method msg) /\ delimited (uri msg).
Proof.
  unfold http_parse_message. intros Hp.
  split_paths Hp; try discriminate.
  all: cbn [method uri]; split; eapply get_next_token_delimited; eauto.
Qed.

End HttpFacts.

Ltac not_in_literal :=
  vm_compute; intros Hin;
  repeat (apply elem_of_cons in Hin as [Hin|Hin]; [discriminate|]);
  apply elem_of_nil in Hin; exact Hin.

Section Router.
Import Http.

(** C9 (amended).  For a parsed request the router replies with
    [ERR_INVALID_COMMAND], calling no handler of the engine, exactly when
    the URI is neither [/] nor [/index.html], begins with none of
    [/imgfs/list], [/imgfs/read], [/imgfs/delete], and does not both begin
    with [/imgfs/insert] and come with the method [POST].  A URI that
    begins with a route path and goes on is handled as that route. *)
Theorem router_invalid_command
    (stream : bytes) (n : Z) (out msg : http_message) (cl clen : Z) :
  http_parse_message stream n out cl = (1, msg, clen) ->
  handle_http_message msg = ReplyErrorMsg ERR_INVALID_COMMAND
  <-> text (uri msg) <> str "/"
      /\ text (uri msg) <> str "/index.html"
      /\ ~ str "/imgfs/list" `prefix_of` text (uri msg)
      /\ ~ str "/imgfs/read" `prefix_of` text (uri msg)
      /\ ~ str "/imgfs/delete" `prefix_of` text (uri msg)
      /\ ~ (str "/imgfs/insert" `prefix_of` text (uri msg)
            /\ text (method msg) = str "POST").
Proof.
  intros Hp. apply parse_delimited in Hp as [Hm Hu].
  unfold handle_http_message.
  change (str (URI_ROOT ++ "/list")) with (str "/imgfs/list").
  change (str (URI_ROOT ++ "/read")) with (str "/imgfs/read").
  change (str (URI_ROOT ++ "/delete")) with (str "/imgfs/delete").
  change (str (URI_ROOT ++ "/insert")) with (str "/imgfs/insert").
  pose proof (match_verb_spec (uri msg) (str "/") ltac:(not_in_literal) Hu) as V1.
  pose proof (match_verb_spec (uri msg) (str "/index.html") ltac:(not_in_literal) Hu) as V2.
  pose proof (match_verb_spec (method msg) (str "POST") ltac:(not_in_literal) Hm) as V3.
  pose proof (match_uri_spec msg (str "/imgfs/list") ltac:(not_in_literal)) as U1.
  pose proof (match_uri_spec msg (str "/imgfs/read") ltac:(not_in_literal)) as U2.
  pose proof (match_uri_spec msg (str "/imgfs/delete") ltac:(not_in_literal)) as U3.
  pose proof (match_uri_spec msg (str "/imgfs/insert") ltac:(not_in_literal)) as U4.
  rewrite (prefix_of_token _ (str "/imgfs/list") Hu ltac:(not_in_literal)) in U1.
  rewrite (prefix_of_token _ (str "/imgfs/read") Hu ltac:(not_in_literal)) in U2.
  rewrite (prefix_of_token _ (str "/imgfs/delete") Hu ltac:(not_in_literal)) in U3.
  rewrite (prefix_of_token _ (str "/imgfs/insert") Hu ltac:(not_in_literal)) in U4.
  destruct (http_match_verb (uri msg) (str "/"));
    destruct (http_match_verb (uri msg) (str "/index.html"));
    destruct (http_match_uri msg (str "/imgfs/list"));
    destruct (http_match_uri msg (str "/imgfs/read"));
    destruct (http_match_uri msg (str "/imgfs/delete"));
    destruct (http_match_uri msg (str "/imgfs/insert"));
    destruct (http_match_verb (method msg) (str "POST"));
    cbn [orb andb]; (split; [discriminate || intros _|intros HH]);
    intuition congruence.
Qed.

(** The request [GET /imgfs/nothing] is answered with [ERR_INVALID_COMMAND]. *)
Lemma router_invalid_command_witness :
  handle_http_message (parse request_unknown).1.2 = ReplyErrorMsg ERR_INVALID_COMMAND.
Proof.
  apply (router_invalid_command (str request_unknown)
           (Z.of_nat (String.length request_unknown)) empty_message
           (parse request_unknown).1.2 0 0); [reflexivity|].
  repeat split; try discriminate.
  all: vm_compute; intros Hx;
    first [destruct Hx as [k Hx]; discriminate
          |destruct Hx as [[k Hx] _]; discriminate].
Defined.

(** C9, as stated, fails: the URI [/imgfs/listXYZ] is none of the route
    paths, and the router calls the list handler. *)
Lemma router_dispatches_route_prefix :
  (parse request_list_xyz).1.1 = 1
  /\ text (uri (parse request_list_xyz).1.2) = str "/imgfs/listXYZ"
  /\ str "/imgfs/listXYZ" <> str "/imgfs/list"
  /\ handle_http_message (parse request_list_xyz).1.2 = HandleListCall
  /\ HandleListCall <> ReplyErrorMsg ERR_INVALID_COMMAND.
Proof. vm_compute. repeat split; discriminate. Qed.

(** The model on the requests of [tests/test-parse.c], with the results
    the test expects: incomplete headers, complete without body,
    incomplete body, complete body. *)
Lemma test_http_parse_message :
  (parse test1).1.1 = 0 /\ (parse test2).1.1 = 1
  /\ (parse test3).1.1 = 0 /\ (parse test4).1.1 = 1
  /\ (parse test4).2 = 10 /\ text (body (parse test4).1.2) = str "0123456789".
Proof. vm_compute. repeat split. Qed.

(** C8: in this request the only header has the key [Content]; the parser
    takes the content length 5 from it and cuts a body of 5 bytes. *)
Lemma content_length_from_key_prefix :
  (parse request_content_prefix).1.1 = 1
  /\ map (fun h => text (key h)) (headers (parse request_content_prefix).1.2)
     = [str "Content"]
  /\ (parse request_content_prefix).2 = 5
  /\ text (body (parse request_content_prefix).1.2) = str "hello".
Proof. vm_compute. repeat split. Qed.

(** The test that selects the header: the key has to be a prefix of the
    literal, not the literal. *)
Lemma content_length_key_test (h : http_header) :
  (len (key h) <= length (val (key h)))%nat ->
  NUL ∉ text (key h) ->
  strncmp (val (key h)) (str "Content-Length") (len (key h)) = 0
  <-> text (key h) `prefix_of` str "Content-Length".
Proof.
  intros Hl Hn. unfold text in *.
  rewrite strncmp_bounded; [|exact Hl|exact Hn|not_in_literal].
  split.
  - intros ->. apply prefix_take.
  - intros Hp. apply prefix_take_iff in Hp.
    rewrite length_take, Nat.min_l in Hp by exact Hl. congruence.
Qed.

End Router.

(** ** The stream without faults *)

Section StdioFacts.

Lemma fseek_set_ok (d : bytes) (p off : Z) :
  0 <= off -> fseek (mkFILE d p []) off SEEK_SET = (0, mkFILE d off []).
Proof.
  intros Hoff. unfold fseek, next_fault. cbn.
  replace (off <? 0) with false by (symmetry; apply Z.ltb_ge; lia). reflexivity.
Qed.

Lemma fseek_end_ok (d : bytes) (p : Z) :
  fseek (mkFILE d p []) 0 SEEK_END = (0, mkFILE d (Z.of_nat (length d)) []).
Proof.
  unfold fseek, next_fault, flen. cbn [faults contents fpos orb].
  rewrite Z.add_0_r.
  replace (Z.of_nat (length d) <? 0) with false by (symmetry; apply Z.ltb_ge; lia).
  reflexivity.
Qed.

Lemma ftell_ok (d : bytes) (p : Z) : ftell (mkFILE d p []) = (p, mkFILE d p []).
Proof. reflexivity. Qed.

Lemma fwrite_ok (buf d : bytes) (p : Z) :
  buf <> [] ->
  fwrite buf (mkFILE d p [])
  = (1, mkFILE (write_at d (Z.to_nat p) buf) (p + Z.of_nat (length buf)) []).
Proof.
  intros Hb. unfold fwrite, next_fault. cbn [faults contents fpos orb].
  rewrite length_nonempty by exact Hb. reflexivity.
Qed.

Lemma fread_ok (d : bytes) (p sz : Z) :
  0 <= p -> 0 < sz -> p + sz <= Z.of_nat (length d) ->
  fread sz (mkFILE d p [])
  = (1, take (Z.to_nat sz) (drop (Z.to_nat p) d), mkFILE d (p + sz) []).
Proof.
  intros Hp Hsz Hend. unfold fread, next_fault, flen. cbn [faults contents fpos orb].
  replace (sz =? 0) with false by (symmetry; apply Z.eqb_neq; lia).
  replace (0 <=? p) with true by (symmetry; apply Z.leb_le; lia).
  replace (p + sz <=? Z.of_nat (length d)) with true by (symmetry; apply Z.leb_le; lia).
  reflexivity.
Qed.

(** Writing at the end of the file appends. *)
Lemma write_at_end (d buf : bytes) : write_at d (length d) buf = d ++ buf.
Proof.
  unfold write_at. rewrite take_ge, Nat.sub_diag, drop_ge by lia.
  cbn [replicate app]. rewrite app_nil_r. reflexivity.
Qed.

(** Writing inside the first [P] bytes keeps the length of the file and
    every byte from [P] on. *)
Lemma write_at_inside (d buf : bytes) (p P : nat) :
  (p + length buf <= P)%nat -> (P <= length d)%nat ->
  length (write_at d p buf) = length d /\ drop P (write_at d p buf) = drop P d.
Proof.
  intros Hp HP. unfold write_at.
  replace (p - length d)%nat with 0%nat by lia. cbn [replicate app].
  split.
  - rewrite !length_app, length_take, length_drop. lia.
  - rewrite drop_app_ge by (rewrite length_take; lia).
    rewrite length_take, Nat.min_l by lia.
    rewrite drop_app_ge by lia. rewrite drop_drop. f_equal. lia.
Qed.

(** Bytes after the prefix that stay in place when the file grows. *)
Lemma blob_frame (d d1 : bytes) (P off sz : nat) :
  drop P d `prefix_of` drop P d1 ->
  (P <= off)%nat -> (off + sz <= length d)%nat ->
  take sz (drop off d1) = take sz (drop off d).
Proof.
  intros [extra He] HP Hend.
  replace off with (P + (off - P))%nat by lia.
  rewrite <- !drop_drop, He.
  rewrite drop_app_le by (rewrite length_drop; lia).
  apply take_app_le. rewrite !length_drop. lia.
Qed.

End StdioFacts.

(** ** Deduplication without a name clash *)

Section DedupOk.

Lemma dedup_loop_ok (index n : nat) :
  forall (i : nat) (md : list img_metadata) (t : img_metadata),
    md !! index = Some t ->
    (i + n <= length md)%nat ->
    (forall j mj, (i <= j < i + n)%nat -> j <> index -> md !! j = Some mj ->
       is_valid mj <> 0 -> strcmp (img_id mj) (img_id t) <> 0) ->
    exists t',
      dedup_loop index n i md = Some (ERR_NONE, <[index := t']> md)
      /\ dedup_outcome md index i (i + n) t t'.
Proof.
  induction n as [|n IH]; intros i md t Ht Hlen Hfresh.
  - exists t. cbn [dedup_loop]. rewrite list_insert_id by exact Ht.
    split; [reflexivity|]. repeat split. right. split; [intros; lia|auto].
  - cbn [dedup_loop]. case_bool_decide as Hi.
    + destruct (IH (S i) md t Ht) as (t' & Hl & Hid & Hsha & Hres & Hv & Hcase);
        [lia|intros; eapply Hfresh; eauto; lia|].
      exists t'. split; [exact Hl|]. repeat split; auto.
      destruct Hcase as [(j & mj & Hj & Hrest)|(Hno & Hoff)].
      * left. exists j, mj. split; [lia|exact Hrest].
      * right. split; [|exact Hoff]. intros j mj Hj Hji Hmj Hvj.
        apply (Hno j mj); auto. lia.
    + destruct (md !! i) as [mi|] eqn:Hmi; [|apply lookup_ge_None in Hmi; lia].
      cbn [mbind option_bind].
      destruct (is_valid mi =? 0) eqn:Hvi.
      * apply Z.eqb_eq in Hvi.
        destruct (IH (S i) md t Ht) as (t' & Hl & Hid & Hsha & Hres & Hv & Hcase);
          [lia|intros; eapply Hfresh; eauto; lia|].
        exists t'. split; [exact Hl|]. repeat split; auto.
        destruct Hcase as [(j & mj & Hj & Hrest)|(Hno & Hoff)].
        -- left. exists j, mj. split; [lia|exact Hrest].
        -- right. split; [|exact Hoff]. intros j mj Hj Hji Hmj Hvj.
           destruct (decide (j = i)) as [->|Hne]; [congruence|].
           apply (Hno j mj); auto. lia.
      * apply Z.eqb_neq in Hvi. rewrite Ht. cbn [mbind option_bind].
        replace (strcmp (img_id mi) (img_id t) =? 0) with false
          by (symmetry; apply Z.eqb_neq; apply (Hfresh i mi); auto; lia).
        destruct (memcmp (SHA mi) (SHA t) SHA256_DIGEST_LENGTH =? 0) eqn:Hm.
        -- apply Z.eqb_eq in Hm.
           assert (Hidx : (index < length md)%nat) by (eapply lookup_lt_Some; eauto).
           destruct (IH (S i) (<[index := copy_res mi t]> md) (copy_res mi t))
             as (t' & Hl & Hid & Hsha & Hres & Hv & Hcase).
           { apply list_lookup_insert_eq. exact Hidx. }
           { rewrite length_insert. lia. }
           { intros j mj Hj Hji Hmj Hvj. rewrite list_lookup_insert_ne in Hmj by auto.
             rewrite copy_res_eq. cbn [img_id]. apply (Hfresh j mj); auto. lia. }
           rewrite list_insert_insert_eq in Hl.
           rewrite copy_res_eq in Hid, Hsha, Hres, Hv, Hcase.
           cbn [img_id SHA orig_res is_valid offset size] in Hid, Hsha, Hres, Hv, Hcase.
           exists t'. split; [exact Hl|]. repeat split; auto.
           left. destruct Hcase as [(j & mj & Hj & Hji & Hmj & Hrest)|(_ & Ho & Hs)].
           ++ rewrite list_lookup_insert_ne in Hmj by auto.
              exists j, mj. split; [lia|]. auto.
           ++ exists i, mi. split; [lia|]. auto 10.
        -- apply Z.eqb_neq in Hm.
           destruct (IH (S i) md t Ht) as (t' & Hl & Hid & Hsha & Hres & Hv & Hcase);
             [lia|intros; eapply Hfresh; eauto; lia|].
           exists t'. split; [exact Hl|]. repeat split; auto.
           destruct Hcase as [(j & mj & Hj & Hrest)|(Hno & Hoff)].
           ++ left. exists j, mj. split; [lia|exact Hrest].
           ++ right. split; [|exact Hoff]. intros j mj Hj Hji Hmj Hvj.
              destruct (decide (j = i)) as [->|Hne]; [congruence|].
              apply (Hno j mj); auto. lia.
Qed.

Lemma dedup_ok (f : imgfs_file) (k : nat) (t : img_metadata) :
  (k < Z.to_nat (max_files (header f)))%nat ->
  (Z.to_nat (max_files (header f)) <= length (metadata f))%nat ->
  metadata f !! k = Some t -> is_valid t <> 0 ->
  (forall j mj, j <> k -> metadata f !! j = Some mj ->
     is_valid mj <> 0 -> strcmp (img_id mj) (img_id t) <> 0) ->
  exists t',
    do_name_and_content_dedup f (Z.of_nat k)
    = Some (ERR_NONE, mk_imgfs_file (file f) (header f) (<[k := t']> (metadata f)))
    /\ dedup_outcome (metadata f) k 0 (Z.to_nat (max_files (header f)))
         (set_offset t ORIG_RES 0) t'.
Proof.
  intros Hk Hlen Ht Hv Hfresh. unfold do_name_and_content_dedup.
  replace (max_files (header f) <=? Z.of_nat k) with false
    by (symmetry; apply Z.leb_gt; lia).
  rewrite (tbl_get_Some _ _ t) by (rewrite ?Nat2Z.id; auto; lia).
  cbn [mbind option_bind].
  replace (is_valid t =? 0) with false by (symmetry; apply Z.eqb_neq; exact Hv).
  rewrite Nat2Z.id.
  assert (Hklt : (k < length (metadata f))%nat) by lia.
  destruct (dedup_loop_ok k (Z.to_nat (max_files (header f))) 0
              (<[k := set_offset t ORIG_RES 0]> (metadata f)) (set_offset t ORIG_RES 0))
    as (t' & Hl & Hid & Hsha & Hres & Hvt & Hcase).
  { apply list_lookup_insert_eq. exact Hklt. }
  { rewrite length_insert. lia. }
  { intros j mj _ Hjk Hmj Hvj. rewrite list_lookup_insert_ne in Hmj by auto.
    apply (Hfresh j mj); auto. }
  rewrite Hl. cbn [mbind option_bind]. rewrite list_insert_insert_eq.
  exists t'. split; [reflexivity|]. repeat split; auto.
  destruct Hcase as [(j & mj & Hj & Hjk & Hmj & Hrest)|(Hno & Hoff)].
  - left. rewrite list_lookup_insert_ne in Hmj by auto. exists j, mj. auto.
  - right. split; [|exact Hoff]. intros j mj Hj Hjk Hmj Hvj.
    apply (Hno j mj); auto. rewrite list_lookup_insert_ne by auto. exact Hmj.
Qed.

End DedupOk.

(** ** The round trip of an image *)

Section InsertFresh.
Context `{ImgLib} `{Layout}.

Lemma first_free_exists (md : list img_metadata) (n : nat) :
  forall i j mj, (i + n <= length md)%nat -> (i <= j < i + n)%nat ->
    md !! j = Some mj -> is_valid mj = EMPTY ->
    exists k, first_free md n i = Some (Z.of_nat k).
Proof.
  induction n as [|n IH]; intros i j mj Hlen Hj Hmj Hv; [lia|].
  cbn [first_free].
  destruct (md !! i) as [mi|] eqn:Hmi; [|apply lookup_ge_None in Hmi; lia].
  cbn [mbind option_bind].
  destruct (is_valid mi =? EMPTY) eqn:Hvi; [eauto|].
  apply Z.eqb_neq in Hvi.
  assert (j <> i) by (intros ->; congruence).
  apply (IH (S i) j mj); auto; lia.
Qed.

Lemma to_uint64_small (z : Z) : 0 <= z < 2 ^ 63 -> to_uint64 z = z.
Proof. intros Hz. unfold to_uint64. apply Z.mod_small. lia. Qed.

Lemma to_long_small (z : Z) : 0 <= z < 2 ^ 63 -> to_long z = z.
Proof.
  intros Hz. unfold to_long. rewrite Z.mod_small by lia.
  replace (z <? 2 ^ 63) with true by (symmetry; apply Z.ltb_lt; lia). reflexivity.
Qed.

Lemma fseek_set_ok' (fl : FILE) (off : Z) :
  faults fl = [] -> 0 <= off -> fseek fl off SEEK_SET = (0, mkFILE (contents fl) off []).
Proof. destruct fl as [d p fs]. cbn. intros ->. apply fseek_set_ok. Qed.

Lemma fseek_end_ok' (fl : FILE) :
  faults fl = [] -> fseek fl 0 SEEK_END = (0, mkFILE (contents fl) (flen fl) []).
Proof. destruct fl as [d p fs]. cbn. intros ->. apply fseek_end_ok. Qed.

Lemma persist_frame (d0 hdr mdb : bytes) (slot P : nat) :
  (length hdr <= P)%nat -> (slot + length mdb <= P)%nat -> (P <= length d0)%nat ->
  length (write_at (write_at d0 0 hdr) slot mdb) = length d0
  /\ drop P (write_at (write_at d0 0 hdr) slot mdb) = drop P d0.
Proof.
  intros Hh Hm HP.
  destruct (write_at_inside d0 hdr 0 P) as [L1 D1]; [lia|lia|].
  destruct (write_at_inside (write_at d0 0 hdr) mdb slot P) as [L2 D2]; [lia|lia|].
  split; congruence.
Qed.

Lemma blob_at_frame (fl fl1 : FILE) (P off sz : Z) :
  0 <= P <= off -> 0 <= sz -> off + sz <= flen fl ->
  drop (Z.to_nat P) (contents fl) `prefix_of` drop (Z.to_nat P) (contents fl1) ->
  blob_at fl1 off sz = blob_at fl off sz.
Proof.
  intros HP Hsz Hend Hpre. unfold blob_at, flen in *.
  apply (blob_frame _ _ (Z.to_nat P)); [exact Hpre|lia|lia].
Qed.

Lemma orig_offset_set_offset (m : img_metadata) (v : Z) :
  orig_offset (set_offset m ORIG_RES v) = v.
Proof. destruct m as [? ? ? ? [[a b] c] ?]. reflexivity. Qed.

Lemma orig_offset_set_size (m : img_metadata) (r v : Z) :
  orig_offset (set_size m r v) = orig_offset m.
Proof. reflexivity. Qed.

Lemma orig_size_set_size (m : img_metadata) (v : Z) :
  orig_size (set_size m ORIG_RES v) = v.
Proof. destruct m as [? ? ? [[a b] c] ? ?]. reflexivity. Qed.

Lemma insert_fresh (B id : bytes) (f : imgfs_file) (i0 : nat) (hw : Z * Z) :
  well_formed f ->
  B <> [] -> Z.of_nat (length B) <= UINT32_MAX ->
  get_resolution B = (ERR_NONE, hw) ->
  nb_files (header f) < max_files (header f) ->
  free_slot f i0 ->
  flen (file f) + Z.of_nat (length B) < 2 ^ 63 ->
  (length (cstr id) <= MAX_IMG_ID)%nat ->
  fresh_id f id ->
  dedup_sound f B ->
  exists k m f1, do_insert B id f = Some (ERR_NONE, f1) /\ inserted f B id k m f1.
Proof.
  intros [Hfaults Hmax Hnb0 Htable Hprefix] HB HBmax Hres Hnb (Hi0 & mi0 & Hmi0 & Hvi0)
         Hflen Hid Hfresh Hsound.
  destruct (first_free_exists (metadata f) (Z.to_nat (max_files (header f))) 0 i0 mi0)
    as [k Hfree]; [lia|lia|exact Hmi0|exact Hvi0|].
  exists k.
  assert (Hnb' : 0 <= nb_files (header f) < max_files (header f)) by lia.
  insert_prefix f k HB Hnb' Hmax Hfree.
  rewrite Hres. destruct hw as [height width].
  rewrite bool_decide_eq_false_2 by (intros E; apply E; reflexivity).
  assert (Hklt : (k < length (metadata f))%nat) by (eapply lookup_lt_Some; eauto).
  change (<[MAX_IMG_ID:=NUL]> (strncpy (img_id (set_SHA zero_metadata (SHA256 B))) id MAX_IMG_ID))
    with (stored_id id).
  set (m4 := set_orig_res _ _).
  set (h1 := set_nb_files _ _).
  destruct (dedup_ok (mk_imgfs_file (file f) h1 (<[k := m4]> (metadata f))) k m4)
    as (t' & Hd & Hid' & Hsha' & Hres' & Hv' & Hcase).
  { cbn. lia. }
  { cbn. rewrite length_insert. lia. }
  { cbn. apply list_lookup_insert_eq. exact Hklt. }
  { discriminate. }
  { cbn [metadata]. intros j mj Hjk Hmj Hvj. rewrite list_lookup_insert_ne in Hmj by auto.
    cbn [img_id m4 set_orig_res set_is_valid set_img_id].
    intros E. apply (Hfresh j mj Hmj Hvj).
    apply strcmp_0_iff. apply strcmp_0_iff in E.
    rewrite E, cstr_stored_id, take_ge by exact Hid. reflexivity. }
  rewrite Hd. cbn [mbind option_bind metadata file header].
  rewrite bool_decide_eq_false_2 by (intros E; apply E; reflexivity).
  rewrite list_insert_insert_eq, list_lookup_insert_eq by exact Hklt.
  cbn [mbind option_bind].
  clear Hd.
  assert (Hoff0 : offset (set_offset m4 ORIG_RES 0) = (0, 0, 0)) by reflexivity.
  assert (Hsz0 : size (set_offset m4 ORIG_RES 0) = (0, 0, 0)) by reflexivity.
  cbn [img_id SHA is_valid set_offset m4 set_orig_res set_is_valid set_img_id set_SHA]
    in Hid', Hsha', Hv'.
  cbn [metadata header file max_files h1 set_nb_files] in Hcase.
  rewrite Hoff0, Hsz0 in Hcase. clear Hoff0 Hsz0 Hres'.
  cbn [SHA set_offset m4 set_orig_res set_is_valid set_img_id set_SHA] in Hcase.
  pose proof sizeof_imgfs_header_pos as Hsh.
  pose proof sizeof_img_metadata_pos as Hsm.
  assert (HP : sizeof_imgfs_header + Z.of_nat k * sizeof_img_metadata + sizeof_img_metadata
               <= prefix_size f).
  { unfold prefix_size. nia. }
  assert (Hhdr : forall h, encode_header h <> []).
  { intros h E. pose proof (encode_header_length h) as L. rewrite E in L. cbn in L. lia. }
  assert (Hmdb : forall m, encode_metadata m <> []).
  { intros m E. pose proof (encode_metadata_length m) as L. rewrite E in L. cbn in L. lia. }
  assert (HP0 : 0 <= prefix_size f) by (unfold prefix_size; nia).
  assert (Hnbs : to_uint32 (nb_files (header f) + 1) = nb_files (header f) + 1)
    by (apply to_uint32_small; lia).
  destruct (file f) as [d p fs] eqn:Hfile. cbn [faults] in Hfaults. subst fs.
  unfold flen in Hprefix, Hflen. cbn [contents] in Hprefix, Hflen.
  change (default 0 (get3 (offset t') ORIG_RES)) with (orig_offset t').
  destruct (orig_offset t' =? 0) eqn:Hzero.
  - (* the blob is appended *)
    rewrite fseek_end_ok. cbn [negb Z.eqb].
    rewrite ftell_ok.
    replace (Z.of_nat (length d) =? -1) with false by (symmetry; apply Z.eqb_neq; lia).
    rewrite fwrite_ok by exact HB. cbn [negb Z.eqb Pos.eqb].
    rewrite Nat2Z.id, write_at_end.
    rewrite fseek_set_ok by lia. cbn [negb Z.eqb].
    rewrite fwrite_ok by apply Hhdr. cbn [negb Z.eqb Pos.eqb].
    rewrite to_long_small by lia.
    rewrite fseek_set_ok by lia. cbn [negb Z.eqb].
    rewrite fwrite_ok by apply Hmdb. cbn [negb Z.eqb Pos.eqb].
    rewrite to_uint64_small by lia. rewrite (to_uint32_small (Z.of_nat (length B))) by lia.
    rewrite list_insert_insert_eq.
    destruct (persist_frame (d ++ B)
                (encode_header (set_version h1 (to_uint32 (version h1 + 1))))
                (encode_metadata
                   (set_size (set_offset t' ORIG_RES (Z.of_nat (length d))) ORIG_RES
                      (Z.of_nat (length B))))
                (Z.to_nat (sizeof_imgfs_header + Z.of_nat k * sizeof_img_metadata))
                (Z.to_nat (prefix_size f))) as [HL HD].
    { pose proof (encode_header_length (set_version h1 (to_uint32 (version h1 + 1)))).
      unfold prefix_size in *. nia. }
    { pose proof (encode_metadata_length
                    (set_size (set_offset t' ORIG_RES (Z.of_nat (length d))) ORIG_RES
                       (Z.of_nat (length B)))). lia. }
    { rewrite length_app. lia. }
    change (Z.to_nat 0) with 0%nat.
    eexists _, _. split; [reflexivity|].
    constructor; cbn [header metadata file faults contents].
    + exact Hfree.
    + subst h1. rewrite Hnbs. reflexivity.
    + reflexivity.
    + reflexivity.
    + exact Hid'.
    + exact Hsha'.
    + exact Hv'.
    + unfold stores, blob_at, flen, prefix_size in *.
      cbn [header file contents max_files set_version set_nb_files h1].
      rewrite orig_offset_set_size, orig_offset_set_offset, orig_size_set_size.
      rewrite HL, length_app.
      split; [lia|]. split; [lia|]. split; [reflexivity|].
      rewrite (blob_frame (d ++ B) _ (Z.to_nat (sizeof_imgfs_header
                 + max_files (header f) * sizeof_img_metadata)));
        [|rewrite HD; reflexivity|lia|rewrite length_app; lia].
      rewrite !Nat2Z.id, drop_app_length. apply take_ge. lia.
    + rewrite HD, Hfile. cbn [contents]. rewrite drop_app_le by lia.
      eexists; reflexivity.
    + right. unfold appended, flen. rewrite Hfile. cbn [file contents].
      rewrite orig_offset_set_size, orig_offset_set_offset, HL, length_app.
      split; [lia|]. split; [reflexivity|].
      apply Z.eqb_eq in Hzero.
      destruct Hcase as [(j & mj & _ & Hjk & Hmj & Hvj & Hsame & Ho & Hs)|(Hno & _)].
      * right. rewrite list_lookup_insert_ne in Hmj by auto.
        exists j, mj. repeat split; auto.
        unfold orig_offset in *. rewrite <- Ho. exact Hzero.
      * left. intros j mj Hjk Hmj Hvj Hsame.
        apply (Hno j mj); auto.
        -- apply lookup_lt_Some in Hmj. lia.
        -- rewrite list_lookup_insert_ne by auto. exact Hmj.
  - (* the blob is shared with an existing slot *)
    apply Z.eqb_neq in Hzero.
    destruct Hcase as [(j & mj & _ & Hjk & Hmj & Hvj & Hsame & Ho & Hs)|(_ & Ho & _)];
      [|exfalso; apply Hzero; unfold orig_offset; rewrite Ho; reflexivity].
    rewrite list_lookup_insert_ne in Hmj by auto.
    assert (Hoj : orig_offset t' = orig_offset mj) by (unfold orig_offset; rewrite Ho; reflexivity).
    assert (Hsj : orig_size t' = orig_size mj) by (unfold orig_size; rewrite Hs; reflexivity).
    destruct (Hsound j mj Hmj Hvj Hsame) as (Hs1 & Hs2 & Hs3 & Hs4); [congruence|].
    rewrite Hfile in Hs2, Hs4. unfold flen in Hs2. cbn [contents] in Hs2.
    rewrite fseek_set_ok by lia. cbn [negb Z.eqb].
    rewrite fwrite_ok by apply Hhdr. cbn [negb Z.eqb Pos.eqb].
    rewrite to_long_small by lia.
    rewrite fseek_set_ok by lia. cbn [negb Z.eqb].
    rewrite fwrite_ok by apply Hmdb. cbn [negb Z.eqb Pos.eqb].
    rewrite list_insert_insert_eq.
    destruct (persist_frame d
                (encode_header (set_version h1 (to_uint32 (version h1 + 1))))
                (encode_metadata t')
                (Z.to_nat (sizeof_imgfs_header + Z.of_nat k * sizeof_img_metadata))
                (Z.to_nat (prefix_size f))) as [HL HD].
    { pose proof (encode_header_length (set_version h1 (to_uint32 (version h1 + 1)))).
      unfold prefix_size in *. nia. }
    { pose proof (encode_metadata_length t'). lia. }
    { lia. }
    change (Z.to_nat 0) with 0%nat.
    eexists _, _. split; [reflexivity|].
    constructor; cbn [header metadata file faults contents].
    + exact Hfree.
    + subst h1. rewrite Hnbs. reflexivity.
    + reflexivity.
    + reflexivity.
    + exact Hid'.
    + exact Hsha'.
    + exact Hv'.
    + unfold stores. rewrite Hoj, Hsj.
      assert (Hps : forall fl md, prefix_size (mk_imgfs_file fl
                       (set_version h1 (to_uint32 (version h1 + 1))) md) = prefix_size f)
        by reflexivity.
      rewrite Hps. unfold flen. cbn [file contents]. rewrite HL.
      split; [exact Hs1|]. split; [exact Hs2|]. split; [exact Hs3|].
      rewrite <- Hs4. apply (blob_at_frame _ _ (prefix_size f)).
      * lia.
      * rewrite Hs3. lia.
      * unfold flen. cbn [contents]. exact Hs2.
      * cbn [contents]. rewrite HD. reflexivity.
    + rewrite HD, Hfile. reflexivity.
    + left. exists j, mj. unfold flen. rewrite Hfile. cbn [file contents].
      rewrite HL. repeat split; auto. congruence.
Qed.

(** *** Reading an original back *)

Lemma find_pos_by_id_found (md : list img_metadata) (id : bytes) (n : nat) :
  forall i k m, (i <= k < i + n)%nat -> (i + n <= length md)%nat ->
    md !! k = Some m -> is_valid m = NON_EMPTY -> strcmp (img_id m) id = 0 ->
    (forall j mj, (i <= j < k)%nat -> md !! j = Some mj ->
       is_valid mj = NON_EMPTY -> strcmp (img_id mj) id <> 0) ->
    find_pos_by_id md id n i = Some (Z.of_nat k).
Proof.
  induction n as [|n IH]; intros i k m Hk Hlen Hm Hv Hs Hbefore; [lia|].
  cbn [find_pos_by_id].
  destruct (md !! i) as [mi|] eqn:Hmi; [|apply lookup_ge_None in Hmi; lia].
  cbn [mbind option_bind].
  destruct (decide (i = k)) as [->|Hik].
  - rewrite Hm in Hmi. injection Hmi as <-.
    rewrite Hv, Hs. reflexivity.
  - replace ((is_valid mi =? NON_EMPTY) && (strcmp (img_id mi) id =? 0)) with false.
    + apply (IH (S i) k m); auto; try lia. intros j mj Hj. apply Hbefore. lia.
    + symmetry. apply andb_false_iff.
      destruct (is_valid mi =? NON_EMPTY) eqn:Hvi; [right|left; reflexivity].
      apply Z.eqb_eq in Hvi. apply Z.eqb_neq. apply (Hbefore i mi); auto. lia.
Qed.

Lemma get3_orig (a : arr3) : get3 a ORIG_RES = Some (default 0 (get3 a ORIG_RES)).
Proof. destruct a as [[x y] z]. reflexivity. Qed.

(** Reading the original of a slot that stores [B] and is the first valid
    slot with the id. *)
Lemma read_stored (B id : bytes) (f : imgfs_file) (k : nat) (m : img_metadata) :
  faults (file f) = [] ->
  (Z.to_nat (max_files (header f)) <= length (metadata f))%nat ->
  (k < Z.to_nat (max_files (header f)))%nat ->
  metadata f !! k = Some m -> is_valid m = NON_EMPTY -> strcmp (img_id m) id = 0 ->
  (forall j mj, (j < k)%nat -> metadata f !! j = Some mj ->
     is_valid mj = NON_EMPTY -> strcmp (img_id mj) id <> 0) ->
  B <> [] -> 0 <= prefix_size f -> flen (file f) < 2 ^ 63 ->
  stores f m B ->
  exists f',
    do_read id ORIG_RES f = Some (mk_read_result ERR_NONE B (Z.of_nat (length B)) f').
Proof.
  intros Hfaults Hlen Hk Hm Hv Hs Hbefore HB HP Hflen (Hs1 & Hs2 & Hs3 & Hs4).
  unfold do_read.
  rewrite (find_pos_by_id_found _ _ _ 0 k m); auto; try lia;
    [|intros j mj Hj; apply Hbefore; lia].
  cbn [mbind option_bind].
  replace (Z.of_nat k =? -1) with false by (symmetry; apply Z.eqb_neq; lia).
  rewrite (tbl_get_Some _ _ m) by (rewrite ?Nat2Z.id; auto; lia).
  cbn [mbind option_bind].
  rewrite (get3_orig (offset m)), (get3_orig (size m)). cbn [mbind option_bind].
  change (negb (ORIG_RES =? ORIG_RES)) with false. cbn [andb].
  cbn [mbind option_bind].
  rewrite bool_decide_eq_false_2 by (intros E; apply E; reflexivity).
  rewrite (tbl_get_Some _ _ m) by (rewrite ?Nat2Z.id; auto; lia).
  cbn [mbind option_bind].
  rewrite (get3_orig (offset m)), (get3_orig (size m)). cbn [mbind option_bind].
  change (default 0 (get3 (offset m) ORIG_RES)) with (orig_offset m).
  change (default 0 (get3 (size m) ORIG_RES)) with (orig_size m).
  assert (HBl : 0 < Z.of_nat (length B)) by (destruct B; [congruence|cbn [length]; lia]).
  rewrite to_long_small by lia.
  rewrite fseek_set_ok' by (auto; lia). cbn [negb Z.eqb].
  unfold flen in Hs2.
  rewrite fread_ok by lia. cbn [negb Z.eqb Pos.eqb].
  unfold blob_at in Hs4. rewrite Hs4, Hs3. eauto.
Qed.

Lemma inserted_bounds (B id : bytes) (f : imgfs_file) (k : nat) (m : img_metadata)
    (f1 : imgfs_file) :
  inserted f B id k m f1 ->
  (k < Z.to_nat (max_files (header f)))%nat
  /\ max_files (header f1) = max_files (header f)
  /\ prefix_size f1 = prefix_size f
  /\ length (metadata f1) = length (metadata f)
  /\ flen (file f) <= flen (file f1) <= flen (file f) + Z.of_nat (length B)
  /\ (exists m0, metadata f !! k = Some m0 /\ is_valid m0 = 0)
  /\ (forall j mj, (j < k)%nat -> metadata f !! j = Some mj -> is_valid mj <> 0).
Proof.
  intros I. destruct (first_free_inv _ _ _ _ (ins_slot _ _ _ _ _ _ I)) as (Hk & Hm0 & Hb).
  assert (Hmx : max_files (header f1) = max_files (header f))
    by (rewrite (ins_header _ _ _ _ _ _ I); reflexivity).
  split; [lia|]. split; [exact Hmx|].
  split; [unfold prefix_size; rewrite Hmx; reflexivity|].
  split; [rewrite (ins_table _ _ _ _ _ _ I); apply length_insert|].
  split.
  - destruct (ins_blob _ _ _ _ _ _ I) as [(j & mj & Hs)|(Ha & _)]; [|lia].
    decompose [and] Hs. lia.
  - split; [exact Hm0|]. intros j mj Hj. apply Hb. lia.
Qed.

(** A blob stored before an insert is still stored after it. *)
Lemma inserted_keeps_blobs (B B' id : bytes) (f : imgfs_file) (k : nat)
    (m m' : img_metadata) (f1 : imgfs_file) :
  0 <= prefix_size f ->
  inserted f B id k m f1 -> stores f m' B' -> stores f1 m' B'.
Proof.
  intros HP I (Hs1 & Hs2 & Hs3 & Hs4).
  destruct (inserted_bounds _ _ _ _ _ _ I) as (_ & _ & Hps & _ & Hfl & _).
  unfold stores. rewrite Hps.
  split; [exact Hs1|]. split; [lia|]. split; [exact Hs3|].
  rewrite <- Hs4. apply (blob_at_frame _ _ (prefix_size f)); try lia.
  exact (ins_frame _ _ _ _ _ _ I).
Qed.

Lemma stored_id_matches (id : bytes) :
  (length (cstr id) <= MAX_IMG_ID)%nat -> strcmp (stored_id id) id = 0.
Proof.
  intros Hid. apply strcmp_0_iff. rewrite cstr_stored_id. apply take_ge. exact Hid.
Qed.

(** The image just inserted under a fresh id is read back. *)
Lemma read_back (B id : bytes) (f : imgfs_file) (k : nat) (m : img_metadata)
    (f1 : imgfs_file) :
  well_formed f -> B <> [] ->
  (length (cstr id) <= MAX_IMG_ID)%nat -> fresh_id f id ->
  0 <= max_files (header f) ->
  flen (file f) + Z.of_nat (length B) < 2 ^ 63 ->
  inserted f B id k m f1 ->
  exists f2,
    do_read id ORIG_RES f1 = Some (mk_read_result ERR_NONE B (Z.of_nat (length B)) f2).
Proof.
  intros [Hfaults Hmax Hnb0 Htable Hprefix] HB Hid Hfresh Hmx Hflen I.
  destruct (inserted_bounds _ _ _ _ _ _ I) as (Hk & Hmf & Hps & Hlen & Hfl & _ & _).
  pose proof sizeof_imgfs_header_pos. pose proof sizeof_img_metadata_pos.
  apply (read_stored B id f1 k m).
  - exact (ins_faults _ _ _ _ _ _ I).
  - rewrite Hmf, Hlen. lia.
  - rewrite Hmf. exact Hk.
  - rewrite (ins_table _ _ _ _ _ _ I). apply list_lookup_insert_eq. lia.
  - exact (ins_valid _ _ _ _ _ _ I).
  - rewrite (ins_id _ _ _ _ _ _ I). apply stored_id_matches, Hid.
  - intros j mj Hj Hmj Hvj.
    rewrite (ins_table _ _ _ _ _ _ I), list_lookup_insert_ne in Hmj by lia.
    apply (Hfresh j mj Hmj). rewrite Hvj. discriminate.
  - exact HB.
  - rewrite Hps. unfold prefix_size. nia.
  - lia.
  - exact (ins_stores _ _ _ _ _ _ I).
Qed.


(** X26.  The round trip, where the code has it.  On a well-formed
    database (no fault to come) with room and a free slot, for a non-empty
    blob [B] of fewer than 2^32 bytes whose dimensions the JPEG library
    extracts, and an id of at most [MAX_IMG_ID] bytes that no valid slot
    holds (the empty id among them: [do_insert] does not test the id),
    [do_insert] succeeds and [do_read] of that id at the original
    resolution then succeeds and delivers exactly [B]. *)
Theorem insert_then_read_original
    (B id : bytes) (f : imgfs_file) (i0 : nat) (hw : Z * Z) :
  well_formed f ->
  B <> [] -> Z.of_nat (length B) <= UINT32_MAX ->
  get_resolution B = (ERR_NONE, hw) ->
  nb_files (header f) < max_files (header f) ->
  free_slot f i0 ->
  flen (file f) + Z.of_nat (length B) < 2 ^ 63 ->
  (length (cstr id) <= MAX_IMG_ID)%nat ->
  fresh_id f id ->
  dedup_sound f B ->
  exists f1 f2,
    do_insert B id f = Some (ERR_NONE, f1)
    /\ do_read id ORIG_RES f1
       = Some (mk_read_result ERR_NONE B (Z.of_nat (length B)) f2).
Proof.
  intros Hwf HB HBmax Hres Hnb Hfree Hflen Hid Hfresh Hsound.
  destruct (insert_fresh B id f i0 hw) as (k & m & f1 & Hins & I); auto.
  destruct (read_back B id f k m f1) as [f2 Hread]; auto.
  - destruct Hwf. lia.
  - eauto.
Qed.

Lemma inserted_well_formed (B id : bytes) (f : imgfs_file) (k : nat) (m : img_metadata)
    (f1 : imgfs_file) :
  well_formed f -> nb_files (header f) < max_files (header f) ->
  inserted f B id k m f1 -> well_formed f1.
Proof.
  intros [Hfaults Hmax Hnb0 Htable Hprefix] Hnb I.
  destruct (inserted_bounds _ _ _ _ _ _ I) as (Hk & Hmf & Hps & Hlen & Hfl & _ & _).
  constructor.
  - exact (ins_faults _ _ _ _ _ _ I).
  - rewrite Hmf. exact Hmax.
  - rewrite (ins_header _ _ _ _ _ _ I). cbn. lia.
  - rewrite Hmf, Hlen. exact Htable.
  - rewrite Hps. lia.
Qed.

(** X27.  One blob under two ids, where the code has it.  On a well-formed
    database (no fault to come) with two free slots, in which every valid
    slot with the SHA of [B] has an original that stores [B], the same blob
    [B] (non-empty, fewer than 2^32 bytes, dimensions extractable) inserted
    under two distinct fresh ids of at most [MAX_IMG_ID] bytes: both
    inserts succeed; the second appends nothing (the file keeps the length
    it had after the first, which grew by at most the blob); the second
    slot has the offset and the size, at every resolution, of a valid slot
    with the same SHA; and both ids read back exactly [B]. *)
Theorem insert_same_content_twice
    (B id1 id2 : bytes) (f : imgfs_file) (i1 i2 : nat) (hw : Z * Z) :
  well_formed f ->
  B <> [] -> Z.of_nat (length B) <= UINT32_MAX ->
  get_resolution B = (ERR_NONE, hw) ->
  nb_files (header f) + 1 < max_files (header f) ->
  free_slot f i1 -> free_slot f i2 -> i1 <> i2 ->
  flen (file f) + 2 * Z.of_nat (length B) < 2 ^ 63 ->
  (length (cstr id1) <= MAX_IMG_ID)%nat ->
  (length (cstr id2) <= MAX_IMG_ID)%nat ->
  cstr id1 <> cstr id2 ->
  fresh_id f id1 -> fresh_id f id2 ->
  dedup_sound f B -> originals_present f B ->
  exists f1 f2 k2 m2 j mj r1 r2,
    do_insert B id1 f = Some (ERR_NONE, f1)
    /\ do_insert B id2 f1 = Some (ERR_NONE, f2)
    /\ flen (file f2) = flen (file f1)
    /\ flen (file f1) <= flen (file f) + Z.of_nat (length B)
    /\ metadata f2 !! k2 = Some m2 /\ img_id m2 = stored_id id2
    /\ j <> k2 /\ metadata f1 !! j = Some mj /\ is_valid mj <> 0
    /\ same_content mj B
    /\ offset m2 = offset mj /\ size m2 = size mj
    /\ do_read id1 ORIG_RES f2
       = Some (mk_read_result ERR_NONE B (Z.of_nat (length B)) r1)
    /\ do_read id2 ORIG_RES f2
       = Some (mk_read_result ERR_NONE B (Z.of_nat (length B)) r2).
Proof.
  intros Hwf HB HBmax Hres Hnb Hfree1 Hfree2 Hi12 Hflen Hid1 Hid2 Hdiff
         Hfresh1 Hfresh2 Hsound Horig.
  pose proof sizeof_imgfs_header_pos as Hsh.
  pose proof sizeof_img_metadata_pos as Hsm.
  assert (Hnb0 : 0 <= nb_files (header f)) by (destruct Hwf; auto).
  assert (HP0 : 0 <= prefix_size f) by (unfold prefix_size; nia).
  (* the first insert *)
  destruct (insert_fresh B id1 f i1 hw) as (k1 & m1 & f1 & Hins1 & I1); auto; try lia.
  destruct (inserted_bounds _ _ _ _ _ _ I1)
    as (Hk1 & Hmf1 & Hps1 & Hlen1 & Hfl1 & (m0 & Hm0 & Hv0) & Hbefore1).
  pose proof (inserted_well_formed _ _ _ _ _ _ Hwf ltac:(lia) I1) as Hwf1.
  assert (Hklt1 : (k1 < length (metadata f))%nat) by (eapply lookup_lt_Some; eauto).
  assert (Hm1 : metadata f1 !! k1 = Some m1).
  { rewrite (ins_table _ _ _ _ _ _ I1). apply list_lookup_insert_eq. exact Hklt1. }
  assert (Hother1 : forall j, j <> k1 -> metadata f1 !! j = metadata f !! j).
  { intros j Hj. rewrite (ins_table _ _ _ _ _ _ I1). apply list_lookup_insert_ne. auto. }
  assert (Hsame1 : same_content m1 B).
  { unfold same_content. rewrite (ins_sha _ _ _ _ _ _ I1). apply memcmp_refl. }
  assert (Hoff1 : orig_offset m1 <> 0).
  { destruct (ins_stores _ _ _ _ _ _ I1) as (Hs1 & _). rewrite Hps1 in Hs1.
    unfold prefix_size in *. nia. }
  (* the state after the first insert satisfies the conditions of the second *)
  assert (Hfree' : exists i', free_slot f1 i').
  { destruct Hfree1 as (Hi1 & mi1 & Hmi1 & Hvi1), Hfree2 as (Hi2 & mi2 & Hmi2 & Hvi2).
    destruct (decide (i1 = k1)) as [->|Hne].
    - exists i2. split; [rewrite Hmf1; exact Hi2|].
      exists mi2. rewrite Hother1 by auto. auto.
    - exists i1. split; [rewrite Hmf1; exact Hi1|].
      exists mi1. rewrite Hother1 by auto. auto. }
  destruct Hfree' as [i' Hfree'].
  assert (Hfresh' : fresh_id f1 id2).
  { intros j mj Hmj Hvj. destruct (decide (j = k1)) as [->|Hne].
    - rewrite Hm1 in Hmj. injection Hmj as <-.
      rewrite (ins_id _ _ _ _ _ _ I1). intros E. apply Hdiff.
      apply strcmp_0_iff in E. rewrite cstr_stored_id, take_ge in E by exact Hid1.
      exact E.
    - rewrite Hother1 in Hmj by auto. apply (Hfresh2 j mj); auto. }
  assert (Hsound' : dedup_sound f1 B).
  { intros j mj Hmj Hvj Hsame Hoff. destruct (decide (j = k1)) as [->|Hne].
    - rewrite Hm1 in Hmj. injection Hmj as <-. exact (ins_stores _ _ _ _ _ _ I1).
    - rewrite Hother1 in Hmj by auto.
      apply (inserted_keeps_blobs B B id1 f k1 m1 mj f1); auto.
      apply (Hsound j mj); auto. }
  assert (Horig' : originals_present f1 B).
  { intros j mj Hmj Hvj Hsame. destruct (decide (j = k1)) as [->|Hne].
    - rewrite Hm1 in Hmj. injection Hmj as <-. exact Hoff1.
    - rewrite Hother1 in Hmj by auto. apply (Horig j mj); auto. }
  assert (Hnb1 : nb_files (header f1) < max_files (header f1)).
  { rewrite (ins_header _ _ _ _ _ _ I1). cbn. lia. }
  (* the second insert *)
  destruct (insert_fresh B id2 f1 i' hw) as (k2 & m2 & f2 & Hins2 & I2); auto; try lia.
  destruct (inserted_bounds _ _ _ _ _ _ I2)
    as (Hk2 & Hmf2 & Hps2 & Hlen2 & Hfl2 & (m0' & Hm0' & Hv0') & Hbefore2).
  assert (Hk12 : k1 <> k2).
  { intros ->. rewrite Hm1 in Hm0'. injection Hm0' as <-.
    rewrite (ins_valid _ _ _ _ _ _ I1) in Hv0'. discriminate. }
  assert (Hk1lt : (k1 < k2)%nat).
  { destruct (decide (k2 < k1)%nat) as [Hlt|]; [|lia]. exfalso.
    rewrite Hother1 in Hm0' by lia. apply (Hbefore1 k2 m0'); auto. }
  assert (Hshared : shared f1 B k2 m2 f2).
  { destruct (ins_blob _ _ _ _ _ _ I2) as [Hs|(_ & _ & [Hno|(j & mj & Hj & Hmj & Hvj & Hsj & Hz)])].
    - exact Hs.
    - exfalso. apply (Hno k1 m1); auto.
      rewrite (ins_valid _ _ _ _ _ _ I1). discriminate.
    - exfalso. apply (Horig' j mj); auto. }
  destruct Hshared as (j & mj & Hj & Hmj & Hvj & Hsj & Hoj & Ho & Hs & Hflen2).
  assert (Hklt2 : (k2 < length (metadata f1))%nat) by (eapply lookup_lt_Some; eauto).
  assert (Hm2 : metadata f2 !! k2 = Some m2).
  { rewrite (ins_table _ _ _ _ _ _ I2). apply list_lookup_insert_eq. exact Hklt2. }
  (* reading both ids *)
  destruct (read_stored B id1 f2 k1 m1) as [r1 Hr1].
  { exact (ins_faults _ _ _ _ _ _ I2). }
  { rewrite Hmf2, Hmf1, Hlen2, Hlen1. destruct Hwf. lia. }
  { rewrite Hmf2, Hmf1. exact Hk1. }
  { rewrite (ins_table _ _ _ _ _ _ I2), list_lookup_insert_ne by auto. exact Hm1. }
  { exact (ins_valid _ _ _ _ _ _ I1). }
  { rewrite (ins_id _ _ _ _ _ _ I1). apply stored_id_matches, Hid1. }
  { intros i mi Hi Hmi Hvi.
    rewrite (ins_table _ _ _ _ _ _ I2), list_lookup_insert_ne in Hmi by lia.
    rewrite Hother1 in Hmi by lia.
    apply (Hfresh1 i mi Hmi). rewrite Hvi. discriminate. }
  { exact HB. }
  { rewrite Hps2, Hps1. exact HP0. }
  { lia. }
  { apply (inserted_keeps_blobs B B id2 f1 k2 m2 m1 f2); auto.
    - rewrite Hps1. exact HP0.
    - exact (ins_stores _ _ _ _ _ _ I1). }
  destruct (read_back B id2 f1 k2 m2 f2) as [r2 Hr2]; auto; try lia.
  exists f1, f2, k2, m2, j, mj, r1, r2.
  split; [exact Hins1|]. split; [exact Hins2|]. split; [exact Hflen2|].
  split; [lia|]. split; [exact Hm2|]. split; [exact (ins_id _ _ _ _ _ _ I2)|].
  auto 12.
Qed.

End InsertFresh.

(** ** The round trip: examples on concrete databases *)

Section RoundTripExamples.

Ltac by_compute :=
  vm_compute; repeat split; solve [reflexivity | discriminate | lia].

(** Case analysis over the slots of a concrete table. *)
Ltac over_slots j Hm :=
  repeat (destruct j as [|j]; [vm_compute in Hm; injection Hm as <-|]);
  [..|vm_compute in Hm; discriminate].

Lemma one_image_db_well_formed : well_formed Toy.one_image_db.
Proof. constructor; by_compute. Qed.

Lemma fresh_db_well_formed : well_formed (Toy.fresh_db 2).
Proof. constructor; by_compute. Qed.

(** The blob of "pic" inserted again under "copy" (a shared blob) and read. *)
Lemma insert_then_read_original_witness :
  exists f1 f2,
    do_insert Toy.jpg_a (str "copy") Toy.one_image_db = Some (ERR_NONE, f1)
    /\ do_read (str "copy") ORIG_RES f1
       = Some (mk_read_result ERR_NONE Toy.jpg_a (Z.of_nat (length Toy.jpg_a)) f2).
Proof.
  apply (insert_then_read_original Toy.jpg_a (str "copy") Toy.one_image_db 1 (600, 800)).
  - exact one_image_db_well_formed.
  - discriminate.
  - by_compute.
  - reflexivity.
  - by_compute.
  - split; [by_compute|]. exists zero_metadata. by_compute.
  - by_compute.
  - by_compute.
  - intros j m Hm Hv. over_slots j Hm.
    + by_compute.
    + exfalso. apply Hv. reflexivity.
  - intros j m Hm Hv Hsame Hoff. over_slots j Hm.
    + by_compute.
    + exfalso. apply Hv. reflexivity.
Defined.

(** C1.  The code breaks the round trip for an id of 128 bytes: on the
    fresh database of capacity 2, where no slot is valid and the id is
    therefore not present, the insert succeeds, and the read of the same id
    at the original resolution answers [ERR_IMAGE_NOT_FOUND] instead of the
    bytes inserted.  [do_insert] stores the id cut to [MAX_IMG_ID] bytes
    without testing its length (the missing test of C6), and [do_read]
    compares the whole id. *)
Lemma insert_long_id_not_read_back :
  metadata (Toy.fresh_db 2) = [zero_metadata; zero_metadata]
  /\ (fst <$> do_insert Toy.jpg_a Toy.long_id (Toy.fresh_db 2)) = Some ERR_NONE
  /\ (rd_err <$> do_read Toy.long_id ORIG_RES Toy.long_id_db) = Some ERR_IMAGE_NOT_FOUND.
Proof. by_compute. Qed.

(** One blob under the ids "pic" and "copy", on a fresh database of capacity 2. *)
Lemma insert_same_content_twice_witness :
  exists f1 f2 k2 m2 j mj r1 r2,
    do_insert Toy.jpg_a (str "pic") (Toy.fresh_db 2) = Some (ERR_NONE, f1)
    /\ do_insert Toy.jpg_a (str "copy") f1 = Some (ERR_NONE, f2)
    /\ flen (file f2) = flen (file f1)
    /\ flen (file f1) <= flen (file (Toy.fresh_db 2)) + Z.of_nat (length Toy.jpg_a)
    /\ metadata f2 !! k2 = Some m2 /\ img_id m2 = stored_id (str "copy")
    /\ j <> k2 /\ metadata f1 !! j = Some mj /\ is_valid mj <> 0
    /\ same_content mj Toy.jpg_a
    /\ offset m2 = offset mj /\ size m2 = size mj
    /\ do_read (str "pic") ORIG_RES f2
       = Some (mk_read_result ERR_NONE Toy.jpg_a (Z.of_nat (length Toy.jpg_a)) r1)
    /\ do_read (str "copy") ORIG_RES f2
       = Some (mk_read_result ERR_NONE Toy.jpg_a (Z.of_nat (length Toy.jpg_a)) r2).
Proof.
  apply (insert_same_content_twice Toy.jpg_a (str "pic") (str "copy") (Toy.fresh_db 2)
           0 1 (600, 800)).
  - exact fresh_db_well_formed.
  - discriminate.
  - by_compute.
  - reflexivity.
  - by_compute.
  - split; [by_compute|]. exists zero_metadata. by_compute.
  - split; [by_compute|]. exists zero_metadata. by_compute.
  - discriminate.
  - by_compute.
  - by_compute.
  - by_compute.
  - by_compute.
  - intros j m Hm Hv. over_slots j Hm; exfalso; apply Hv; reflexivity.
  - intros j m Hm Hv. over_slots j Hm; exfalso; apply Hv; reflexivity.
  - intros j m Hm Hv. over_slots j Hm; exfalso; apply Hv; reflexivity.
  - intros j m Hm Hv. over_slots j Hm; exfalso; apply Hv; reflexivity.
Defined.

(** C2.  The code breaks the claim for two distinct ids of 128 bytes: on
    the fresh database of capacity 2 both inserts of the same blob succeed
    and the second appends nothing, but the read of either id at the
    original resolution answers [ERR_IMAGE_NOT_FOUND] instead of the blob.
    The ids are stored cut to [MAX_IMG_ID] bytes without a test of their
    length (the missing test of C6). *)
Lemma insert_twice_long_ids_not_read_back :
  Toy.long_id <> Toy.long_id_b
  /\ (fst <$> do_insert Toy.jpg_a Toy.long_id (Toy.fresh_db 2)) = Some ERR_NONE
  /\ (fst <$> do_insert Toy.jpg_a Toy.long_id_b Toy.long_id_db) = Some ERR_NONE
  /\ flen (file Toy.long_ids_db) = flen (file Toy.long_id_db)
  /\ (rd_err <$> do_read Toy.long_id ORIG_RES Toy.long_ids_db) = Some ERR_IMAGE_NOT_FOUND
  /\ (rd_err <$> do_read Toy.long_id_b ORIG_RES Toy.long_ids_db)
     = Some ERR_IMAGE_NOT_FOUND.
Proof. by_compute. Qed.

End RoundTripExamples.

(** ** Deletion, and how it composes with reading and inserting *)

Section DeleteFacts.
Context `{ImgLib} `{Layout}.

Lemma delete_scan_inv (md : list img_metadata) (id : bytes) (n : nat) :
  forall i k, delete_scan md id n i = Some (Some k) ->
    (i <= k < i + n)%nat
    /\ (exists m, md !! k = Some m /\ is_valid m <> 0 /\ strcmp (img_id m) id = 0)
    /\ (forall j mj, (i <= j < k)%nat -> md !! j = Some mj -> is_valid mj <> 0 ->
          strcmp (img_id mj) id <> 0).
Proof.
  induction n as [|n IH]; intros i k Hs; cbn [delete_scan] in Hs; [discriminate|].
  destruct (md !! i) as [m|] eqn:Hm; [|discriminate].
  cbn [mbind option_bind] in Hs.
  destruct (negb (is_valid m =? 0) && (strcmp (img_id m) id =? 0)) eqn:Hc.
  - injection Hs as <-. apply andb_true_iff in Hc as [Hv Hi].
    apply negb_true_iff, Z.eqb_neq in Hv. apply Z.eqb_eq in Hi.
    split; [lia|]. split; [eauto|]. intros; lia.
  - destruct (IH _ _ Hs) as (Hk & Hm' & Hb). split; [lia|]. split; [exact Hm'|].
    intros j mj Hj Hmj Hvj. destruct (decide (j = i)) as [->|].
    + rewrite Hm in Hmj. injection Hmj as <-.
      apply andb_false_iff in Hc as [Hc|Hc].
      * apply negb_false_iff, Z.eqb_eq in Hc. congruence.
      * apply Z.eqb_neq in Hc. exact Hc.
    + apply (Hb j); auto. lia.
Qed.

Lemma delete_scan_none_inv (md : list img_metadata) (id : bytes) (n : nat) :
  forall i, delete_scan md id n i = Some None ->
    forall j mj, (i <= j < i + n)%nat -> md !! j = Some mj -> is_valid mj <> 0 ->
      strcmp (img_id mj) id <> 0.
Proof.
  induction n as [|n IH]; intros i Hs j mj Hj Hmj Hvj; [lia|].
  cbn [delete_scan] in Hs.
  destruct (md !! i) as [m|] eqn:Hm; [|discriminate].
  cbn [mbind option_bind] in Hs.
  destruct (negb (is_valid m =? 0) && (strcmp (img_id m) id =? 0)) eqn:Hc; [discriminate|].
  destruct (decide (j = i)) as [->|].
  - rewrite Hm in Hmj. injection Hmj as <-.
    apply andb_false_iff in Hc as [Hc|Hc].
    + apply negb_false_iff, Z.eqb_eq in Hc. congruence.
    + apply Z.eqb_neq in Hc. exact Hc.
  - apply (IH _ Hs j); auto. lia.
Qed.

Lemma delete_scan_total (md : list img_metadata) (id : bytes) (n : nat) :
  forall i, (i + n <= length md)%nat -> exists r, delete_scan md id n i = Some r.
Proof.
  induction n as [|n IH]; intros i Hlen; cbn [delete_scan]; [eauto|].
  destruct (md !! i) as [m|] eqn:Hm; [|apply lookup_ge_None in Hm; lia].
  cbn [mbind option_bind].
  destruct (negb (is_valid m =? 0) && (strcmp (img_id m) id =? 0)); [eauto|].
  apply IH. lia.
Qed.

(** The scan finds nothing when no slot in use holds the id. *)
Lemma delete_scan_absent (f : imgfs_file) (id : bytes) :
  (Z.to_nat (max_files (header f)) <= length (metadata f))%nat ->
  fresh_id f id ->
  delete_scan (metadata f) id (Z.to_nat (max_files (header f))) 0 = Some None.
Proof.
  intros Hlen Hfresh.
  destruct (delete_scan_total (metadata f) id (Z.to_nat (max_files (header f))) 0)
    as [[k|] Hs]; [lia| |exact Hs].
  destruct (delete_scan_inv _ _ _ _ _ Hs) as (_ & (m & Hm & Hv & Hi) & _).
  exfalso. exact (Hfresh _ _ Hm Hv Hi).
Qed.

Lemma find_pos_by_id_absent (md : list img_metadata) (id : bytes) (n : nat) :
  forall i, (i + n <= length md)%nat ->
    (forall j mj, (i <= j < i + n)%nat -> md !! j = Some mj ->
       is_valid mj = NON_EMPTY -> strcmp (img_id mj) id <> 0) ->
    find_pos_by_id md id n i = Some (-1).
Proof.
  induction n as [|n IH]; intros i Hlen Hno; cbn [find_pos_by_id]; [reflexivity|].
  destruct (md !! i) as [m|] eqn:Hm; [|apply lookup_ge_None in Hm; lia].
  cbn [mbind option_bind].
  destruct ((is_valid m =? NON_EMPTY) && (strcmp (img_id m) id =? 0)) eqn:Hc.
  - apply andb_true_iff in Hc as [Hv Hi].
    apply Z.eqb_eq in Hv. apply Z.eqb_eq in Hi.
    exfalso. apply (Hno i m); auto. lia.
  - apply IH; [lia|]. intros j mj Hj. apply Hno. lia.
Qed.

Lemma encode_metadata_nonempty (m : img_metadata) : encode_metadata m <> [].
Proof.
  intros E. pose proof (encode_metadata_length m) as L. rewrite E in L.
  pose proof sizeof_img_metadata_pos. cbn in L. lia.
Qed.

Lemma encode_header_nonempty (h : imgfs_header) : encode_header h <> [].
Proof.
  intros E. pose proof (encode_header_length h) as L. rewrite E in L.
  pose proof sizeof_imgfs_header_pos. cbn in L. lia.
Qed.

(** The state a delete leaves when slot [k] is the one the scan stops at
    and the environment does not fail. *)
Lemma delete_found (id : bytes) (f : imgfs_file) (k : nat) (m : img_metadata) :
  well_formed f -> flen (file f) < 2 ^ 63 ->
  delete_scan (metadata f) id (Z.to_nat (max_files (header f))) 0 = Some (Some k) ->
  metadata f !! k = Some m ->
  exists f1, do_delete id f = Some (ERR_NONE, f1)
    /\ header f1 = set_version (set_nb_files (header f) (to_uint32 (nb_files (header f) - 1)))
                               (to_uint32 (version (header f) + 1))
    /\ metadata f1 = <[k := set_is_valid m EMPTY]> (metadata f)
    /\ faults (file f1) = []
    /\ flen (file f1) = flen (file f)
    /\ drop (Z.to_nat (prefix_size f)) (contents (file f1))
       = drop (Z.to_nat (prefix_size f)) (contents (file f)).
Proof.
  intros [Hfaults Hmax Hnb0 Htable Hprefix] Hflen Hs Hm.
  destruct (delete_scan_inv _ _ _ _ _ Hs) as (Hk & _ & _).
  pose proof sizeof_imgfs_header_pos as Hsh. pose proof sizeof_img_metadata_pos as Hsm.
  unfold prefix_size in *.
  assert (Hoff : sizeof_imgfs_header + sizeof_img_metadata * Z.of_nat k
                 + sizeof_img_metadata
                 <= sizeof_imgfs_header + max_files (header f) * sizeof_img_metadata) by nia.
  unfold do_delete. rewrite Hs. cbn [mbind option_bind]. rewrite Hm.
  cbn [mbind option_bind].
  rewrite to_long_small by nia.
  rewrite (fseek_set_ok' _ _ Hfaults) by nia.
  rewrite fwrite_ok by apply encode_metadata_nonempty.
  cbn [negb Z.eqb Pos.eqb].
  rewrite fseek_set_ok by lia.
  rewrite fwrite_ok by apply encode_header_nonempty.
  cbn [negb Z.eqb Pos.eqb].
  eexists. split; [reflexivity|].
  cbn [header metadata file contents faults]. change (Z.to_nat 0) with 0%nat.
  set (P := Z.to_nat (sizeof_imgfs_header + max_files (header f) * sizeof_img_metadata)).
  set (h2 := set_version _ _).
  pose proof (encode_metadata_length (set_is_valid m EMPTY)) as Lm.
  pose proof (encode_header_length h2) as Lh.
  unfold flen in *. cbn [contents].
  destruct (write_at_inside (contents (file f)) (encode_metadata (set_is_valid m EMPTY))
              (Z.to_nat (sizeof_imgfs_header + sizeof_img_metadata * Z.of_nat k)) P)
    as [L1 D1]; [lia|lia|].
  match goal with
  | |- context [write_at (write_at ?d ?p ?b) 0 ?hb] =>
      destruct (write_at_inside (write_at d p b) hb 0 P) as [L2 D2]; [lia|lia|]
  end.
  split; [reflexivity|]. split; [reflexivity|]. split; [reflexivity|].
  split; [lia|congruence].
Qed.

End DeleteFacts.

Section DeleteCompose.
Context `{ImgLib} `{Layout}.

Lemma strcmp_same_id (a b id : bytes) :
  strcmp a id = 0 -> strcmp b id = 0 -> strcmp a b = 0.
Proof.
  intros Ha Hb. apply strcmp_0_iff in Ha. apply strcmp_0_iff in Hb.
  apply strcmp_0_iff. congruence.
Qed.

Lemma strcmp_other_id (a id id' : bytes) :
  strcmp a id = 0 -> strcmp a id' = 0 -> cstr id = cstr id'.
Proof.
  intros Ha Hb. apply strcmp_0_iff in Ha. apply strcmp_0_iff in Hb. congruence.
Qed.

(** A delete that succeeded stopped at a slot. *)
Lemma delete_success_inv (id : bytes) (f f1 : imgfs_file) :
  do_delete id f = Some (ERR_NONE, f1) ->
  exists k m,
    delete_scan (metadata f) id (Z.to_nat (max_files (header f))) 0 = Some (Some k)
    /\ metadata f !! k = Some m.
Proof.
  unfold do_delete. intros Hd.
  apply bind_Some in Hd as ([k|] & Hs & Hd); [|discriminate].
  apply bind_Some in Hd as (m & Hm & _). eauto.
Qed.

Lemma delete_deleted (id : bytes) (f f1 : imgfs_file) :
  well_formed f -> flen (file f) < 2 ^ 63 ->
  do_delete id f = Some (ERR_NONE, f1) ->
  exists k m, deleted f id k m f1.
Proof.
  intros Hwf Hflen Hd.
  destruct (delete_success_inv _ _ _ Hd) as (k & m & Hs & Hm).
  destruct (delete_found id f k m Hwf Hflen Hs Hm) as (f1' & Hd' & Hh & Ht & Hfa & Hl & Hfr).
  rewrite Hd in Hd'. injection Hd' as <-.
  destruct (delete_scan_inv _ _ _ _ _ Hs) as (_ & (m' & Hm' & Hv & Hi) & Hb).
  rewrite Hm in Hm'. injection Hm' as <-.
  exists k, m. constructor; auto.
  intros j mj Hj. apply Hb. lia.
Qed.

Lemma deleted_bounds (id : bytes) (f : imgfs_file) (k : nat) (m : img_metadata)
    (f1 : imgfs_file) :
  deleted f id k m f1 ->
  (k < length (metadata f))%nat
  /\ max_files (header f1) = max_files (header f)
  /\ prefix_size f1 = prefix_size f
  /\ length (metadata f1) = length (metadata f).
Proof.
  intros D. split; [exact (lookup_lt_Some _ _ _ (del_slot _ _ _ _ _ D))|].
  assert (Hmx : max_files (header f1) = max_files (header f))
    by (rewrite (del_header _ _ _ _ _ D); reflexivity).
  split; [exact Hmx|]. split; [unfold prefix_size; rewrite Hmx; reflexivity|].
  rewrite (del_table _ _ _ _ _ D). apply length_insert.
Qed.

(** The slots of the state a delete leaves: the slot deleted is free, the
    others are as they were. *)
Lemma deleted_lookup (id : bytes) (f : imgfs_file) (k : nat) (m : img_metadata)
    (f1 : imgfs_file) (j : nat) (mj : img_metadata) :
  deleted f id k m f1 -> metadata f1 !! j = Some mj ->
  (j = k /\ mj = set_is_valid m EMPTY) \/ (j <> k /\ metadata f !! j = Some mj).
Proof.
  intros D Hj. rewrite (del_table _ _ _ _ _ D) in Hj.
  destruct (decide (j = k)) as [->|Hjk].
  - left. split; [reflexivity|].
    rewrite list_lookup_insert_eq in Hj
      by exact (lookup_lt_Some _ _ _ (del_slot _ _ _ _ _ D)).
    congruence.
  - right. rewrite list_lookup_insert_ne in Hj by congruence. auto.
Qed.

Lemma deleted_well_formed (id : bytes) (f : imgfs_file) (k : nat) (m : img_metadata)
    (f1 : imgfs_file) :
  well_formed f -> deleted f id k m f1 -> well_formed f1.
Proof.
  intros [Hfaults Hmax Hnb0 Htable Hprefix] D.
  destruct (deleted_bounds _ _ _ _ _ D) as (Hk & Hmf & Hps & Hlen).
  constructor.
  - exact (del_faults _ _ _ _ _ D).
  - rewrite Hmf. exact Hmax.
  - rewrite (del_header _ _ _ _ _ D). cbn. unfold to_uint32.
    apply Z.mod_pos_bound. lia.
  - rewrite Hmf, Hlen. exact Htable.
  - rewrite Hps, (del_length _ _ _ _ _ D). exact Hprefix.
Qed.

Lemma deleted_keeps_blobs (id B' : bytes) (f : imgfs_file) (k : nat)
    (m m' : img_metadata) (f1 : imgfs_file) :
  0 <= prefix_size f ->
  deleted f id k m f1 -> stores f m' B' -> stores f1 m' B'.
Proof.
  intros HP D (Hs1 & Hs2 & Hs3 & Hs4).
  destruct (deleted_bounds _ _ _ _ _ D) as (_ & _ & Hps & _).
  unfold stores. rewrite Hps, (del_length _ _ _ _ _ D).
  split; [exact Hs1|]. split; [exact Hs2|]. split; [exact Hs3|].
  rewrite <- Hs4. apply (blob_at_frame _ _ (prefix_size f)); try lia.
  rewrite (del_frame _ _ _ _ _ D). reflexivity.
Qed.

(** With unique ids, the id deleted is held by no slot in use afterwards. *)
Lemma deleted_fresh (id : bytes) (f : imgfs_file) (k : nat) (m : img_metadata)
    (f1 : imgfs_file) :
  unique_ids f -> deleted f id k m f1 -> fresh_id f1 id.
Proof.
  intros Hu D j mj Hj Hv Hi.
  destruct (deleted_lookup _ _ _ _ _ _ _ D Hj) as [[-> ->]|[Hjk Hj0]].
  - apply Hv. reflexivity.
  - apply Hjk.
    apply (Hu j k mj m Hj0 (del_slot _ _ _ _ _ D) Hv (del_valid _ _ _ _ _ D)).
    exact (strcmp_same_id _ _ _ Hi (del_id _ _ _ _ _ D)).
Qed.


Lemma read_absent (id : bytes) (r : Z) (f : imgfs_file) :
  (Z.to_nat (max_files (header f)) <= length (metadata f))%nat ->
  fresh_id f id ->
  do_read id r f = Some (mk_read_result ERR_IMAGE_NOT_FOUND [] 0 f).
Proof.
  intros Hlen Hfresh. unfold do_read.
  rewrite find_pos_by_id_absent.
  - reflexivity.
  - lia.
  - intros j mj _ Hmj Hv. apply (Hfresh j mj Hmj). rewrite Hv. discriminate.
Qed.

Lemma delete_absent (id : bytes) (f : imgfs_file) :
  (Z.to_nat (max_files (header f)) <= length (metadata f))%nat ->
  fresh_id f id ->
  do_delete id f = Some (ERR_IMAGE_NOT_FOUND, f).
Proof.
  intros Hlen Hfresh. unfold do_delete.
  rewrite delete_scan_absent by assumption. reflexivity.
Qed.

(** X1.  Deleting an id that a slot in use holds, on a well-formed
    database in an environment that does not fail, succeeds: the first slot
    in use with the id is marked free and nothing else of the table changes,
    the count wraps down by one, the version steps, the file keeps its
    length and every byte after the table (no blob is reclaimed). *)
Theorem delete_present (id : bytes) (f : imgfs_file) (j : nat) (mj : img_metadata) :
  well_formed f -> flen (file f) < 2 ^ 63 ->
  metadata f !! j = Some mj -> is_valid mj <> 0 -> strcmp (img_id mj) id = 0 ->
  exists k m f1, do_delete id f = Some (ERR_NONE, f1) /\ deleted f id k m f1.
Proof.
  intros Hwf Hflen Hj Hv Hi.
  pose proof (wf_table _ Hwf) as Htable.
  destruct (delete_scan_total (metadata f) id (Z.to_nat (max_files (header f))) 0)
    as [[k|] Hs]; [lia| |].
  - destruct (delete_scan_inv _ _ _ _ _ Hs) as (_ & (m & Hm & _) & _).
    destruct (delete_found id f k m Hwf Hflen Hs Hm) as (f1 & Hd & _).
    destruct (delete_deleted _ _ _ Hwf Hflen Hd) as (k' & m' & D).
    eauto.
  - exfalso. apply (delete_scan_none_inv _ _ _ _ Hs j mj); auto.
    pose proof (lookup_lt_Some _ _ _ Hj). lia.
Qed.

(** X2.  On a table of [max_files] slots, [do_delete] answers
    [ERR_IMAGE_NOT_FOUND] and leaves the state as it is exactly when no slot
    in use holds the id; [do_read] then gives the same answer at every
    resolution. *)
Theorem delete_not_found_iff (id : bytes) (f : imgfs_file) :
  length (metadata f) = Z.to_nat (max_files (header f)) ->
  (do_delete id f = Some (ERR_IMAGE_NOT_FOUND, f) <-> fresh_id f id)
  /\ (fresh_id f id ->
      forall r, do_read id r f = Some (mk_read_result ERR_IMAGE_NOT_FOUND [] 0 f)).
Proof.
  intros Htable. split; [split|].
  - intros Hd j mj Hj Hv. unfold do_delete in Hd.
    apply bind_Some in Hd as ([k|] & Hs & Hd).
    + exfalso. split_paths Hd; discriminate.
    + apply (delete_scan_none_inv _ _ _ _ Hs j mj); auto.
      pose proof (lookup_lt_Some _ _ _ Hj). lia.
  - apply delete_absent. lia.
  - intros Hfresh r. apply read_absent; [lia|exact Hfresh].
Qed.

(** X3.  When ids are unique, an image that was deleted is gone: reading
    its id at any resolution, and deleting it again, answer
    [ERR_IMAGE_NOT_FOUND] and change nothing. *)
Theorem delete_then_read_not_found (id : bytes) (r : Z) (f f1 : imgfs_file) :
  well_formed f -> flen (file f) < 2 ^ 63 -> unique_ids f ->
  do_delete id f = Some (ERR_NONE, f1) ->
  do_read id r f1 = Some (mk_read_result ERR_IMAGE_NOT_FOUND [] 0 f1)
  /\ do_delete id f1 = Some (ERR_IMAGE_NOT_FOUND, f1).
Proof.
  intros Hwf Hflen Hu Hd.
  destruct (delete_deleted _ _ _ Hwf Hflen Hd) as (k & m & D).
  pose proof (deleted_fresh _ _ _ _ _ Hu D) as Hfresh.
  pose proof (wf_table _ (deleted_well_formed _ _ _ _ _ Hwf D)) as Htable.
  split; [apply read_absent|apply delete_absent]; auto; lia.
Qed.

(** X4.  Deleting one image leaves the others readable: the original of a
    slot that stores [B] under an id other than the one deleted is read
    back after the delete, also when the two images shared their blob. *)
Theorem delete_keeps_other_images (id id2 B : bytes) (f f1 : imgfs_file) (k2 : nat)
    (m2 : img_metadata) :
  well_formed f -> flen (file f) < 2 ^ 63 ->
  metadata f !! k2 = Some m2 -> is_valid m2 = NON_EMPTY ->
  strcmp (img_id m2) id2 = 0 ->
  (forall j mj, (j < k2)%nat -> metadata f !! j = Some mj ->
     is_valid mj = NON_EMPTY -> strcmp (img_id mj) id2 <> 0) ->
  B <> [] -> stores f m2 B ->
  cstr id <> cstr id2 ->
  do_delete id f = Some (ERR_NONE, f1) ->
  exists f2,
    do_read id2 ORIG_RES f1 = Some (mk_read_result ERR_NONE B (Z.of_nat (length B)) f2).
Proof.
  intros Hwf Hflen Hk2 Hv2 Hi2 Hfirst HB Hst Hne Hd.
  destruct (delete_deleted _ _ _ Hwf Hflen Hd) as (k & m & D).
  pose proof (deleted_well_formed _ _ _ _ _ Hwf D) as Hwf1.
  destruct (deleted_bounds _ _ _ _ _ D) as (Hk & Hmf & Hps & Hlen).
  destruct Hwf as [Hfaults Hmax Hnb0 Htable Hprefix].
  pose proof sizeof_imgfs_header_pos. pose proof sizeof_img_metadata_pos.
  assert (Hmx0 : 0 <= max_files (header f)).
  { pose proof (lookup_lt_Some _ _ _ Hk2). lia. }
  assert (HP : 0 <= prefix_size f) by (unfold prefix_size; nia).
  assert (Hkk : k2 <> k).
  { intros ->. rewrite (del_slot _ _ _ _ _ D) in Hk2. injection Hk2 as ->.
    apply Hne. symmetry. exact (strcmp_other_id _ _ _ Hi2 (del_id _ _ _ _ _ D)). }
  apply (read_stored B id2 f1 k2 m2).
  - exact (wf_faults _ Hwf1).
  - rewrite (wf_table _ Hwf1). lia.
  - rewrite Hmf. pose proof (lookup_lt_Some _ _ _ Hk2). lia.
  - rewrite (del_table _ _ _ _ _ D), list_lookup_insert_ne by congruence. exact Hk2.
  - exact Hv2.
  - exact Hi2.
  - intros j mj Hj Hmj Hvj.
    destruct (deleted_lookup _ _ _ _ _ _ _ D Hmj) as [[-> ->]|[_ Hj0]].
    + discriminate.
    + exact (Hfirst j mj Hj Hj0 Hvj).
  - exact HB.
  - rewrite Hps. exact HP.
  - rewrite (del_length _ _ _ _ _ D). exact Hflen.
  - exact (deleted_keeps_blobs _ _ _ _ _ _ _ HP D Hst).
Qed.

(** The stored form of an id: the C string cut to [MAX_IMG_ID] bytes, which
    is all [do_insert] copies of it. *)
Lemma take_cstr_cut (s : bytes) (n : nat) :
  take n (cstr (take n (cstr s)) ++ replicate n NUL) = take n (cstr s ++ replicate n NUL).
Proof.
  assert (Hn : NUL ∉ take n (cstr s)).
  { intros Hx. apply (cstr_nul_free s). exact (subseteq_take n _ _ Hx). }
  rewrite (cstr_id _ Hn).
  destruct (le_lt_dec n (length (cstr s))) as [Hle|Hlt].
  - rewrite (take_app_le (take n (cstr s))) by (rewrite length_take; lia).
    rewrite take_take, Nat.min_id. rewrite take_app_le by exact Hle. reflexivity.
  - rewrite (take_ge (cstr s)) by lia. reflexivity.
Qed.

Lemma do_insert_cut (B id : bytes) (f : imgfs_file) :
  do_insert B id f = do_insert B (take MAX_IMG_ID (cstr id)) f.
Proof. unfold do_insert, strncpy. rewrite take_cstr_cut. reflexivity. Qed.

Lemma length_cstr_cut (id : bytes) :
  (length (cstr (take MAX_IMG_ID (cstr id))) <= MAX_IMG_ID)%nat.
Proof.
  rewrite cstr_id.
  - rewrite length_take. lia.
  - intros Hx. apply (cstr_nul_free id). exact (subseteq_take _ _ _ Hx).
Qed.


End DeleteCompose.

(** ** What an insert does in every outcome, and the invariants of the table *)

(** Case analysis along the paths of a block that yields a sum. *)
Ltac split_sum Hx :=
  repeat match type of Hx with
         | (if ?c then _ else _) = _ => destruct c eqn:?
         | (let '(_, _) := ?p in _) = _ => destruct p eqn:?
         | inl _ = inl _ => injection Hx as Hx; subst
         | inr _ = inr _ => injection Hx as Hx; subst
         | (_, _) = (_, _) => injection Hx as Hx; subst
         | inl _ = inr _ => discriminate Hx
         | inr _ = inl _ => discriminate Hx
         end.

Section InsertInv.
Context `{ImgLib} `{Layout}.

(** The loop of the deduplication ends with one of two codes and keeps the
    identity of the target slot. *)
Lemma dedup_loop_target (index n : nat) :
  forall (i : nat) (md md' : list img_metadata) (e : error_code) (t : img_metadata),
    dedup_loop index n i md = Some (e, md') -> md !! index = Some t ->
    (e = ERR_NONE \/ e = ERR_DUPLICATE_ID)
    /\ exists t', md' !! index = Some t' /\ img_id t' = img_id t /\ SHA t' = SHA t
         /\ orig_res t' = orig_res t /\ is_valid t' = is_valid t.
Proof.
  induction n as [|n IH]; intros i md md' e t Hl Ht; cbn [dedup_loop] in Hl.
  - injection Hl as <- <-. split; [auto|]. exists t. auto.
  - case_bool_decide; [exact (IH _ _ _ _ _ Hl Ht)|].
    destruct (md !! i) as [mi|]; [|discriminate]. cbn [mbind option_bind] in Hl.
    destruct (is_valid mi =? 0); [exact (IH _ _ _ _ _ Hl Ht)|].
    rewrite Ht in Hl. cbn [mbind option_bind] in Hl.
    destruct (strcmp (img_id mi) (img_id t) =? 0).
    { injection Hl as <- <-. split; [auto|]. exists t. auto. }
    destruct (memcmp (SHA mi) (SHA t) SHA256_DIGEST_LENGTH =? 0);
      [|exact (IH _ _ _ _ _ Hl Ht)].
    destruct (IH _ _ _ _ (copy_res mi t) Hl) as (He & t' & Ht' & E).
    + apply list_lookup_insert_eq. eapply lookup_lt_Some; eauto.
    + split; [exact He|]. exists t'. rewrite copy_res_eq in E. cbn in E. auto.
Qed.

Lemma dedup_inv (f f' : imgfs_file) (k : Z) (e : error_code) (t : img_metadata) :
  do_name_and_content_dedup f k = Some (e, f') ->
  0 <= k < max_files (header f) ->
  metadata f !! Z.to_nat k = Some t -> is_valid t <> 0 ->
  (e = ERR_NONE \/ e = ERR_DUPLICATE_ID)
  /\ header f' = header f /\ file f' = file f
  /\ exists t', metadata f' = <[Z.to_nat k := t']> (metadata f)
       /\ img_id t' = img_id t /\ SHA t' = SHA t
       /\ orig_res t' = orig_res t /\ is_valid t' = is_valid t.
Proof.
  intros Hd Hk Ht Hv.
  destruct (dedup_frame _ _ _ _ Hd) as (Hh & Hfl & Hfr).
  unfold do_name_and_content_dedup in Hd.
  replace (max_files (header f) <=? k) with false in Hd by (symmetry; apply Z.leb_gt; lia).
  rewrite (tbl_get_Some _ k _ (proj1 Hk) Ht) in Hd. cbn [mbind option_bind] in Hd.
  replace (is_valid t =? 0) with false in Hd by (symmetry; apply Z.eqb_neq; exact Hv).
  destruct (dedup_loop _ _ _ _) as [[e1 md1]|] eqn:Hl; [|discriminate].
  cbn [mbind option_bind] in Hd. injection Hd as <- <-.
  destruct (dedup_loop_target _ _ _ _ _ _ (set_offset t ORIG_RES 0) Hl) as (He & t' & Ht' & E).
  { apply list_lookup_insert_eq. eapply lookup_lt_Some; eauto. }
  split; [exact He|]. split; [reflexivity|]. split; [reflexivity|].
  exists t'. cbn [metadata] in *. split; [|exact E].
  rewrite <- (Hfr t'). symmetry. apply list_insert_id. exact Ht'.
Qed.

Lemma first_free_result (md : list img_metadata) (n : nat) :
  forall i z, first_free md n i = Some z -> z = -1 \/ exists k, z = Z.of_nat k.
Proof.
  induction n as [|n IH]; intros i z Hf; cbn [first_free] in Hf.
  - injection Hf as <-. auto.
  - destruct (md !! i) as [m|]; [|discriminate]. cbn [mbind option_bind] in Hf.
    destruct (is_valid m =? EMPTY); [injection Hf as <-; eauto|exact (IH _ _ Hf)].
Qed.

(** The table and the header [do_insert] leaves, in every outcome: either
    the call was refused before it touched anything, or the first free slot
    [k] was taken; then either the id was a duplicate and the slot is
    zeroed again, or the slot stays in use.  In the last case no other slot
    in use holds the stored id, unless the error is that of
    [get_resolution]. *)
Lemma insert_inv (B id : bytes) (f f' : imgfs_file) (e : error_code) :
  max_files (header f) <= UINT32_MAX ->
  length (metadata f) = Z.to_nat (max_files (header f)) ->
  do_insert B id f = Some (e, f') ->
  (f' = f /\ (e = ERR_INVALID_ARGUMENT \/ e = ERR_IMGFS_FULL))
  \/ exists k m0,
       first_free (metadata f) (Z.to_nat (max_files (header f))) 0 = Some (Z.of_nat k)
       /\ metadata f !! k = Some m0 /\ is_valid m0 = 0
       /\ nb_files (header f) < max_files (header f)
       /\ max_files (header f') = max_files (header f)
       /\ ((e = ERR_DUPLICATE_ID
            /\ metadata f' = <[k := zero_metadata]> (metadata f)
            /\ nb_files (header f')
               = to_uint32 (to_uint32 (nb_files (header f) + 1) - 1))
           \/ (exists m, metadata f' = <[k := m]> (metadata f)
                /\ img_id m = stored_id id /\ SHA m = SHA256 B
                /\ is_valid m = NON_EMPTY
                /\ nb_files (header f') = to_uint32 (nb_files (header f) + 1)
                /\ ((e <> ERR_NONE /\ e = (get_resolution B).1)
                    \/ ((get_resolution B).1 = ERR_NONE
                        /\ forall j mj, j <> k -> metadata f !! j = Some mj ->
                             is_valid mj <> 0 ->
                             strcmp (img_id mj) (stored_id id) <> 0)))).
Proof.
  intros Hmax Hlen Hi. unfold do_insert in Hi.
  destruct (Z.of_nat (length B) =? 0); [injection Hi as <- <-; auto|].
  destruct (max_files (header f) <=? nb_files (header f)) eqn:Hfull;
    [injection Hi as <- <-; auto|].
  apply Z.leb_gt in Hfull.
  apply bind_Some in Hi as (free_index & Hfree & Hi).
  apply bind_Some in Hi as (m0' & Hget & Hi).
  right.
  destruct (first_free_result _ _ _ _ Hfree) as [->|[k ->]].
  { exfalso. unfold tbl_get in Hget. change (to_uint32 (-1)) with UINT32_MAX in Hget.
    replace (UINT32_MAX <? Z.of_nat (length (metadata f))) with false in Hget
      by (symmetry; apply Z.ltb_ge; unfold UINT32_MAX in *; lia).
    rewrite andb_false_r in Hget. discriminate. }
  destruct (first_free_inv _ _ _ _ Hfree) as (Hk & (m0 & Hm0 & Hv0) & Hbefore).
  rewrite (to_uint32_small (Z.of_nat k)) in Hi by lia.
  rewrite !Nat2Z.id in Hi.
  exists k, m0. split; [exact Hfree|]. split; [exact Hm0|]. split; [exact Hv0|].
  split; [exact Hfull|].
  destruct (get_resolution B) as [err [height width]] eqn:Hres. cbn [fst].
  case_bool_decide as Herr.
  { injection Hi as <- <-. split; [reflexivity|]. right. eexists. cbn.
    split; [reflexivity|]. repeat (split; [reflexivity|]). left. auto. }
  subst err.
  apply bind_Some in Hi as ([e3 f3] & Hd & Hi).
  match type of Hd with
  | do_name_and_content_dedup (mk_imgfs_file _ _ (<[k := ?m4]> _)) _ = _ =>
      set (t := m4) in *
  end.
  assert (Hkl : (k < length (metadata f))%nat) by exact (lookup_lt_Some _ _ _ Hm0).
  destruct (dedup_inv _ _ _ _ t Hd) as (He3 & Hh3 & Hfl3 & t' & Hmd3 & Eid & Esha & _ & Ev).
  { cbn [header max_files set_nb_files]. lia. }
  { cbn [metadata]. rewrite Nat2Z.id. apply list_lookup_insert_eq. exact Hkl. }
  { discriminate. }
  cbn [metadata header] in Hmd3, Hh3. rewrite Nat2Z.id, list_insert_insert_eq in Hmd3.
  assert (Hnodup : e3 = ERR_NONE ->
            forall j mj, j <> k -> metadata f !! j = Some mj -> is_valid mj <> 0 ->
              strcmp (img_id mj) (stored_id id) <> 0).
  { intros -> j mj Hjk Hj Hvj Hs.
    destruct (dedup_finds_duplicate
                (mk_imgfs_file (file f)
                   (set_nb_files (header f) (to_uint32 (nb_files (header f) + 1)))
                   (<[k := t]> (metadata f)))
                (Z.of_nat k) j t mj) as [fx Hx].
    - cbn. lia.
    - cbn. rewrite length_insert. lia.
    - cbn. rewrite Nat2Z.id. apply list_lookup_insert_eq. exact Hkl.
    - discriminate.
    - cbn. pose proof (lookup_lt_Some _ _ _ Hj). lia.
    - rewrite Nat2Z.id. exact Hjk.
    - cbn. rewrite list_lookup_insert_ne by congruence. exact Hj.
    - exact Hvj.
    - exact Hs.
    - rewrite Hd in Hx. discriminate. }
  assert (Et : img_id t' = stored_id id /\ SHA t' = SHA256 B /\ is_valid t' = NON_EMPTY).
  { rewrite Eid, Esha, Ev. repeat split. }
  destruct Et as (Eid' & Esha' & Ev').
  assert (Hm5 : metadata f3 !! k = Some t').
  { rewrite Hmd3. apply list_lookup_insert_eq. exact Hkl. }
  clearbody t. clear Hd Eid Esha Ev.
  case_bool_decide as Hne.
  - destruct He3 as [He3|He3]; [congruence|]. subst e3.
    rewrite bool_decide_eq_true_2 in Hi by reflexivity.
    injection Hi as <- <-. cbn [header metadata max_files set_nb_files].
    rewrite Hh3. split; [reflexivity|]. left.
    split; [reflexivity|]. split; [|reflexivity].
    rewrite Hmd3. apply list_insert_insert_eq.
  - subst e3. specialize (Hnodup eq_refl).
    rewrite Hm5 in Hi. cbn [mbind option_bind] in Hi.
    split_paths Hi; try discriminate.
    all: repeat match goal with
                | Hx : _ = inl _ |- _ => progress split_sum Hx
                | Hx : _ = inr _ |- _ => progress split_sum Hx
                end.
    all: cbn [header metadata max_files nb_files set_nb_files set_version].
    all: rewrite ?Hh3.
    all: (split; [reflexivity|]); right.
    all: eexists; (split; [rewrite Hmd3; apply list_insert_insert_eq|]).
    all: cbn [img_id SHA is_valid set_size set_offset].
    all: repeat (split; [assumption || reflexivity|]).
    all: try (right; split; [reflexivity|exact Hnodup]).
Qed.

(** The paths of [lazily_resize]: the header stays, and the table stays
    or takes an offset and a size at a resolution other than the original. *)
Lemma lazily_resize_inv (r : Z) (f f' : imgfs_file) (p : Z) (e : error_code) :
  lazily_resize r f p = Some (e, f') ->
  header f' = header f
  /\ (metadata f' = metadata f
      \/ exists m off sz,
           tbl_get (metadata f) p = Some m /\ r <> ORIG_RES
           /\ metadata f' = <[Z.to_nat p := set_size (set_offset m r off) r sz]> (metadata f)).
Proof.
  unfold lazily_resize. intros Hi.
  split_paths Hi; try discriminate; cbn [header metadata]; (split; [reflexivity|]).
  all: try (left; reflexivity).
  all: right; eexists _, _, _; split; [eassumption|]; split; [|reflexivity].
  all: match goal with Hr : (_ =? ORIG_RES) = false |- _ => apply Z.eqb_neq in Hr; exact Hr end.
Qed.

Lemma read_inv (id : bytes) (r : Z) (f : imgfs_file) (res : read_result) :
  do_read id r f = Some res ->
  header (rd_state res) = header f
  /\ (metadata (rd_state res) = metadata f
      \/ exists k m off sz,
           metadata f !! k = Some m /\ r <> ORIG_RES
           /\ metadata (rd_state res)
              = <[k := set_size (set_offset m r off) r sz]> (metadata f)).
Proof.
  intros Hr. split; [exact (read_header _ _ _ _ Hr)|].
  unfold do_read in Hr.
  apply bind_Some in Hr as (pos & Hpos & Hr).
  destruct (pos =? -1); [injection Hr as <-; left; reflexivity|].
  apply bind_Some in Hr as (m & Hm & Hr).
  apply bind_Some in Hr as (off_r & Hoff & Hr).
  apply bind_Some in Hr as (size_r & Hsz & Hr).
  apply bind_Some in Hr as ([e1 f1] & Hl & Hr).
  assert (Hmd : metadata f1 = metadata f
                \/ exists k m off sz,
                     metadata f !! k = Some m /\ r <> ORIG_RES
                     /\ metadata f1 = <[k := set_size (set_offset m r off) r sz]> (metadata f)).
  { destruct (negb (r =? ORIG_RES) && ((off_r =? 0) || (size_r =? EMPTY)));
      [|injection Hl as <- <-; left; reflexivity].
    destruct (lazily_resize_inv _ _ _ _ _ Hl) as (_ & [E|(m1 & off & sz & Hm1 & Hne & E)]);
      [left; exact E|].
    right. exists (Z.to_nat pos), m1, off, sz. split; [|auto].
    unfold tbl_get in Hm1. destruct (_ && _); [exact Hm1|discriminate]. }
  split_paths Hr; try discriminate; exact Hmd.
Qed.

Lemma count_valid_insert (md : list img_metadata) (k : nat) (m0 m : img_metadata) :
  md !! k = Some m0 ->
  (count_valid (<[k := m]> md) + (if decide (is_valid m0 <> 0)%Z then 1 else 0)
   = count_valid md + (if decide (is_valid m <> 0)%Z then 1 else 0))%nat.
Proof.
  intros Hk. pose proof (lookup_lt_Some _ _ _ Hk) as Hlt.
  rewrite insert_take_drop by exact Hlt.
  rewrite <- (take_drop_middle md k m0 Hk) at 3.
  unfold count_valid. rewrite !filter_app, !filter_cons, !length_app.
  repeat case_decide; cbn [length]; lia.
Qed.

Lemma count_valid_le (md : list img_metadata) : (count_valid md <= length md)%nat.
Proof. unfold count_valid. apply length_filter. Qed.

End InsertInv.

Section Invariants.
Context `{ImgLib} `{Layout}.

(** The table and the header [do_delete] leaves, in every outcome and in
    every environment. *)
Lemma delete_inv (id : bytes) (f f' : imgfs_file) (e : error_code) :
  do_delete id f = Some (e, f') ->
  (e = ERR_IMAGE_NOT_FOUND /\ f' = f)
  \/ exists k m,
       metadata f !! k = Some m /\ is_valid m <> 0 /\ strcmp (img_id m) id = 0
       /\ metadata f' = <[k := set_is_valid m EMPTY]> (metadata f)
       /\ max_files (header f') = max_files (header f)
       /\ ((e = ERR_IO /\ header f' = header f)
           \/ ((e = ERR_NONE \/ e = ERR_IO)
               /\ nb_files (header f') = to_uint32 (nb_files (header f) - 1))).
Proof.
  unfold do_delete. intros Hd.
  apply bind_Some in Hd as ([k|] & Hs & Hd); [|injection Hd as <- <-; auto].
  right. destruct (delete_scan_inv _ _ _ _ _ Hs) as (_ & (m & Hm & Hv & Hi) & _).
  rewrite Hm in Hd. cbn [mbind option_bind] in Hd.
  exists k, m. split; [exact Hm|]. split; [exact Hv|]. split; [exact Hi|].
  split_paths Hd; cbn [header metadata]; (split; [reflexivity|]); (split; [reflexivity|]).
  - left. auto.
  - right. auto.
  - right. auto.
Qed.

Lemma strcmp_sym_0 (a b : bytes) : strcmp a b = 0 -> strcmp b a = 0.
Proof. intros E. apply strcmp_0_iff. symmetry. apply strcmp_0_iff. exact E. Qed.

(** A slot that is free, or whose id no other slot in use holds, can
    replace a slot without breaking the uniqueness of ids, when the slot
    replaced was free or had the same id. *)
Lemma unique_ids_update (f f' : imgfs_file) (k : nat) (m0 m : img_metadata) :
  unique_ids f -> metadata f !! k = Some m0 ->
  metadata f' = <[k := m]> (metadata f) ->
  (is_valid m = 0
   \/ (forall j mj, j <> k -> metadata f !! j = Some mj -> is_valid mj <> 0 ->
         strcmp (img_id mj) (img_id m) <> 0)) ->
  unique_ids f'.
Proof.
  intros Hu Hk Hmd Hm i j mi mj Hi Hj Hvi Hvj Hs.
  pose proof (lookup_lt_Some _ _ _ Hk) as Hlt.
  rewrite Hmd in Hi, Hj.
  destruct (decide (i = k)) as [->|Hik], (decide (j = k)) as [->|Hjk]; [reflexivity| | |].
  - rewrite list_lookup_insert_eq in Hi by exact Hlt. injection Hi as <-.
    rewrite list_lookup_insert_ne in Hj by congruence.
    destruct Hm as [Hm|Hm]; [congruence|].
    exfalso. exact (Hm j mj Hjk Hj Hvj (strcmp_sym_0 _ _ Hs)).
  - rewrite list_lookup_insert_eq in Hj by exact Hlt. injection Hj as <-.
    rewrite list_lookup_insert_ne in Hi by congruence.
    destruct Hm as [Hm|Hm]; [congruence|].
    exfalso. exact (Hm i mi Hik Hi Hvi Hs).
  - rewrite list_lookup_insert_ne in Hi, Hj by congruence.
    exact (Hu i j mi mj Hi Hj Hvi Hvj Hs).
Qed.

Lemma unique_ids_same_id (f f' : imgfs_file) (k : nat) (m0 m : img_metadata) :
  unique_ids f -> metadata f !! k = Some m0 ->
  metadata f' = <[k := m]> (metadata f) ->
  img_id m = img_id m0 -> is_valid m = is_valid m0 ->
  unique_ids f'.
Proof.
  intros Hu Hk Hmd Eid Ev.
  destruct (decide (is_valid m = 0)) as [Hz|Hnz].
  - apply (unique_ids_update f f' k m0 m); auto.
  - apply (unique_ids_update f f' k m0 m); auto. right.
    intros j mj Hjk Hj Hvj Hs. apply Hjk.
    apply (Hu j k mj m0 Hj Hk Hvj); congruence.
Qed.

Lemma unique_ids_ext (f f' : imgfs_file) :
  metadata f' = metadata f -> unique_ids f -> unique_ids f'.
Proof. unfold unique_ids. intros ->. auto. Qed.

(** X6.  The header count stays the number of slots in use: on a table of
    [max_files] slots whose header counts the slots in use, every insert,
    delete and read leaves such a table, in every outcome and every
    environment; the one exception is a delete that fails with [ERR_IO]. *)
Theorem perform_keeps_count (r : request) (f f' : imgfs_file) (e : error_code) :
  max_files (header f) <= UINT32_MAX ->
  length (metadata f) = Z.to_nat (max_files (header f)) ->
  counted f ->
  perform r f = Some (e, f') ->
  (forall id, r = Delete id -> e <> ERR_IO) ->
  counted f'.
Proof.
  intros Hmax Hlen Hc Hp Hio. unfold counted in *.
  pose proof (count_valid_le (metadata f)) as Hle.
  destruct r as [B id|id|id res]; cbn [perform] in Hp.
  - destruct (insert_inv _ _ _ _ _ Hmax Hlen Hp)
      as [[-> _]|(k & m0 & _ & Hm0 & Hv0 & Hfull & _ & [(_ & Hmd & Hnb)|(m & Hmd & _ & _ & Hv & Hnb & _)])];
      [exact Hc| |].
    + rewrite Hnb, Hmd.
      pose proof (count_valid_insert (metadata f) k m0 zero_metadata Hm0) as Hcnt.
      cbn [is_valid zero_metadata] in Hcnt.
      destruct (decide (is_valid m0 <> 0)); [congruence|].
      destruct (decide (0 <> 0)); [congruence|].
      rewrite (to_uint32_small (nb_files (header f) + 1)) by (unfold UINT32_MAX in *; lia).
      rewrite to_uint32_small by (unfold UINT32_MAX in *; lia). lia.
    + rewrite Hnb, Hmd.
      pose proof (count_valid_insert (metadata f) k m0 m Hm0) as Hcnt.
      destruct (decide (is_valid m0 <> 0)); [congruence|].
      destruct (decide (is_valid m <> 0)); [|rewrite Hv in *; exfalso; auto].
      rewrite to_uint32_small by (unfold UINT32_MAX in *; lia). lia.
  - destruct (delete_inv _ _ _ _ Hp)
      as [[_ ->]|(k & m & Hm & Hv & _ & Hmd & _ & [[-> _]|[_ Hnb]])];
      [exact Hc|exfalso; exact (Hio id eq_refl eq_refl)|].
    rewrite Hnb, Hmd.
    pose proof (count_valid_insert (metadata f) k m (set_is_valid m EMPTY) Hm) as Hcnt.
    cbn [is_valid set_is_valid] in Hcnt.
    destruct (decide (is_valid m <> 0)); [|exfalso; auto].
    destruct (decide (EMPTY <> 0)) as [Hx|_]; [exfalso; apply Hx; reflexivity|].
    rewrite to_uint32_small by (unfold UINT32_MAX in *; lia). lia.
  - apply fmap_Some in Hp as (x & Hr & Hx). injection Hx as -> ->.
    destruct (read_inv _ _ _ _ Hr) as (Hh & [Hmd|(k & m & off & sz & Hm & _ & Hmd)]);
      rewrite Hh, Hmd; [exact Hc|].
    pose proof (count_valid_insert (metadata f) k m (set_size (set_offset m res off) res sz) Hm)
      as Hcnt.
    cbn [is_valid set_size set_offset] in Hcnt. lia.
Qed.

(** X7.  Ids stay unique: on a table of [max_files] slots where no two
    slots in use hold the same id, every delete and read, and every insert
    of a blob whose dimensions [get_resolution] reads, leaves such a table,
    in every outcome and every environment.  (When [get_resolution] fails
    the new slot stays in use before its id was compared.) *)
Theorem perform_keeps_unique_ids (r : request) (f f' : imgfs_file) (e : error_code) :
  max_files (header f) <= UINT32_MAX ->
  length (metadata f) = Z.to_nat (max_files (header f)) ->
  unique_ids f ->
  perform r f = Some (e, f') ->
  (forall B id, r = Insert B id -> (get_resolution B).1 = ERR_NONE) ->
  unique_ids f'.
Proof.
  intros Hmax Hlen Hu Hp Hres.
  destruct r as [B id|id|id res]; cbn [perform] in Hp.
  - specialize (Hres B id eq_refl).
    destruct (insert_inv _ _ _ _ _ Hmax Hlen Hp)
      as [[-> _]|(k & m0 & _ & Hm0 & Hv0 & _ & _
                  & [(_ & Hmd & _)|(m & Hmd & Eid & _ & _ & _ & [[He1 He2]|[_ Hno]])])].
    + exact Hu.
    + apply (unique_ids_update f f' k m0 zero_metadata); auto.
    + congruence.
    + apply (unique_ids_update f f' k m0 m); auto. right. rewrite Eid. exact Hno.
  - destruct (delete_inv _ _ _ _ Hp) as [[_ ->]|(k & m & Hm & _ & _ & Hmd & _)];
      [exact Hu|].
    apply (unique_ids_update f f' k m (set_is_valid m EMPTY)); auto.
  - apply fmap_Some in Hp as (x & Hr & Hx). injection Hx as -> ->.
    destruct (read_inv _ _ _ _ Hr) as (_ & [Hmd|(k & m & off & sz & Hm & _ & Hmd)]).
    + exact (unique_ids_ext _ _ Hmd Hu).
    + apply (unique_ids_same_id f (rd_state x) k m _ Hu Hm Hmd); reflexivity.
Qed.

(** X8.  The shape of the table is fixed at creation: every insert,
    delete and read, in every outcome and every environment, keeps the
    capacity, the number of slots and the two flag values. *)
Theorem perform_keeps_table_shape (r : request) (f f' : imgfs_file) (e : error_code) :
  max_files (header f) <= UINT32_MAX ->
  length (metadata f) = Z.to_nat (max_files (header f)) ->
  flags_ok f ->
  perform r f = Some (e, f') ->
  max_files (header f') = max_files (header f)
  /\ length (metadata f') = length (metadata f)
  /\ flags_ok f'.
Proof.
  intros Hmax Hlen Hfl Hp.
  assert (Hupd : forall k m, metadata f' = <[k := m]> (metadata f) ->
            is_valid m = EMPTY \/ is_valid m = NON_EMPTY ->
            length (metadata f') = length (metadata f) /\ flags_ok f').
  { intros k m Hmd Hv. split; [rewrite Hmd; apply length_insert|].
    intros j mj Hj. rewrite Hmd in Hj.
    apply list_lookup_insert_Some in Hj as [(_ & <- & _)|[_ Hj]]; [exact Hv|].
    exact (Hfl _ _ Hj). }
  destruct r as [B id|id|id res]; cbn [perform] in Hp.
  - destruct (insert_inv _ _ _ _ _ Hmax Hlen Hp)
      as [[-> _]|(k & m0 & _ & _ & _ & _ & Hmx
                  & [(_ & Hmd & _)|(m & Hmd & _ & _ & Hv & _)])]; [auto| |].
    + split; [exact Hmx|]. apply (Hupd k zero_metadata Hmd). left. reflexivity.
    + split; [exact Hmx|]. apply (Hupd k m Hmd). auto.
  - destruct (delete_inv _ _ _ _ Hp) as [[_ ->]|(k & m & _ & _ & _ & Hmd & Hmx & _)];
      [auto|].
    split; [exact Hmx|]. apply (Hupd k _ Hmd). left. reflexivity.
  - apply fmap_Some in Hp as (x & Hr & Hx). injection Hx as -> ->.
    destruct (read_inv _ _ _ _ Hr) as (Hh & [Hmd|(k & m & off & sz & Hm & _ & Hmd)]).
    + rewrite Hh. split; [reflexivity|]. split; [rewrite Hmd; reflexivity|].
      intros j mj Hj. rewrite Hmd in Hj. exact (Hfl _ _ Hj).
    + rewrite Hh. split; [reflexivity|]. apply (Hupd k _ Hmd).
      cbn [is_valid set_size set_offset]. exact (Hfl _ _ Hm).
Qed.

End Invariants.

(** ** Reading at a small resolution *)

Section ReadVariant.
Context `{ImgLib} `{Layout}.

Lemma res_cases (r : Z) : 0 <= r <= 2 -> r = 0 \/ r = 1 \/ r = 2.
Proof. lia. Qed.

Lemma get3_set3_same (a : arr3) (r v : Z) : 0 <= r <= 2 -> get3 (set3 a r v) r = Some v.
Proof.
  intros Hr. destruct a as [[x y] z].
  destruct (res_cases r Hr) as [-> | [-> | ->]]; reflexivity.
Qed.

Lemma get3_set3_other (a : arr3) (r r' v : Z) :
  r <> r' -> get3 (set3 a r v) r' = get3 a r'.
Proof.
  intros Hr. destruct a as [[x y] z]. unfold set3, get3.
  destruct (r =? 0) eqn:E0; [apply Z.eqb_eq in E0; subst r;
    replace (r' =? 0) with false by (symmetry; apply Z.eqb_neq; lia); reflexivity|].
  destruct (r =? 1) eqn:E1; [apply Z.eqb_eq in E1; subst r;
    replace (r' =? 1) with false by (symmetry; apply Z.eqb_neq; lia); reflexivity|].
  destruct (r =? 2) eqn:E2; [apply Z.eqb_eq in E2; subst r;
    replace (r' =? 2) with false by (symmetry; apply Z.eqb_neq; lia); reflexivity|].
  reflexivity.
Qed.

Lemma get3_in_range (a : arr3) (r : Z) : 0 <= r <= 2 -> exists v, get3 a r = Some v.
Proof.
  intros Hr. destruct a as [[x y] z].
  destruct (res_cases r Hr) as [-> | [-> | ->]]; eexists; reflexivity.
Qed.

(** Reading a resolution that the slot already has: the bytes are
    delivered and only the file position moves. *)
Lemma read_variant (T id : bytes) (r : Z) (f : imgfs_file) (k : nat) (m : img_metadata) :
  faults (file f) = [] ->
  (Z.to_nat (max_files (header f)) <= length (metadata f))%nat ->
  (k < Z.to_nat (max_files (header f)))%nat ->
  metadata f !! k = Some m -> is_valid m = NON_EMPTY -> strcmp (img_id m) id = 0 ->
  (forall j mj, (j < k)%nat -> metadata f !! j = Some mj ->
     is_valid mj = NON_EMPTY -> strcmp (img_id mj) id <> 0) ->
  T <> [] -> flen (file f) < 2 ^ 63 ->
  variant_at f m r T ->
  exists p,
    do_read id r f
    = Some (mk_read_result ERR_NONE T (Z.of_nat (length T))
              (mk_imgfs_file (mkFILE (contents (file f)) p []) (header f) (metadata f))).
Proof.
  intros Hfaults Hlen Hk Hm Hv Hs Hbefore HT Hflen (off & Hoff & Hsz & Hpos & Hend & Hblob).
  assert (HTl : 0 < Z.of_nat (length T)) by (destruct T; [congruence|cbn [length]; lia]).
  unfold do_read.
  rewrite (find_pos_by_id_found _ _ _ 0 k m); auto; try lia;
    [|intros j mj Hj; apply Hbefore; lia].
  cbn [mbind option_bind].
  replace (Z.of_nat k =? -1) with false by (symmetry; apply Z.eqb_neq; lia).
  rewrite (tbl_get_Some _ _ m) by (rewrite ?Nat2Z.id; auto; lia).
  cbn [mbind option_bind]. rewrite Hoff, Hsz. cbn [mbind option_bind].
  replace (off =? 0) with false by (symmetry; apply Z.eqb_neq; lia).
  replace (Z.of_nat (length T) =? EMPTY) with false
    by (symmetry; apply Z.eqb_neq; unfold EMPTY; lia).
  cbn [orb]. rewrite andb_false_r. cbn [mbind option_bind].
  rewrite bool_decide_eq_false_2 by (intros E; apply E; reflexivity).
  rewrite (tbl_get_Some _ _ m) by (rewrite ?Nat2Z.id; auto; lia).
  cbn [mbind option_bind]. rewrite Hoff, Hsz. cbn [mbind option_bind].
  unfold flen in *.
  rewrite to_long_small by lia.
  rewrite fseek_set_ok' by (auto; lia). cbn [negb Z.eqb].
  rewrite fread_ok by lia. cbn [negb Z.eqb Pos.eqb].
  unfold blob_at in Hblob. rewrite Hblob. eauto.
Qed.

(** [lazily_resize] on a slot below the header count that has no variant at
    [r] yet: the original is loaded, scaled to the width the header gives
    for [r] and saved; the bytes are appended to the file and the slot,
    which records them, is written back. *)
Lemma lazily_resize_creates (r : Z) (f : imgfs_file) (k : nat) (m : img_metadata)
    (B T : bytes) (img img' : VipsImage) (w : Z) :
  well_formed f -> flen (file f) + Z.of_nat (length T) < 2 ^ 63 ->
  metadata f !! k = Some m -> Z.of_nat k < nb_files (header f) ->
  r = THUMB_RES \/ r = SMALL_RES ->
  get3 (size m) r = Some 0 ->
  B <> [] -> stores f m B ->
  vips_jpegload_buffer B = Some img ->
  resized_res (header f) !! Z.to_nat (2 * r) = Some w ->
  vips_thumbnail_image img w = Some img' ->
  vips_jpegsave_buffer img' = Some T ->
  T <> [] -> Z.of_nat (length T) <= UINT32_MAX ->
  exists p,
    lazily_resize r f (Z.of_nat k)
    = Some (ERR_NONE,
            mk_imgfs_file
              (mkFILE (write_at (contents (file f) ++ T)
                         (Z.to_nat (sizeof_imgfs_header + Z.of_nat k * sizeof_img_metadata))
                         (encode_metadata
                            (with_variant m r (flen (file f)) (Z.of_nat (length T)))))
                      p [])
              (header f)
              (<[k := with_variant m r (flen (file f)) (Z.of_nat (length T))]> (metadata f))).
Proof.
  intros [Hfaults Hmax Hnb0 Htable Hprefix] Hflen Hm Hknb Hr Hsz0 HB (Hs1 & Hs2 & Hs3 & Hs4)
         Hload Hw Hthumb Hsave HT HTmax.
  pose proof sizeof_imgfs_header_pos as Hsh. pose proof sizeof_img_metadata_pos as Hsm.
  pose proof (lookup_lt_Some _ _ _ Hm) as Hk.
  assert (HBl : 0 < Z.of_nat (length B)) by (destruct B; [congruence|cbn [length]; lia]).
  assert (HTl : 0 < Z.of_nat (length T)) by (destruct T; [congruence|cbn [length]; lia]).
  unfold prefix_size in *.
  assert (Hslot : sizeof_imgfs_header + Z.of_nat k * sizeof_img_metadata + sizeof_img_metadata
                  <= sizeof_imgfs_header + max_files (header f) * sizeof_img_metadata) by nia.
  unfold lazily_resize.
  replace ((r <? THUMB_RES) || (ORIG_RES <? r)) with false
    by (destruct Hr as [-> | ->]; reflexivity).
  replace (nb_files (header f) <=? Z.of_nat k) with false by (symmetry; apply Z.leb_gt; lia).
  rewrite (tbl_get_Some _ _ m) by (rewrite ?Nat2Z.id; auto; lia).
  cbn [mbind option_bind]. rewrite Hsz0. cbn [mbind option_bind].
  change (negb (0 =? EMPTY)) with false. cbv iota.
  replace (r =? ORIG_RES) with false by (destruct Hr as [-> | ->]; reflexivity).
  change (default 0 (get3 (offset m) ORIG_RES)) with (orig_offset m).
  change (default 0 (get3 (size m) ORIG_RES)) with (orig_size m).
  unfold flen in *.
  rewrite to_long_small by lia.
  rewrite fseek_set_ok' by (auto; lia). cbn [negb Z.eqb].
  rewrite fread_ok by lia. cbn [negb Z.eqb Pos.eqb].
  unfold blob_at in Hs4. rewrite Hs4, Hload, Hw. cbn [mbind option_bind].
  rewrite Hthumb, Hsave.
  rewrite fseek_end_ok. cbn [negb Z.eqb].
  rewrite ftell_ok.
  rewrite to_uint64_small by lia.
  replace (Z.of_nat (length (contents (file f))) =? to_uint64 (-1)) with false
    by (symmetry; apply Z.eqb_neq; change (to_uint64 (-1)) with (2 ^ 64 - 1); lia).
  rewrite fwrite_ok by exact HT. cbn [negb Z.eqb Pos.eqb].
  rewrite Nat2Z.id, write_at_end.
  rewrite (to_uint32_small (Z.of_nat (length T))) by lia.
  rewrite to_long_small by nia.
  rewrite fseek_set_ok by nia. cbn [negb Z.eqb].
  rewrite fwrite_ok by apply encode_metadata_nonempty.
  cbn [negb Z.eqb Pos.eqb]. rewrite Nat2Z.id.
  eexists. reflexivity.
Qed.

(** The first read at a small resolution, with what it leaves. *)
Lemma read_creates (id : bytes) (r : Z) (f : imgfs_file) (k : nat) (m : img_metadata)
    (B T : bytes) (img img' : VipsImage) (w : Z) :
  well_formed f -> flen (file f) + Z.of_nat (length T) < 2 ^ 63 ->
  metadata f !! k = Some m -> is_valid m = NON_EMPTY -> strcmp (img_id m) id = 0 ->
  (forall j mj, (j < k)%nat -> metadata f !! j = Some mj ->
     is_valid mj = NON_EMPTY -> strcmp (img_id mj) id <> 0) ->
  Z.of_nat k < nb_files (header f) ->
  r = THUMB_RES \/ r = SMALL_RES ->
  get3 (size m) r = Some 0 ->
  B <> [] -> stores f m B ->
  vips_jpegload_buffer B = Some img ->
  resized_res (header f) !! Z.to_nat (2 * r) = Some w ->
  vips_thumbnail_image img w = Some img' ->
  vips_jpegsave_buffer img' = Some T ->
  T <> [] -> Z.of_nat (length T) <= UINT32_MAX ->
  exists f1,
    do_read id r f = Some (mk_read_result ERR_NONE T (Z.of_nat (length T)) f1)
    /\ header f1 = header f
    /\ metadata f1 = <[k := with_variant m r (flen (file f)) (Z.of_nat (length T))]> (metadata f)
    /\ faults (file f1) = []
    /\ flen (file f1) = flen (file f) + Z.of_nat (length T)
    /\ drop (Z.to_nat (prefix_size f)) (contents (file f1))
       = drop (Z.to_nat (prefix_size f)) (contents (file f)) ++ T
    /\ variant_at f1 (with_variant m r (flen (file f)) (Z.of_nat (length T))) r T
    /\ stores f1 (with_variant m r (flen (file f)) (Z.of_nat (length T))) B.
Proof.
  intros Hwf Hflen Hm Hv Hs Hbefore Hknb Hr Hsz0 HB Hst Hload Hw Hthumb Hsave HT HTmax.
  destruct (lazily_resize_creates r f k m B T img img' w Hwf Hflen Hm Hknb Hr Hsz0 HB Hst
              Hload Hw Hthumb Hsave HT HTmax) as [p Hlz].
  destruct Hwf as [Hfaults Hmax Hnb0 Htable Hprefix].
  destruct Hst as (Hs1 & Hs2 & Hs3 & Hs4).
  pose proof sizeof_imgfs_header_pos as Hsh. pose proof sizeof_img_metadata_pos as Hsm.
  pose proof (lookup_lt_Some _ _ _ Hm) as Hk.
  assert (HTl : 0 < Z.of_nat (length T)) by (destruct T; [congruence|cbn [length]; lia]).
  assert (Hr02 : 0 <= r <= 2) by (destruct Hr as [-> | ->]; unfold THUMB_RES, SMALL_RES; lia).
  assert (Hrne : r <> ORIG_RES) by (destruct Hr as [-> | ->]; discriminate).
  unfold prefix_size, flen in *.
  set (d := contents (file f)) in *.
  set (m2 := with_variant m r (Z.of_nat (length d)) (Z.of_nat (length T))) in *.
  set (P := Z.to_nat (sizeof_imgfs_header + max_files (header f) * sizeof_img_metadata)).
  set (slot := Z.to_nat (sizeof_imgfs_header + Z.of_nat k * sizeof_img_metadata)) in *.
  pose proof (encode_metadata_length m2) as Lm.
  assert (Hslot : (slot + length (encode_metadata m2) <= P)%nat) by (unfold slot, P; nia).
  destruct (write_at_inside (d ++ T) (encode_metadata m2) slot P) as [L1 D1];
    [exact Hslot|rewrite length_app; lia|].
  destruct (write_at_inside (d ++ T) (encode_metadata m2) slot (length d)) as [_ D2];
    [lia|rewrite length_app; lia|].
  rewrite drop_app_length in D2.
  rewrite length_app in L1.
  assert (Hoff2 : get3 (offset m2) r = Some (Z.of_nat (length d)))
    by (apply get3_set3_same; exact Hr02).
  assert (Hsz2 : get3 (size m2) r = Some (Z.of_nat (length T)))
    by (apply get3_set3_same; exact Hr02).
  destruct (get3_in_range (offset m) r Hr02) as [off_r Hoffr].
  eexists. split.
  - unfold do_read.
    rewrite (find_pos_by_id_found _ _ _ 0 k m); auto; try lia;
      [|intros j mj Hj; apply Hbefore; lia].
    cbn [mbind option_bind].
    replace (Z.of_nat k =? -1) with false by (symmetry; apply Z.eqb_neq; lia).
    rewrite (tbl_get_Some _ _ m) by (rewrite ?Nat2Z.id; auto; lia).
    cbn [mbind option_bind]. rewrite Hoffr, Hsz0. cbn [mbind option_bind].
    replace (negb (r =? ORIG_RES)) with true
      by (destruct Hr as [-> | ->]; reflexivity).
    change (0 =? EMPTY) with true. rewrite orb_true_r. cbn [andb].
    rewrite Hlz. cbn [mbind option_bind].
    rewrite bool_decide_eq_false_2 by (intros E; apply E; reflexivity).
    cbn [metadata file header].
    rewrite (tbl_get_Some _ _ m2)
      by (rewrite ?Nat2Z.id; first [lia|apply list_lookup_insert_eq; exact Hk]).
    cbn [mbind option_bind]. rewrite Hsz2, Hoff2. cbn [mbind option_bind].
    rewrite to_long_small by lia.
    rewrite fseek_set_ok by lia. cbn [negb Z.eqb].
    rewrite fread_ok by lia. cbn [negb Z.eqb Pos.eqb].
    rewrite !Nat2Z.id, D2, take_ge by lia. reflexivity.
  - cbn [header metadata file contents faults].
    split; [reflexivity|]. split; [reflexivity|]. split; [reflexivity|].
    split; [lia|]. split.
    { fold P. rewrite D1. apply drop_app_le. lia. }
    split.
    + exists (Z.of_nat (length d)). unfold flen, blob_at. cbn [file contents].
      split; [exact Hoff2|]. split; [exact Hsz2|]. split; [lia|]. split; [lia|].
      rewrite !Nat2Z.id, D2. apply take_ge. lia.
    + unfold stores, prefix_size, flen. cbn [header file contents].
      assert (Eo : orig_offset m2 = orig_offset m)
        by (unfold orig_offset, m2, with_variant; cbn [offset set_size set_offset];
            rewrite get3_set3_other by exact Hrne; reflexivity).
      assert (Es : orig_size m2 = orig_size m)
        by (unfold orig_size, m2, with_variant; cbn [size set_size set_offset];
            rewrite get3_set3_other by exact Hrne; reflexivity).
      rewrite Eo, Es. split; [exact Hs1|]. split; [lia|]. split; [exact Hs3|].
      rewrite <- Hs4.
      apply (blob_at_frame (mkFILE d 0 []) _
               (sizeof_imgfs_header + max_files (header f) * sizeof_img_metadata)).
      * nia.
      * lia.
      * unfold flen. cbn [contents]. lia.
      * cbn [contents]. fold P. rewrite D1, drop_app_le by lia.
        apply prefix_app_r. reflexivity.
Qed.

(** X9.  The first read of an image at a small resolution creates the
    variant, when the slot of the image lies below the header count.  On a
    well-formed database (no fault to come), for the first slot in use with
    the id, at an index below [nb_files] (the test of [lazily_resize]; an
    image behind a hole, at an index from [nb_files] on, is refused, see
    C5), that stores a non-empty original [B] and has size zero at the
    resolution [r], thumbnail or small: when the image library loads [B],
    resizes it to the width the header gives for [r] and saves it as the
    non-empty bytes [T], of fewer than 2^32 bytes, [do_read] returns [T];
    [T] is appended to the file, the slot records its place and size, and
    nothing else of the table changes. *)
Theorem read_creates_variant (id : bytes) (r : Z) (f : imgfs_file) (k : nat)
    (m : img_metadata) (B T : bytes) (img img' : VipsImage) (w : Z) :
  well_formed f -> flen (file f) + Z.of_nat (length T) < 2 ^ 63 ->
  metadata f !! k = Some m -> is_valid m = NON_EMPTY -> strcmp (img_id m) id = 0 ->
  (forall j mj, (j < k)%nat -> metadata f !! j = Some mj ->
     is_valid mj = NON_EMPTY -> strcmp (img_id mj) id <> 0) ->
  Z.of_nat k < nb_files (header f) ->
  r = THUMB_RES \/ r = SMALL_RES ->
  get3 (size m) r = Some 0 ->
  B <> [] -> stores f m B ->
  vips_jpegload_buffer B = Some img ->
  resized_res (header f) !! Z.to_nat (2 * r) = Some w ->
  vips_thumbnail_image img w = Some img' ->
  vips_jpegsave_buffer img' = Some T ->
  T <> [] -> Z.of_nat (length T) <= UINT32_MAX ->
  exists f1,
    do_read id r f = Some (mk_read_result ERR_NONE T (Z.of_nat (length T)) f1)
    /\ header f1 = header f
    /\ metadata f1 = <[k := with_variant m r (flen (file f)) (Z.of_nat (length T))]> (metadata f)
    /\ flen (file f1) = flen (file f) + Z.of_nat (length T)
    /\ drop (Z.to_nat (prefix_size f)) (contents (file f1))
       = drop (Z.to_nat (prefix_size f)) (contents (file f)) ++ T.
Proof.
  intros Hwf Hflen Hm Hv Hs Hbefore Hknb Hr Hsz0 HB Hst Hload Hw Hthumb Hsave HT HTmax.
  destruct (read_creates id r f k m B T img img' w Hwf Hflen Hm Hv Hs Hbefore Hknb Hr Hsz0
              HB Hst Hload Hw Hthumb Hsave HT HTmax)
    as (f1 & Hrd & Hh & Hmd & _ & Hl & Hd & _).
  exists f1. auto.
Qed.

(** X10.  Resizing is done once: after the first read at a small
    resolution, a second read of the same id and resolution returns the
    same bytes and leaves the table and the bytes of the file as they are,
    and the original is still read back. *)
Theorem read_variant_twice (id : bytes) (r : Z) (f : imgfs_file) (k : nat)
    (m : img_metadata) (B T : bytes) (img img' : VipsImage) (w : Z) :
  well_formed f -> flen (file f) + Z.of_nat (length T) < 2 ^ 63 ->
  metadata f !! k = Some m -> is_valid m = NON_EMPTY -> strcmp (img_id m) id = 0 ->
  (forall j mj, (j < k)%nat -> metadata f !! j = Some mj ->
     is_valid mj = NON_EMPTY -> strcmp (img_id mj) id <> 0) ->
  Z.of_nat k < nb_files (header f) ->
  r = THUMB_RES \/ r = SMALL_RES ->
  get3 (size m) r = Some 0 ->
  B <> [] -> stores f m B ->
  vips_jpegload_buffer B = Some img ->
  resized_res (header f) !! Z.to_nat (2 * r) = Some w ->
  vips_thumbnail_image img w = Some img' ->
  vips_jpegsave_buffer img' = Some T ->
  T <> [] -> Z.of_nat (length T) <= UINT32_MAX ->
  exists f1 f2 f3,
    do_read id r f = Some (mk_read_result ERR_NONE T (Z.of_nat (length T)) f1)
    /\ do_read id r f1 = Some (mk_read_result ERR_NONE T (Z.of_nat (length T)) f2)
    /\ header f2 = header f1 /\ metadata f2 = metadata f1
    /\ contents (file f2) = contents (file f1)
    /\ do_read id ORIG_RES f2
       = Some (mk_read_result ERR_NONE B (Z.of_nat (length B)) f3).
Proof.
  intros Hwf Hflen Hm Hv Hs Hbefore Hknb Hr Hsz0 HB Hst Hload Hw Hthumb Hsave HT HTmax.
  destruct (read_creates id r f k m B T img img' w Hwf Hflen Hm Hv Hs Hbefore Hknb Hr Hsz0
              HB Hst Hload Hw Hthumb Hsave HT HTmax)
    as (f1 & Hrd & Hh & Hmd & Hfa & Hl & Hd & Hvar & Hst1).
  destruct Hwf as [Hfaults Hmax Hnb0 Htable Hprefix].
  pose proof sizeof_imgfs_header_pos as Hsh. pose proof sizeof_img_metadata_pos as Hsm.
  pose proof (lookup_lt_Some _ _ _ Hm) as Hk.
  set (m2 := with_variant m r (flen (file f)) (Z.of_nat (length T))) in *.
  assert (Hk1 : metadata f1 !! k = Some m2)
    by (rewrite Hmd; apply list_lookup_insert_eq; exact Hk).
  assert (Hbefore1 : forall j mj, (j < k)%nat -> metadata f1 !! j = Some mj ->
            is_valid mj = NON_EMPTY -> strcmp (img_id mj) id <> 0).
  { intros j mj Hj Hmj. rewrite Hmd, list_lookup_insert_ne in Hmj by lia.
    exact (Hbefore j mj Hj Hmj). }
  assert (Hlen1 : (Z.to_nat (max_files (header f1)) <= length (metadata f1))%nat)
    by (rewrite Hh, Hmd, length_insert; lia).
  destruct (read_variant T id r f1 k m2) as [p Hrd2]; auto.
  { rewrite Hh. lia. }
  { lia. }
  set (f2 := mk_imgfs_file (mkFILE (contents (file f1)) p []) (header f1) (metadata f1)) in *.
  assert (exists f3, do_read id ORIG_RES f2
                     = Some (mk_read_result ERR_NONE B (Z.of_nat (length B)) f3))
    as [f3 Hrd3]; [|exists f1, f2, f3; auto 10].
  destruct (read_stored B id f2 k m2) as [f3 Hrd3].
  - reflexivity.
  - exact Hlen1.
  - unfold f2. cbn [header]. rewrite Hh. lia.
  - exact Hk1.
  - exact Hv.
  - exact Hs.
  - exact Hbefore1.
  - exact HB.
  - unfold f2, prefix_size. cbn [header]. rewrite Hh. nia.
  - unfold f2, flen in *. cbn [file contents]. lia.
  - destruct Hst1 as (S1 & S2 & S3 & S4). unfold stores, prefix_size, flen, blob_at in *.
    cbn [header file contents f2]. auto.
  - eauto.
Qed.

End ReadVariant.

(** ** The blobs are never overwritten *)

Section StdioInv.

Lemma next_fault_contents (f : FILE) :
  contents (next_fault f).2 = contents f /\ fpos (next_fault f).2 = fpos f.
Proof. unfold next_fault. destruct (faults f); auto. Qed.

Lemma fseek_inv (f f' : FILE) (o rc : Z) (w : whence) :
  fseek f o w = (rc, f') ->
  contents f' = contents f
  /\ (rc = 0 ->
      fpos f' = match w with SEEK_SET => o | SEEK_END => flen f + o end
      /\ 0 <= fpos f').
Proof.
  unfold fseek. pose proof (next_fault_contents f) as [C P].
  destruct (next_fault f) as [bad f1]. cbn [snd] in C, P. unfold flen. rewrite C.
  destruct (bad || _) eqn:Hc; intros E; injection E as <- <-.
  - split; [exact C|]. discriminate.
  - split; [reflexivity|]. intros _. cbn [fpos].
    apply orb_false_iff in Hc as [_ Hc]. apply Z.ltb_ge in Hc.
    destruct w; auto.
Qed.

Lemma ftell_inv (f f' : FILE) (t : Z) :
  ftell f = (t, f') -> contents f' = contents f /\ fpos f' = fpos f.
Proof.
  unfold ftell. pose proof (next_fault_contents f) as [C P].
  destruct (next_fault f) as [bad f1]. cbn [snd] in C, P.
  destruct bad; intros E; injection E as <- <-; auto.
Qed.

Lemma fwrite_inv (buf : bytes) (f f' : FILE) (w : Z) :
  fwrite buf f = (w, f') ->
  (w = 1 -> contents f' = write_at (contents f) (Z.to_nat (fpos f)) buf)
  /\ (w <> 1 -> contents f' = contents f).
Proof.
  unfold fwrite. pose proof (next_fault_contents f) as [C P].
  destruct (next_fault f) as [bad f1]. cbn [snd] in C, P.
  destruct (bad || _); intros E; injection E as <- <-.
  - split; [discriminate|auto].
  - cbn [contents]. rewrite C, P. split; [auto|congruence].
Qed.

Lemma fread_inv (f f' : FILE) (sz n : Z) (b : bytes) :
  fread sz f = (n, b, f') -> contents f' = contents f.
Proof.
  unfold fread. pose proof (next_fault_contents f) as [C P].
  destruct (next_fault f) as [bad f1]. cbn [snd] in C, P.
  destruct (bad || _); [|destruct (_ && _)]; intros E; injection E as <- <- <-; auto.
Qed.

Lemma grows_refl (P : nat) (d : bytes) : grows_from P d d.
Proof. split; reflexivity. Qed.

Lemma grows_trans (P : nat) (d1 d2 d3 : bytes) :
  grows_from P d1 d2 -> grows_from P d2 d3 -> grows_from P d1 d3.
Proof. intros [L1 D1] [L2 D2]. split; [lia|]. etrans; eauto. Qed.

Lemma grows_append (P : nat) (d buf : bytes) :
  (P <= length d)%nat -> grows_from P d (write_at d (length d) buf).
Proof.
  intros HP. rewrite write_at_end. split; [rewrite length_app; lia|].
  rewrite drop_app_le by exact HP. apply prefix_app_r. reflexivity.
Qed.

Lemma grows_inside (P p : nat) (d buf : bytes) :
  (p + length buf <= P)%nat -> (P <= length d)%nat -> grows_from P d (write_at d p buf).
Proof.
  intros Hp HP. destruct (write_at_inside d buf p P Hp HP) as [L D].
  split; [lia|rewrite D; reflexivity].
Qed.

Lemma grows_then_inside (P p : nat) (d X buf : bytes) :
  (p + length buf <= P)%nat -> (P <= length d)%nat ->
  grows_from P d X -> grows_from P d (write_at X p buf).
Proof.
  intros Hp HP G. apply (grows_trans P d X); [exact G|].
  apply grows_inside; [exact Hp|]. destruct G as [L _]. lia.
Qed.

End StdioInv.

(** What the calls of a path did to the stream. *)
Ltac stdio_inv :=
  repeat match goal with
         | E : fseek _ _ _ = (_, _) |- _ => apply fseek_inv in E as [? ?]
         | E : ftell _ = (_, _) |- _ => apply ftell_inv in E as [? ?]
         | E : fwrite _ _ = (_, _) |- _ => apply fwrite_inv in E as [? ?]
         | E : fread _ _ = (_, _, _) |- _ => apply fread_inv in E
         | E : negb (?z =? _) = false |- _ => apply negb_false_iff, Z.eqb_eq in E; subst z
         | E : negb (_ =? _) = true |- _ => apply negb_true_iff, Z.eqb_neq in E
         | Hx : ?c = ?c -> _ |- _ => specialize (Hx eq_refl)
         | Hx : ?a <> ?b -> _, E : ?a <> ?b |- _ => specialize (Hx E)
         | Hx : ?c <> ?c -> _ |- _ => clear Hx
         | Hx : _ /\ _ |- _ => destruct Hx
         end.

(** The contents and the position of the stream at the end of a path, in
    terms of the stream at its start. *)
Ltac chase_stream :=
  unfold flen in *;
  repeat match goal with
         | E : contents ?x = _ |- context [contents ?x] => rewrite E
         | E : fpos ?x = _ |- context [fpos ?x] => rewrite E
         end.

Section AppendOnly.
Context `{ImgLib} `{Layout}.

Lemma tbl_get_bounds (md : list img_metadata) (p : Z) (m : img_metadata) :
  tbl_get md p = Some m -> 0 <= p < Z.of_nat (length md) /\ md !! Z.to_nat p = Some m.
Proof.
  unfold tbl_get. destruct (0 <=? p) eqn:E1; [|discriminate].
  destruct (p <? Z.of_nat (length md)) eqn:E2; [|discriminate]. cbn [andb].
  apply Z.leb_le in E1. apply Z.ltb_lt in E2. auto.
Qed.

Lemma lazily_resize_grows (r : Z) (f f' : imgfs_file) (p : Z) (e : error_code) :
  length (metadata f) = Z.to_nat (max_files (header f)) ->
  prefix_size f <= flen (file f) -> flen (file f) < 2 ^ 63 ->
  lazily_resize r f p = Some (e, f') ->
  grows_from (Z.to_nat (prefix_size f)) (contents (file f)) (contents (file f')).
Proof.
  intros Htable Hprefix Hflen Hl. unfold lazily_resize in Hl.
  pose proof sizeof_imgfs_header_pos as Hsh. pose proof sizeof_img_metadata_pos as Hsm.
  split_paths Hl; try discriminate; cbn [file contents]; try apply grows_refl.
  all: match goal with
       | Hg : tbl_get _ _ = Some _ |- _ => apply tbl_get_bounds in Hg as [Hp _]
       end.
  all: stdio_inv; unfold prefix_size in *; chase_stream; try apply grows_refl.
  all: rewrite ?Z.add_0_r, ?Nat2Z.id.
  all: try (apply grows_append; lia).
  all: eapply grows_trans; [apply grows_append; lia|].
  all: apply grows_inside; [|rewrite write_at_end, length_app; lia].
  all: match goal with
       | |- context [encode_metadata ?m] => pose proof (encode_metadata_length m)
       end.
  all: rewrite to_long_small by nia; nia.
Qed.

Lemma read_grows (id : bytes) (r : Z) (f : imgfs_file) (res : read_result) :
  length (metadata f) = Z.to_nat (max_files (header f)) ->
  prefix_size f <= flen (file f) -> flen (file f) < 2 ^ 63 ->
  do_read id r f = Some res ->
  grows_from (Z.to_nat (prefix_size f)) (contents (file f))
             (contents (file (rd_state res))).
Proof.
  intros Htable Hprefix Hflen Hr. unfold do_read in Hr.
  apply bind_Some in Hr as (pos & Hpos & Hr).
  destruct (pos =? -1); [injection Hr as <-; apply grows_refl|].
  apply bind_Some in Hr as (m & Hm & Hr).
  apply bind_Some in Hr as (off_r & Hoff & Hr).
  apply bind_Some in Hr as (size_r & Hsz & Hr).
  apply bind_Some in Hr as ([e1 f1] & Hl & Hr).
  assert (Hg : grows_from (Z.to_nat (prefix_size f)) (contents (file f)) (contents (file f1))).
  { destruct (negb (r =? ORIG_RES) && ((off_r =? 0) || (size_r =? EMPTY)));
      [|injection Hl as <- <-; apply grows_refl].
    exact (lazily_resize_grows _ _ _ _ _ Htable Hprefix Hflen Hl). }
  split_paths Hr; try discriminate; cbn [rd_state file contents]; try exact Hg.
  all: stdio_inv; chase_stream; exact Hg.
Qed.

Lemma insert_grows (B id : bytes) (f f' : imgfs_file) (e : error_code) :
  max_files (header f) <= UINT32_MAX ->
  length (metadata f) = Z.to_nat (max_files (header f)) ->
  prefix_size f <= flen (file f) -> flen (file f) < 2 ^ 63 ->
  do_insert B id f = Some (e, f') ->
  grows_from (Z.to_nat (prefix_size f)) (contents (file f)) (contents (file f')).
Proof.
  intros Hmax Htable Hprefix Hflen Hi.
  pose proof sizeof_imgfs_header_pos as Hsh. pose proof sizeof_img_metadata_pos as Hsm.
  unfold do_insert in Hi.
  destruct (Z.of_nat (length B) =? 0); [injection Hi as <- <-; apply grows_refl|].
  destruct (max_files (header f) <=? nb_files (header f)) eqn:Hfull;
    [injection Hi as <- <-; apply grows_refl|].
  apply bind_Some in Hi as (free_index & Hfree & Hi).
  apply bind_Some in Hi as (m0 & Hget & Hi).
  apply tbl_get_bounds in Hget as [Hidx _].
  set (index := to_uint32 free_index) in *. clearbody index.
  destruct (get_resolution B) as [err [height width]].
  case_bool_decide; [injection Hi as <- <-; apply grows_refl|].
  apply bind_Some in Hi as ([e3 f3] & Hd & Hi).
  apply dedup_frame in Hd as (Hh3 & Hfl3 & _). cbn [header file] in Hh3, Hfl3.
  split_paths Hi; try discriminate; cbn [file contents]; rewrite ?Hfl3; try apply grows_refl.
  all: repeat match goal with
              | Hx : _ = inl _ |- _ => progress split_sum Hx
              | Hx : _ = inr _ |- _ => progress split_sum Hx
              end.
  all: rewrite ?Hfl3 in *.
  all: stdio_inv; unfold prefix_size in *; chase_stream; try apply grows_refl.
  all: rewrite ?Z.add_0_r, ?Nat2Z.id; change (Z.to_nat 0) with 0%nat.
  all: repeat match goal with
              | |- context [encode_metadata ?m] =>
                  lazymatch goal with
                  | _ : Z.of_nat (length (encode_metadata m)) = _ |- _ => fail
                  | _ => pose proof (encode_metadata_length m)
                  end
              | |- context [encode_header ?h] =>
                  lazymatch goal with
                  | _ : Z.of_nat (length (encode_header h)) = _ |- _ => fail
                  | _ => pose proof (encode_header_length h)
                  end
              end.
  all: rewrite ?to_long_small by nia.
  all: repeat first [ apply grows_refl
                    | apply grows_append; lia
                    | apply grows_then_inside; [nia|lia|] ].
Qed.

(** X11.  Stored blobs are never overwritten: on a table of [max_files]
    slots that lies inside the file, an insert or a read, in every outcome
    and whatever the environment lets fail, leaves every byte after the
    table where it was; the file can only have grown at its end. *)
Theorem insert_and_read_append_only (r : request) (f f' : imgfs_file) (e : error_code) :
  max_files (header f) <= UINT32_MAX ->
  length (metadata f) = Z.to_nat (max_files (header f)) ->
  prefix_size f <= flen (file f) -> flen (file f) < 2 ^ 63 ->
  (forall id, r <> Delete id) ->
  perform r f = Some (e, f') ->
  flen (file f) <= flen (file f')
  /\ drop (Z.to_nat (prefix_size f)) (contents (file f))
     `prefix_of` drop (Z.to_nat (prefix_size f)) (contents (file f')).
Proof.
  intros Hmax Htable Hprefix Hflen Hr Hp.
  assert (G : grows_from (Z.to_nat (prefix_size f)) (contents (file f)) (contents (file f'))).
  { destruct r as [B id|id|id res]; cbn [perform] in Hp.
    - exact (insert_grows _ _ _ _ _ Hmax Htable Hprefix Hflen Hp).
    - exfalso. exact (Hr id eq_refl).
    - apply fmap_Some in Hp as (x & Hx & E). injection E as -> ->.
      exact (read_grows _ _ _ _ Htable Hprefix Hflen Hx). }
  destruct G as [L D]. split; [unfold flen; lia|exact D].
Qed.

End AppendOnly.

(** ** Creating a database, and listing it *)

Section CreateList.
Context `{ImgLib} `{Layout}.

Lemma table_bytes_length (md : list img_metadata) :
  Z.of_nat (length (table_bytes md)) = Z.of_nat (length md) * sizeof_img_metadata.
Proof.
  unfold table_bytes. induction md as [|m md IH]; [reflexivity|].
  rewrite fmap_cons.
  change (mjoin (encode_metadata m :: (encode_metadata <$> md)))
    with (encode_metadata m ++ mjoin (encode_metadata <$> md)).
  rewrite length_app.
  pose proof (encode_metadata_length m) as Lm. cbn [length].
  rewrite Nat2Z.inj_add, Nat2Z.inj_succ, IH, Lm. lia.
Qed.



(** The state [do_create] leaves when nothing fails. *)
Lemma create_state (CAT_TXT : bytes) (MAX_IMGFS_NAME : nat) (f : imgfs_file) :
  0 <= max_files (header f) ->
  let h1 := mk_header (<[MAX_IMGFS_NAME := NUL]>
                         (strncpy (name (header f)) CAT_TXT MAX_IMGFS_NAME))
                      0 0 (max_files (header f)) (resized_res (header f)) in
  let md := replicate (Z.to_nat (max_files (header f))) zero_metadata in
  do_create CAT_TXT MAX_IMGFS_NAME [] true f
  = (ERR_NONE,
     mk_created
       (Some (mk_wb_stream
                (mkFILE (encode_header h1 ++ table_bytes md)
                   (sizeof_imgfs_header + max_files (header f) * sizeof_img_metadata) [])))
       h1 md,
     str "1 item(s) written" ++ [ascii_of_nat 10]).
Proof.
  intros Hmx h1 md. unfold do_create. cbn [fopen_wb negb wb_file].
  change (set_nb_files (set_version _ 0) 0) with h1.
  cbn [max_files h1]. fold md.
  rewrite fwrite_ok by apply encode_header_nonempty.
  cbn [negb Z.eqb Pos.eqb]. change (Z.to_nat 0) with 0%nat.
  replace (write_at [] 0 (encode_header h1)) with (encode_header h1)
    by (symmetry; apply (write_at_end [])).
  pose proof (encode_header_length h1) as Lh.
  pose proof (table_bytes_length md) as Lt.
  unfold md in Lt at 2. rewrite length_replicate, Z2Nat.id in Lt by lia.
  pose proof sizeof_img_metadata_pos as Hsm.
  unfold fwrite_items, next_fault. cbn [faults contents fpos orb].
  destruct (max_files (header f) =? 0) eqn:Hz.
  - apply Z.eqb_eq in Hz. rewrite orb_true_r. cbn [negb].
    rewrite Hz. cbn [negb Z.eqb].
    assert (Emd : table_bytes md = []).
    { unfold md. rewrite Hz. reflexivity. }
    rewrite Emd, app_nil_r.
    do 6 f_equal. lia.
  - apply Z.eqb_neq in Hz. rewrite orb_false_r.
    replace (Z.of_nat (length (table_bytes md)) =? 0) with false
      by (symmetry; apply Z.eqb_neq; nia).
    rewrite Z.eqb_refl. cbn [negb].
    rewrite Z.add_0_l, Lh.
    replace (Z.to_nat sizeof_imgfs_header) with (length (encode_header h1)) by lia.
    rewrite write_at_end.
    do 6 f_equal. lia.
Qed.

Lemma create_gives_empty_state (CAT_TXT : bytes) (MAX_IMGFS_NAME : nat) (f : imgfs_file) :
  0 <= max_files (header f) <= UINT32_MAX ->
  exists c f1,
    do_create CAT_TXT MAX_IMGFS_NAME [] true f
    = (ERR_NONE, c, str "1 item(s) written" ++ [ascii_of_nat 10])
    /\ reopened c = Some f1
    /\ version (header f1) = 0 /\ nb_files (header f1) = 0
    /\ max_files (header f1) = max_files (header f)
    /\ metadata f1 = replicate (Z.to_nat (max_files (header f))) zero_metadata
    /\ flen (file f1) = prefix_size f1
    /\ well_formed f1.
Proof.
  intros Hmx. eexists _, _. split; [apply create_state; lia|].
  split; [reflexivity|].
  cbn [header metadata file contents version nb_files max_files resized_res
       cr_header cr_metadata wb_file].
  set (h1 := mk_header _ 0 0 _ _). set (md := replicate _ zero_metadata).
  pose proof (encode_header_length h1) as Lh.
  pose proof (table_bytes_length md) as Lt.
  unfold md in Lt at 2. rewrite length_replicate, Z2Nat.id in Lt by lia.
  assert (Hlen : flen (mkFILE (encode_header h1 ++ table_bytes md) 0 [])
                 = sizeof_imgfs_header + max_files (header f) * sizeof_img_metadata).
  { unfold flen. cbn [contents]. rewrite length_app. lia. }
  repeat (split; [reflexivity|]).
  split; [exact Hlen|].
  constructor; cbn [header metadata file faults].
  - reflexivity.
  - unfold h1. cbn [max_files]. lia.
  - unfold h1. cbn [nb_files]. lia.
  - unfold md, h1. cbn [max_files]. apply length_replicate.
  - unfold prefix_size. cbn [header]. unfold h1 at 1. cbn [max_files]. lia.
Qed.


(** X13.  The file [do_create] writes is ready for use once it is opened
    again for reading and writing (the stream [do_create] itself leaves is
    write-only): with a capacity of at least one, a first insert of a blob
    whose dimensions can be read succeeds under every id, the blob is
    appended straight after the table, and it is read back under the stored
    form of the id (the id cut to [MAX_IMG_ID] bytes). *)
Theorem create_insert_read (CAT_TXT : bytes) (MAX_IMGFS_NAME : nat) (f : imgfs_file)
    (B id : bytes) (hw : Z * Z) :
  0 < max_files (header f) <= UINT32_MAX ->
  B <> [] -> Z.of_nat (length B) <= UINT32_MAX ->
  get_resolution B = (ERR_NONE, hw) ->
  sizeof_imgfs_header + max_files (header f) * sizeof_img_metadata + Z.of_nat (length B)
  < 2 ^ 63 ->
  exists c out f1 f2 f3,
    do_create CAT_TXT MAX_IMGFS_NAME [] true f = (ERR_NONE, c, out)
    /\ reopened c = Some f1
    /\ do_insert B id f1 = Some (ERR_NONE, f2)
    /\ nb_files (header f2) = 1 /\ version (header f2) = 1
    /\ flen (file f2) = prefix_size f1 + Z.of_nat (length B)
    /\ do_read (take MAX_IMG_ID (cstr id)) ORIG_RES f2
       = Some (mk_read_result ERR_NONE B (Z.of_nat (length B)) f3).
Proof.
  intros Hmx HB HBmax Hres Hsize.
  destruct (create_gives_empty_state CAT_TXT MAX_IMGFS_NAME f ltac:(lia))
    as (c & f1 & Hc & Hopen & Hver & Hnb & Hmf & Hmd & Hlen & Hwf).
  pose proof (length_cstr_cut id) as Hid.
  assert (Hcut : do_insert B id f1 = do_insert B (take MAX_IMG_ID (cstr id)) f1)
    by apply do_insert_cut.
  set (sid := take MAX_IMG_ID (cstr id)) in *.
  assert (Hfree : forall j m, metadata f1 !! j = Some m -> is_valid m = 0).
  { intros j m Hj. rewrite Hmd in Hj. apply lookup_replicate in Hj as [-> _]. reflexivity. }
  assert (Hfresh : fresh_id f1 sid).
  { intros j m Hj Hv. exfalso. apply Hv. exact (Hfree j m Hj). }
  assert (Hps : prefix_size f1
                = sizeof_imgfs_header + max_files (header f) * sizeof_img_metadata)
    by (unfold prefix_size; rewrite Hmf; reflexivity).
  destruct (insert_fresh B sid f1 0 hw Hwf HB HBmax Hres) as (k & m & f2 & Hi & I).
  - lia.
  - split; [lia|]. exists zero_metadata. split; [|reflexivity].
    rewrite Hmd. apply lookup_replicate. split; [reflexivity|lia].
  - lia.
  - exact Hid.
  - exact Hfresh.
  - intros j m Hj Hv. exfalso. apply Hv. exact (Hfree j m Hj).
  - destruct (read_back B sid f1 k m f2 Hwf HB Hid Hfresh) as [f3 Hr].
    + lia.
    + lia.
    + exact I.
    + exists c, (str "1 item(s) written" ++ [ascii_of_nat 10]), f1, f2, f3.
      split; [exact Hc|]. split; [exact Hopen|]. split; [rewrite Hcut; exact Hi|].
      rewrite (ins_header _ _ _ _ _ _ I). cbn [nb_files version set_version set_nb_files].
      rewrite Hver, Hnb. split; [reflexivity|]. split; [reflexivity|].
      split; [|exact Hr].
      destruct (ins_blob _ _ _ _ _ _ I) as [Sh|Ap].
      * exfalso. destruct Sh as (j & mj & _ & Hj & Hv & _). apply Hv. exact (Hfree j mj Hj).
      * destruct Ap as (Hl & _). lia.
Qed.

Lemma list_loop_spec {A : Type} (item : img_metadata -> A) (md : list img_metadata)
    (n : nat) :
  forall i, (i + n <= length md)%nat ->
    list_loop item md n i
    = Some (item <$> filter (fun m => is_valid m <> 0) (take n (drop i md))).
Proof.
  induction n as [|n IH]; intros i Hlen; cbn [list_loop]; [reflexivity|].
  destruct (md !! i) as [m|] eqn:Hm; [|apply lookup_ge_None in Hm; lia].
  cbn [mbind option_bind]. rewrite IH by lia. cbn [mbind option_bind].
  rewrite (drop_S _ _ _ Hm). cbn [take]. rewrite filter_cons.
  destruct (is_valid m =? 0) eqn:Hv.
  - apply Z.eqb_eq in Hv. destruct (decide (is_valid m <> 0)); [congruence|reflexivity].
  - apply Z.eqb_neq in Hv. destruct (decide (is_valid m <> 0)); [reflexivity|tauto].
Qed.

Lemma images_json_spec (f : imgfs_file) :
  length (metadata f) = Z.to_nat (max_files (header f)) ->
  images_json f = Some (listing (ids_in_use (metadata f))).
Proof.
  intros Htable. unfold images_json. rewrite list_loop_spec by lia.
  cbn [mbind option_bind]. rewrite drop_0, take_ge by lia.
  unfold listing, ids_in_use. rewrite <- list_fmap_compose. reflexivity.
Qed.

Lemma ids_in_use_insert (md : list img_metadata) (k : nat) (m0 m : img_metadata) :
  md !! k = Some m0 ->
  ids_in_use md
  = ids_in_use (take k md)
      ++ (if decide (is_valid m0 <> 0) then [cstr (img_id m0)] else [])
      ++ ids_in_use (drop (S k) md)
  /\ ids_in_use (<[k := m]> md)
     = ids_in_use (take k md)
         ++ (if decide (is_valid m <> 0) then [cstr (img_id m)] else [])
         ++ ids_in_use (drop (S k) md).
Proof.
  intros Hk. pose proof (lookup_lt_Some _ _ _ Hk) as Hlt.
  rewrite insert_take_drop by exact Hlt.
  rewrite <- (take_drop_middle md k m0 Hk) at 1.
  unfold ids_in_use. rewrite !filter_app, !filter_cons, !fmap_app.
  split; case_decide; reflexivity.
Qed.

Lemma length_ids_in_use (md : list img_metadata) :
  length (ids_in_use md) = count_valid md.
Proof. unfold ids_in_use, count_valid. apply length_fmap. Qed.

(** X14.  In JSON mode [do_list] serializes the object whose "Images"
    array holds the ids of the slots in use, each once per slot, in the
    order of the slots; when the header counts the slots in use there are
    [nb_files] of them.  A mode that is neither of the two is refused. *)
Theorem list_json_ids (print_header : imgfs_header -> bytes)
    (print_metadata : img_metadata -> bytes)
    (json_object_to_json_string : json_object -> bytes) (f : imgfs_file) :
  length (metadata f) = Z.to_nat (max_files (header f)) ->
  do_list print_header print_metadata json_object_to_json_string true f JSON
  = Some (ERR_NONE, [],
          Some (json_object_to_json_string (listing (ids_in_use (metadata f)))))
  /\ (forall id, id ∈ ids_in_use (metadata f) <->
        exists j m, metadata f !! j = Some m /\ is_valid m <> 0 /\ cstr (img_id m) = id)
  /\ (counted f -> Z.of_nat (length (ids_in_use (metadata f))) = nb_files (header f))
  /\ do_list print_header print_metadata json_object_to_json_string true f other_mode
     = Some (ERR_INVALID_ARGUMENT, [], None).
Proof.
  intros Htable. split; [|split; [|split]].
  - unfold do_list. rewrite images_json_spec by exact Htable. reflexivity.
  - intros id. unfold ids_in_use. rewrite list_elem_of_fmap. split.
    + intros (m & -> & Hm). apply list_elem_of_filter in Hm as [Hv Hm].
      apply list_elem_of_lookup in Hm as [j Hj]. eauto.
    + intros (j & m & Hj & Hv & <-). exists m. split; [reflexivity|].
      apply list_elem_of_filter. split; [exact Hv|].
      apply list_elem_of_lookup. eauto.
  - intros Hc. rewrite length_ids_in_use. symmetry. exact Hc.
  - reflexivity.
Qed.

(** X15.  The listing follows the inserts and the deletes: a successful
    insert adds the stored id (the id cut to [MAX_IMG_ID] bytes) to the
    listing, at the place of the slot it took, and a successful delete
    removes one occurrence of the id; the other entries keep their order. *)
Theorem list_follows_insert_and_delete (r : request) (f f' : imgfs_file) :
  max_files (header f) <= UINT32_MAX ->
  length (metadata f) = Z.to_nat (max_files (header f)) ->
  perform r f = Some (ERR_NONE, f') ->
  images_json f' = Some (listing (ids_in_use (metadata f')))
  /\ match r with
     | Insert B id =>
         exists before after,
           ids_in_use (metadata f) = before ++ after
           /\ ids_in_use (metadata f') = before ++ take MAX_IMG_ID (cstr id) :: after
     | Delete id =>
         exists before after,
           ids_in_use (metadata f) = before ++ cstr id :: after
           /\ ids_in_use (metadata f') = before ++ after
     | Read _ _ => ids_in_use (metadata f') = ids_in_use (metadata f)
     end.
Proof.
  intros Hmax Htable Hp.
  assert (Hshape : max_files (header f') = max_files (header f)
                   /\ length (metadata f') = length (metadata f)).
  { destruct r as [B id|id|id res]; cbn [perform] in Hp.
    - destruct (insert_inv _ _ _ _ _ Hmax Htable Hp)
        as [[_ [Hx|Hx]]|(k & m0 & _ & _ & _ & _ & Hmx & [(Hx & _)|(m & Hmd & _)])];
        try discriminate.
      split; [exact Hmx|rewrite Hmd; apply length_insert].
    - destruct (delete_inv _ _ _ _ Hp) as [[Hx _]|(k & m & _ & _ & _ & Hmd & Hmx & _)];
        [discriminate|].
      split; [exact Hmx|rewrite Hmd; apply length_insert].
    - apply fmap_Some in Hp as (x & Hr & Hx). injection Hx as _ ->.
      destruct (read_inv _ _ _ _ Hr) as (Hh & [Hmd|(k & m & off & sz & _ & _ & Hmd)]);
        rewrite Hh, Hmd; [auto|]. split; [reflexivity|apply length_insert]. }
  split; [apply images_json_spec; destruct Hshape as [-> ->]; exact Htable|].
  destruct r as [B id|id|id res]; cbn [perform] in Hp.
  - destruct (insert_inv _ _ _ _ _ Hmax Htable Hp)
      as [[_ [Hx|Hx]]|(k & m0 & _ & Hm0 & Hv0 & _ & _
                       & [(Hx & _)|(m & Hmd & Eid & _ & Hv & _)])];
      try discriminate.
    destruct (ids_in_use_insert (metadata f) k m0 m Hm0) as [E0 E1].
    rewrite Hmd.
    destruct (decide (is_valid m0 <> 0)); [congruence|].
    destruct (decide (is_valid m <> 0)); [|rewrite Hv in *; exfalso; auto].
    rewrite Eid, cstr_stored_id in E1. eauto.
  - destruct (delete_inv _ _ _ _ Hp) as [[Hx _]|(k & m & Hm & Hv & Hi & Hmd & _)];
      [discriminate|].
    destruct (ids_in_use_insert (metadata f) k m (set_is_valid m EMPTY) Hm) as [E0 E1].
    rewrite Hmd. cbn [is_valid set_is_valid] in E1.
    destruct (decide (is_valid m <> 0)); [|tauto].
    destruct (decide (EMPTY <> 0)) as [Hx|_]; [exfalso; apply Hx; reflexivity|].
    apply strcmp_0_iff in Hi. rewrite Hi in E0. eauto.
  - apply fmap_Some in Hp as (x & Hr & Hx). injection Hx as _ ->.
    destruct (read_inv _ _ _ _ Hr) as (_ & [Hmd|(k & m & off & sz & Hm & _ & Hmd)]);
      rewrite Hmd; [reflexivity|].
    destruct (ids_in_use_insert (metadata f) k m (set_size (set_offset m res off) res sz) Hm)
      as [E0 E1].
    rewrite E1, E0. reflexivity.
Qed.

End CreateList.

(** ** The file follows the structure in memory *)

Section WriteAt.

Lemma write_at_app_l (pre rest buf : bytes) (p : nat) :
  (p + length buf <= length pre)%nat ->
  write_at (pre ++ rest) p buf = write_at pre p buf ++ rest.
Proof.
  intros Hp. unfold write_at.
  rewrite take_app_le by lia.
  replace (p - length (pre ++ rest))%nat with 0%nat by (rewrite length_app; lia).
  replace (p - length pre)%nat with 0%nat by lia.
  rewrite drop_app_le by lia. cbn [replicate app]. rewrite <- !app_assoc. reflexivity.
Qed.

Lemma write_at_middle (X old Y buf : bytes) :
  length buf = length old ->
  write_at (X ++ old ++ Y) (length X) buf = X ++ buf ++ Y.
Proof.
  intros Hl. unfold write_at.
  rewrite take_app_length.
  replace (length X - length (X ++ old ++ Y))%nat with 0%nat by (rewrite length_app; lia).
  cbn [replicate app].
  rewrite drop_app_ge by lia.
  replace (length X + length buf - length X)%nat with (length old) by lia.
  rewrite drop_app_length. reflexivity.
Qed.

Lemma write_at_start (old Y buf : bytes) :
  length buf = length old -> write_at (old ++ Y) 0 buf = buf ++ Y.
Proof. intros Hl. exact (write_at_middle [] old Y buf Hl). Qed.

End WriteAt.

Section OnDisk.
Context `{ImgLib} `{Layout}.

Lemma table_bytes_app (a b : list img_metadata) :
  table_bytes (a ++ b) = table_bytes a ++ table_bytes b.
Proof. unfold table_bytes. rewrite fmap_app. apply join_app. Qed.

Lemma table_bytes_cons (m : img_metadata) (md : list img_metadata) :
  table_bytes (m :: md) = encode_metadata m ++ table_bytes md.
Proof. reflexivity. Qed.

Lemma length_encode_header (h : imgfs_header) :
  length (encode_header h) = Z.to_nat sizeof_imgfs_header.
Proof. pose proof (encode_header_length h). lia. Qed.

Lemma length_encode_metadata (m : img_metadata) :
  length (encode_metadata m) = Z.to_nat sizeof_img_metadata.
Proof. pose proof (encode_metadata_length m). lia. Qed.

(** Writing the record of slot [k] at its place in the image of the header
    and of the table gives the image of the table with the slot replaced. *)
Lemma write_slot (h : imgfs_header) (md : list img_metadata) (k : nat)
    (m0 m : img_metadata) :
  md !! k = Some m0 ->
  write_at (encode_header h ++ table_bytes md)
           (Z.to_nat (sizeof_imgfs_header + Z.of_nat k * sizeof_img_metadata))
           (encode_metadata m)
  = encode_header h ++ table_bytes (<[k := m]> md).
Proof.
  intros Hk. pose proof (lookup_lt_Some _ _ _ Hk) as Hlt.
  pose proof sizeof_imgfs_header_pos as Hsh. pose proof sizeof_img_metadata_pos as Hsm.
  rewrite insert_take_drop by exact Hlt.
  rewrite <- (take_drop_middle md k m0 Hk) at 1.
  rewrite !table_bytes_app, !table_bytes_cons, !app_assoc.
  rewrite <- (app_assoc _ (encode_metadata m0)), <- (app_assoc _ (encode_metadata m)).
  replace (Z.to_nat (sizeof_imgfs_header + Z.of_nat k * sizeof_img_metadata))
    with (length (encode_header h ++ table_bytes (take k md))).
  - apply write_at_middle. rewrite !length_encode_metadata. reflexivity.
  - rewrite length_app, length_encode_header.
    pose proof (table_bytes_length (take k md)) as Lt.
    rewrite length_take, Nat.min_l in Lt by lia. nia.
Qed.

Lemma write_header (h h' : imgfs_header) (tb : bytes) :
  write_at (encode_header h ++ tb) 0 (encode_header h') = encode_header h' ++ tb.
Proof. apply write_at_start. rewrite !length_encode_header. reflexivity. Qed.

(** A file whose start is the image of the structure, split at the end of
    the table. *)
Lemma on_disk_split (f : imgfs_file) :
  length (metadata f) = Z.to_nat (max_files (header f)) ->
  prefix_size f <= flen (file f) ->
  on_disk f ->
  contents (file f)
  = (encode_header (header f) ++ table_bytes (metadata f))
      ++ drop (Z.to_nat (prefix_size f)) (contents (file f)).
Proof.
  intros Htable Hprefix Hd. unfold on_disk in Hd. rewrite <- Hd. symmetry. apply take_drop.
Qed.

Lemma on_disk_intro (fl : FILE) (h : imgfs_header) (md : list img_metadata) (rest : bytes) :
  length md = Z.to_nat (max_files h) -> 0 <= max_files h ->
  contents fl = (encode_header h ++ table_bytes md) ++ rest ->
  on_disk (mk_imgfs_file fl h md).
Proof.
  intros Htable Hmx E. unfold on_disk, prefix_size. cbn [header metadata file].
  rewrite E. apply take_app_length'.
  pose proof sizeof_imgfs_header_pos as Hsh. pose proof sizeof_img_metadata_pos as Hsm.
  rewrite length_app, length_encode_header.
  pose proof (table_bytes_length md) as Lt. nia.
Qed.

Lemma insert_keeps_on_disk (B id : bytes) (f f' : imgfs_file) :
  max_files (header f) <= UINT32_MAX ->
  length (metadata f) = Z.to_nat (max_files (header f)) ->
  prefix_size f <= flen (file f) -> flen (file f) < 2 ^ 63 ->
  on_disk f ->
  do_insert B id f = Some (ERR_NONE, f') ->
  on_disk f'.
Proof.
  intros Hmax Htable Hprefix Hflen Hd Hi.
  pose proof (on_disk_split f Htable Hprefix Hd) as Hsplit.
  pose proof sizeof_imgfs_header_pos as Hsh. pose proof sizeof_img_metadata_pos as Hsm.
  set (rest := drop (Z.to_nat (prefix_size f)) (contents (file f))) in *. clearbody rest.
  unfold do_insert in Hi.
  destruct (Z.of_nat (length B) =? 0); [discriminate|].
  destruct (max_files (header f) <=? nb_files (header f)) eqn:Hfull; [discriminate|].
  apply bind_Some in Hi as (free_index & Hfree & Hi).
  apply bind_Some in Hi as (m0 & Hget & Hi).
  apply tbl_get_bounds in Hget as [Hidx Hm0].
  set (index := to_uint32 free_index) in *. clearbody index.
  destruct (get_resolution B) as [err [height width]].
  case_bool_decide; [congruence|].
  apply bind_Some in Hi as ([e3 f3] & Hd3 & Hi).
  apply dedup_frame in Hd3 as (Hh3 & Hfl3 & Hmd3). cbn [header file metadata] in Hh3, Hfl3, Hmd3.
  assert (Hmd : forall x, <[Z.to_nat index := x]> (metadata f3)
                          = <[Z.to_nat index := x]> (metadata f)).
  { intros x. rewrite Hmd3. apply list_insert_insert_eq. }
  clear Hmd3.
  split_paths Hi; try discriminate.
  all: repeat match goal with
              | Hx : _ = inl _ |- _ => progress split_sum Hx
              | Hx : _ = inr _ |- _ => progress split_sum Hx
              end.
  all: rewrite ?Hfl3 in *.
  all: stdio_inv.
  all: try match goal with Hx : ERR_IO = ERR_NONE |- _ => discriminate Hx end.
  all: rewrite Hmd.
  all: eapply on_disk_intro;
    [rewrite length_insert; rewrite Hh3; exact Htable
    |rewrite Hh3; cbn [max_files set_version set_nb_files]; lia
    |].
  all: chase_stream.
  all: rewrite ?Z.add_0_r, ?Nat2Z.id, ?write_at_end; change (Z.to_nat 0) with 0%nat.
  all: rewrite to_long_small by (unfold prefix_size, flen in *; nia).
  all: rewrite <- ?app_assoc.
  all: rewrite (app_assoc (encode_header (header f))), write_at_app_l
         by (rewrite length_app, !length_encode_header; lia).
  all: rewrite write_header.
  all: replace index with (Z.of_nat (Z.to_nat index)) at 1 by lia.
  all: rewrite write_at_app_l.
  all: try (rewrite (write_slot _ _ _ _ _ Hm0), <- ?app_assoc; reflexivity).
  all: rewrite length_app, length_encode_header, length_encode_metadata.
  all: pose proof (table_bytes_length (metadata f)) as Lt.
  all: unfold prefix_size in *; nia.
Qed.

Lemma on_disk_ext (f : imgfs_file) (fl : FILE) :
  contents fl = contents (file f) ->
  on_disk f -> on_disk (mk_imgfs_file fl (header f) (metadata f)).
Proof. unfold on_disk, prefix_size. cbn [header metadata file]. intros ->. auto. Qed.

Lemma lazily_resize_keeps_on_disk (r : Z) (f f' : imgfs_file) (p : Z) :
  length (metadata f) = Z.to_nat (max_files (header f)) ->
  prefix_size f <= flen (file f) -> flen (file f) < 2 ^ 63 ->
  on_disk f ->
  lazily_resize r f p = Some (ERR_NONE, f') ->
  on_disk f'.
Proof.
  intros Htable Hprefix Hflen Hd Hl.
  pose proof (on_disk_split f Htable Hprefix Hd) as Hsplit.
  pose proof sizeof_imgfs_header_pos as Hsh. pose proof sizeof_img_metadata_pos as Hsm.
  set (rest := drop (Z.to_nat (prefix_size f)) (contents (file f))) in *. clearbody rest.
  unfold lazily_resize in Hl.
  split_paths Hl; try discriminate; try exact Hd.
  match goal with
  | Hg : tbl_get _ _ = Some _ |- _ => apply tbl_get_bounds in Hg as [Hp Hm]
  end.
  stdio_inv.
  eapply on_disk_intro; [rewrite length_insert; exact Htable|lia|].
  chase_stream.
  rewrite ?Z.add_0_r, ?Nat2Z.id, ?write_at_end.
  rewrite to_long_small by (unfold prefix_size, flen in *; nia).
  rewrite <- ?app_assoc.
  rewrite (app_assoc (encode_header (header f))).
  replace p with (Z.of_nat (Z.to_nat p)) at 1 by lia.
  rewrite write_at_app_l.
  - rewrite (write_slot _ _ _ _ _ Hm), <- ?app_assoc. reflexivity.
  - rewrite length_app, length_encode_header, length_encode_metadata.
    pose proof (table_bytes_length (metadata f)) as Lt.
    unfold prefix_size in *. nia.
Qed.

Lemma read_keeps_on_disk (id : bytes) (r : Z) (f : imgfs_file) (res : read_result) :
  length (metadata f) = Z.to_nat (max_files (header f)) ->
  prefix_size f <= flen (file f) -> flen (file f) < 2 ^ 63 ->
  on_disk f ->
  do_read id r f = Some res -> rd_err res = ERR_NONE ->
  on_disk (rd_state res).
Proof.
  intros Htable Hprefix Hflen Hd Hr He. unfold do_read in Hr.
  apply bind_Some in Hr as (pos & Hpos & Hr).
  destruct (pos =? -1); [injection Hr as <-; exact Hd|].
  apply bind_Some in Hr as (m & Hm & Hr).
  apply bind_Some in Hr as (off_r & Hoff & Hr).
  apply bind_Some in Hr as (size_r & Hsz & Hr).
  apply bind_Some in Hr as ([e1 f1] & Hl & Hr).
  case_bool_decide as He1; [injection Hr as <-; cbn in He; congruence|].
  assert (Hd1 : on_disk f1).
  { destruct (negb (r =? ORIG_RES) && ((off_r =? 0) || (size_r =? EMPTY)));
      [|injection Hl as <- <-; exact Hd].
    assert (e1 = ERR_NONE) as -> by (destruct (decide (e1 = ERR_NONE)); tauto).
    exact (lazily_resize_keeps_on_disk _ _ _ _ Htable Hprefix Hflen Hd Hl). }
  split_paths Hr; try discriminate; cbn [rd_state].
  all: stdio_inv; apply on_disk_ext; [chase_stream; reflexivity|exact Hd1].
Qed.

Lemma delete_keeps_on_disk (id : bytes) (f f' : imgfs_file) :
  well_formed f -> flen (file f) < 2 ^ 63 ->
  on_disk f ->
  do_delete id f = Some (ERR_NONE, f') ->
  on_disk f'.
Proof.
  intros Hwf Hflen Hd Hdel.
  destruct (delete_success_inv _ _ _ Hdel) as (k & m & Hs & Hm).
  destruct Hwf as [Hfaults Hmax Hnb0 Htable Hprefix].
  pose proof (on_disk_split f Htable Hprefix Hd) as Hsplit.
  set (rest := drop (Z.to_nat (prefix_size f)) (contents (file f))) in *. clearbody rest.
  destruct (delete_scan_inv _ _ _ _ _ Hs) as (Hk & _ & _).
  pose proof sizeof_imgfs_header_pos as Hsh. pose proof sizeof_img_metadata_pos as Hsm.
  unfold prefix_size, flen in *.
  assert (Hoff : sizeof_imgfs_header + sizeof_img_metadata * Z.of_nat k
                 + sizeof_img_metadata
                 <= sizeof_imgfs_header + max_files (header f) * sizeof_img_metadata) by nia.
  unfold do_delete in Hdel. rewrite Hs in Hdel. cbn [mbind option_bind] in Hdel.
  rewrite Hm in Hdel. cbn [mbind option_bind] in Hdel.
  rewrite to_long_small in Hdel by nia.
  rewrite (fseek_set_ok' _ _ Hfaults) in Hdel by nia.
  rewrite fwrite_ok in Hdel by apply encode_metadata_nonempty.
  cbn [negb Z.eqb Pos.eqb] in Hdel.
  rewrite fseek_set_ok in Hdel by lia.
  rewrite fwrite_ok in Hdel by apply encode_header_nonempty.
  cbn [negb Z.eqb Pos.eqb] in Hdel. injection Hdel as <-.
  eapply on_disk_intro; [rewrite length_insert; exact Htable|cbn; lia|].
  cbn [contents]. change (Z.to_nat 0) with 0%nat.
  rewrite Hsplit.
  replace (sizeof_imgfs_header + sizeof_img_metadata * Z.of_nat k)
    with (sizeof_imgfs_header + Z.of_nat k * sizeof_img_metadata) by lia.
  rewrite write_at_app_l.
  - rewrite (write_slot _ _ _ _ _ Hm).
    rewrite write_at_app_l by (rewrite length_app, !length_encode_header; lia).
    rewrite write_header. reflexivity.
  - rewrite length_app, length_encode_header, length_encode_metadata.
    pose proof (table_bytes_length (metadata f)) as Lt. nia.
Qed.

(** X16.  What is in memory is on disk: on a well-formed database whose
    file starts with the image of the header and of the table in memory,
    every insert, delete and read that returns [ERR_NONE] leaves a file that
    again starts with the image of the header and of the table it leaves in
    memory. *)
Theorem perform_keeps_on_disk (r : request) (f f' : imgfs_file) :
  well_formed f -> flen (file f) < 2 ^ 63 ->
  on_disk f ->
  perform r f = Some (ERR_NONE, f') ->
  on_disk f'.
Proof.
  intros Hwf Hflen Hd Hp.
  pose proof (wf_table _ Hwf) as Htable. pose proof (wf_prefix _ Hwf) as Hprefix.
  destruct r as [B id|id|id res]; cbn [perform] in Hp.
  - exact (insert_keeps_on_disk _ _ _ _ (wf_max_files _ Hwf) Htable Hprefix Hflen Hd Hp).
  - exact (delete_keeps_on_disk _ _ _ Hwf Hflen Hd Hp).
  - apply fmap_Some in Hp as (x & Hx & E). injection E as He ->.
    exact (read_keeps_on_disk _ _ _ _ Htable Hprefix Hflen Hd Hx (eq_sym He)).
Qed.

End OnDisk.

(** ** Well-formed databases stay well-formed *)

Section StdioFaults.

Lemma next_fault_none (f : FILE) : faults f = [] -> next_fault f = (false, f).
Proof. unfold next_fault. intros ->. reflexivity. Qed.

Lemma fseek_faults (f f' : FILE) (o rc : Z) (w : whence) :
  faults f = [] -> fseek f o w = (rc, f') -> faults f' = [].
Proof.
  intros Hf. unfold fseek. rewrite (next_fault_none f Hf).
  destruct (_ || _); intros E; injection E as <- <-; exact Hf.
Qed.

Lemma ftell_faults (f f' : FILE) (t : Z) :
  faults f = [] -> ftell f = (t, f') -> faults f' = [].
Proof.
  intros Hf. unfold ftell. rewrite (next_fault_none f Hf).
  intros E; injection E as <- <-; exact Hf.
Qed.

Lemma fwrite_faults (buf : bytes) (f f' : FILE) (w : Z) :
  faults f = [] -> fwrite buf f = (w, f') -> faults f' = [].
Proof.
  intros Hf. unfold fwrite. rewrite (next_fault_none f Hf).
  destruct (_ || _); intros E; injection E as <- <-; exact Hf.
Qed.

Lemma fread_faults (f f' : FILE) (sz n : Z) (b : bytes) :
  faults f = [] -> fread sz f = (n, b, f') -> faults f' = [].
Proof.
  intros Hf. unfold fread. rewrite (next_fault_none f Hf).
  destruct (_ || _); [|destruct (_ && _)]; intros E; injection E as <- <- <-; exact Hf.
Qed.

End StdioFaults.

(** The streams of a path are free of faults when the first one is. *)
Ltac stdio_faults :=
  repeat match goal with
         | E : fseek ?f _ _ = (_, ?f'), Hf : faults ?f = [] |- _ =>
             lazymatch goal with
             | _ : faults f' = [] |- _ => fail
             | _ => pose proof (fseek_faults _ _ _ _ _ Hf E)
             end
         | E : ftell ?f = (_, ?f'), Hf : faults ?f = [] |- _ =>
             lazymatch goal with
             | _ : faults f' = [] |- _ => fail
             | _ => pose proof (ftell_faults _ _ _ Hf E)
             end
         | E : fwrite _ ?f = (_, ?f'), Hf : faults ?f = [] |- _ =>
             lazymatch goal with
             | _ : faults f' = [] |- _ => fail
             | _ => pose proof (fwrite_faults _ _ _ _ Hf E)
             end
         | E : fread _ ?f = (_, _, ?f'), Hf : faults ?f = [] |- _ =>
             lazymatch goal with
             | _ : faults f' = [] |- _ => fail
             | _ => pose proof (fread_faults _ _ _ _ _ Hf E)
             end
         end.

Section Closure.
Context `{ImgLib} `{Layout}.

Lemma lazily_resize_faults (r : Z) (f f' : imgfs_file) (p : Z) (e : error_code) :
  faults (file f) = [] -> lazily_resize r f p = Some (e, f') -> faults (file f') = [].
Proof.
  intros Hf Hl. unfold lazily_resize in Hl.
  split_paths Hl; try discriminate; cbn [file]; stdio_faults; assumption.
Qed.

Lemma read_faults (id : bytes) (r : Z) (f : imgfs_file) (res : read_result) :
  faults (file f) = [] -> do_read id r f = Some res -> faults (file (rd_state res)) = [].
Proof.
  intros Hf Hr. unfold do_read in Hr.
  apply bind_Some in Hr as (pos & Hpos & Hr).
  destruct (pos =? -1); [injection Hr as <-; exact Hf|].
  apply bind_Some in Hr as (m & Hm & Hr).
  apply bind_Some in Hr as (off_r & Hoff & Hr).
  apply bind_Some in Hr as (size_r & Hsz & Hr).
  apply bind_Some in Hr as ([e1 f1] & Hl & Hr).
  assert (Hf1 : faults (file f1) = []).
  { destruct (negb (r =? ORIG_RES) && ((off_r =? 0) || (size_r =? EMPTY)));
      [|injection Hl as <- <-; exact Hf].
    exact (lazily_resize_faults _ _ _ _ _ Hf Hl). }
  split_paths Hr; try discriminate; cbn [rd_state file]; stdio_faults; assumption.
Qed.

Lemma insert_faults (B id : bytes) (f f' : imgfs_file) (e : error_code) :
  faults (file f) = [] -> do_insert B id f = Some (e, f') -> faults (file f') = [].
Proof.
  intros Hf Hi. unfold do_insert in Hi.
  destruct (Z.of_nat (length B) =? 0); [injection Hi as <- <-; exact Hf|].
  destruct (max_files (header f) <=? nb_files (header f)) eqn:Hfull;
    [injection Hi as <- <-; exact Hf|].
  apply bind_Some in Hi as (free_index & Hfree & Hi).
  apply bind_Some in Hi as (m0 & Hget & Hi).
  destruct (get_resolution B) as [err [height width]].
  case_bool_decide; [injection Hi as <- <-; exact Hf|].
  apply bind_Some in Hi as ([e3 f3] & Hd & Hi).
  apply dedup_frame in Hd as (_ & Hfl3 & _). cbn [file] in Hfl3.
  rewrite <- Hfl3 in Hf.
  split_paths Hi; try discriminate; cbn [file]; try exact Hf.
  all: repeat match goal with
              | Hx : _ = inl _ |- _ => progress split_sum Hx
              | Hx : _ = inr _ |- _ => progress split_sum Hx
              end.
  all: stdio_faults; assumption.
Qed.

(** X17.  A well-formed database stays well-formed: in an environment that
    does not fail, the state every insert, delete and read leaves, in every
    outcome, is again a table of [max_files] slots inside the file, with
    the same capacity. *)
Theorem perform_keeps_well_formed (r : request) (f f' : imgfs_file) (e : error_code) :
  well_formed f -> flen (file f) < 2 ^ 63 ->
  perform r f = Some (e, f') ->
  well_formed f' /\ max_files (header f') = max_files (header f).
Proof.
  intros Hwf Hflen Hp.
  assert (Hcase : (exists id, r = Delete id) \/ ~ (exists id, r = Delete id)).
  { destruct r; [right|left|right]; eauto; intros [? ?]; discriminate. }
  destruct Hcase as [[id ->]|Hnd].
  - cbn [perform] in Hp.
    destruct (delete_scan_total (metadata f) id (Z.to_nat (max_files (header f))) 0)
      as [[k|] Hs]; [rewrite (wf_table _ Hwf); lia| |].
    + destruct (delete_scan_inv _ _ _ _ _ Hs) as (_ & (m & Hm & _) & _).
      destruct (delete_found id f k m Hwf Hflen Hs Hm) as (f1 & Hd & _).
      rewrite Hd in Hp. injection Hp as <- <-.
      destruct (delete_deleted _ _ _ Hwf Hflen Hd) as (k' & m' & D).
      split; [exact (deleted_well_formed _ _ _ _ _ Hwf D)|].
      exact (proj1 (proj2 (deleted_bounds _ _ _ _ _ D))).
    + unfold do_delete in Hp. rewrite Hs in Hp. injection Hp as <- <-. auto.
  - destruct Hwf as [Hfaults Hmax Hnb0 Htable Hprefix].
    assert (Hg : grows_from (Z.to_nat (prefix_size f)) (contents (file f))
                            (contents (file f'))
                 /\ faults (file f') = []
                 /\ max_files (header f') = max_files (header f)
                 /\ length (metadata f') = length (metadata f)
                 /\ 0 <= nb_files (header f')).
    { destruct r as [B id|id|id res]; cbn [perform] in Hp.
      - split; [exact (insert_grows _ _ _ _ _ Hmax Htable Hprefix Hflen Hp)|].
        split; [exact (insert_faults _ _ _ _ _ Hfaults Hp)|].
        destruct (insert_inv _ _ _ _ _ Hmax Htable Hp)
          as [[-> _]|(k & m0 & _ & _ & _ & _ & Hmx
                      & [(_ & Hmd & Hnb)|(m & Hmd & _ & _ & _ & Hnb & _)])]; [auto| |].
        + split; [exact Hmx|]. split; [rewrite Hmd; apply length_insert|].
          rewrite Hnb. unfold to_uint32. apply Z.mod_pos_bound. lia.
        + split; [exact Hmx|]. split; [rewrite Hmd; apply length_insert|].
          rewrite Hnb. unfold to_uint32. apply Z.mod_pos_bound. lia.
      - exfalso. apply Hnd. eauto.
      - apply fmap_Some in Hp as (x & Hx & E). injection E as -> ->.
        split; [exact (read_grows _ _ _ _ Htable Hprefix Hflen Hx)|].
        split; [exact (read_faults _ _ _ _ Hfaults Hx)|].
        destruct (read_inv _ _ _ _ Hx) as (Hh & [Hmd|(k & m & off & sz & _ & _ & Hmd)]);
          rewrite Hh, Hmd; [auto|].
        split; [reflexivity|]. split; [apply length_insert|exact Hnb0]. }
    destruct Hg as ([L _] & Hfa & Hmx & Hlen & Hnb).
    split; [|exact Hmx]. constructor.
    + exact Hfa.
    + rewrite Hmx. exact Hmax.
    + exact Hnb.
    + rewrite Hmx, Hlen. exact Htable.
    + unfold prefix_size, flen in *. rewrite Hmx. lia.
Qed.

(** X18.  A read never touches an original: whatever its outcome and
    whatever the environment lets fail, every slot keeps its id, its
    digest, its flag and its dimensions, and a slot that stored a blob
    still stores it.  (A read can only add a variant at a small
    resolution.) *)
Theorem read_keeps_originals (id : bytes) (r : Z) (f : imgfs_file) (res : read_result)
    (j : nat) (m : img_metadata) :
  length (metadata f) = Z.to_nat (max_files (header f)) ->
  prefix_size f <= flen (file f) -> flen (file f) < 2 ^ 63 ->
  do_read id r f = Some res ->
  metadata f !! j = Some m ->
  exists m',
    metadata (rd_state res) !! j = Some m'
    /\ img_id m' = img_id m /\ SHA m' = SHA m /\ is_valid m' = is_valid m
    /\ orig_res m' = orig_res m
    /\ forall B, stores f m B -> stores (rd_state res) m' B.
Proof.
  intros Htable Hprefix Hflen Hr Hj.
  pose proof (read_grows _ _ _ _ Htable Hprefix Hflen Hr) as [L D].
  pose proof sizeof_imgfs_header_pos as Hsh. pose proof sizeof_img_metadata_pos as Hsm.
  assert (Hmx0 : 0 <= max_files (header f)).
  { pose proof (lookup_lt_Some _ _ _ Hj). lia. }
  assert (Hst : forall m' B, orig_offset m' = orig_offset m -> orig_size m' = orig_size m ->
            stores f m B -> stores (rd_state res) m' B).
  { intros m' B Eo Es (S1 & S2 & S3 & S4). unfold stores, prefix_size.
    rewrite (read_header _ _ _ _ Hr), Eo, Es. fold (prefix_size f).
    split; [exact S1|]. split; [unfold flen in *; lia|]. split; [exact S3|].
    rewrite <- S4. apply (blob_at_frame _ _ (prefix_size f)).
    - unfold prefix_size in *. nia.
    - lia.
    - exact S2.
    - exact D. }
  destruct (read_inv _ _ _ _ Hr) as (_ & [Hmd|(k & m0 & off & sz & Hk & Hne & Hmd)]).
  - exists m. rewrite Hmd. do 5 (split; [auto|]). intros B'. apply Hst; reflexivity.
  - rewrite Hmd. destruct (decide (j = k)) as [->|Hjk].
    + rewrite Hk in Hj. injection Hj as ->.
      eexists. split; [apply list_lookup_insert_eq; exact (lookup_lt_Some _ _ _ Hk)|].
      cbn [img_id SHA is_valid orig_res set_size set_offset].
      do 4 (split; [reflexivity|]). intros B'. apply Hst.
      * unfold orig_offset. cbn [offset set_size set_offset].
        rewrite get3_set3_other by exact Hne. reflexivity.
      * unfold orig_size. cbn [size set_size set_offset].
        rewrite get3_set3_other by exact Hne. reflexivity.
    + exists m. rewrite list_lookup_insert_ne by congruence.
      do 5 (split; [auto|]). intros B'. apply Hst; reflexivity.
Qed.

End Closure.

(** ** The engine on concrete databases *)

Section EngineExamples.

Ltac by_compute :=
  vm_compute; repeat split; solve [reflexivity | discriminate | lia].

Ltac over_slots j Hm :=
  repeat (destruct j as [|j]; [vm_compute in Hm; injection Hm as <-|]);
  [..|vm_compute in Hm; discriminate].

Lemma two_images_db_well_formed : well_formed Toy.two_images_db.
Proof. constructor; by_compute. Qed.


Lemma two_images_db_unique_ids : unique_ids Toy.two_images_db.
Proof.
  intros i j mi mj Hi Hj Hvi Hvj Hs.
  over_slots i Hi; over_slots j Hj; try reflexivity; vm_compute in Hs; discriminate.
Qed.

Lemma one_image_db_unique_ids : unique_ids Toy.one_image_db.
Proof.
  intros i j mi mj Hi Hj Hvi Hvj Hs.
  over_slots i Hi; over_slots j Hj; try reflexivity; exfalso; auto.
Qed.

Lemma one_image_db_flags_ok : flags_ok Toy.one_image_db.
Proof. intros j m Hm. over_slots j Hm; [right|left]; reflexivity. Qed.

(** "first" deleted from the database that holds "first" and "pic". *)
Lemma delete_present_witness :
  exists k m f1,
    do_delete (str "first") Toy.two_images_db = Some (ERR_NONE, f1)
    /\ deleted Toy.two_images_db (str "first") k m f1.
Proof.
  apply (delete_present (str "first") Toy.two_images_db 0 (Toy.slot "first" Toy.jpg_a 8)).
  - exact two_images_db_well_formed.
  - by_compute.
  - by_compute.
  - discriminate.
  - by_compute.
Defined.

(** No slot of the database that holds "pic" has the id "nope". *)
Lemma delete_not_found_iff_witness :
  (do_delete (str "nope") Toy.one_image_db = Some (ERR_IMAGE_NOT_FOUND, Toy.one_image_db)
   <-> fresh_id Toy.one_image_db (str "nope"))
  /\ (fresh_id Toy.one_image_db (str "nope") ->
      forall r, do_read (str "nope") r Toy.one_image_db
                = Some (mk_read_result ERR_IMAGE_NOT_FOUND [] 0 Toy.one_image_db)).
Proof. apply (delete_not_found_iff (str "nope") Toy.one_image_db). by_compute. Defined.

Lemma delete_then_read_not_found_witness :
  do_read (str "first") ORIG_RES Toy.hole_db
  = Some (mk_read_result ERR_IMAGE_NOT_FOUND [] 0 Toy.hole_db)
  /\ do_delete (str "first") Toy.hole_db = Some (ERR_IMAGE_NOT_FOUND, Toy.hole_db).
Proof.
  apply (delete_then_read_not_found (str "first") ORIG_RES Toy.two_images_db Toy.hole_db).
  - exact two_images_db_well_formed.
  - by_compute.
  - exact two_images_db_unique_ids.
  - by_compute.
Defined.

(** "pic" is still read after "first" is deleted. *)
Lemma delete_keeps_other_images_witness :
  exists f2,
    do_read (str "pic") ORIG_RES Toy.hole_db
    = Some (mk_read_result ERR_NONE Toy.jpg_b (Z.of_nat (length Toy.jpg_b)) f2).
Proof.
  apply (delete_keeps_other_images (str "first") (str "pic") Toy.jpg_b Toy.two_images_db
           Toy.hole_db 1 (Toy.slot "pic" Toy.jpg_b 16)).
  - exact two_images_db_well_formed.
  - by_compute.
  - by_compute.
  - by_compute.
  - by_compute.
  - intros j mj Hj Hm _. destruct j as [|j]; [|lia]. vm_compute in Hm.
    injection Hm as <-. by_compute.
  - discriminate.
  - by_compute.
  - by_compute.
  - by_compute.
Defined.


Lemma perform_keeps_count_witness : counted Toy.with_two_db.
Proof.
  apply (perform_keeps_count (Insert Toy.jpg_b (str "two")) Toy.one_image_db
           Toy.with_two_db ERR_NONE).
  - by_compute.
  - by_compute.
  - by_compute.
  - by_compute.
  - intros id E. discriminate E.
Defined.

Lemma perform_keeps_unique_ids_witness : unique_ids Toy.with_two_db.
Proof.
  apply (perform_keeps_unique_ids (Insert Toy.jpg_b (str "two")) Toy.one_image_db
           Toy.with_two_db ERR_NONE).
  - by_compute.
  - by_compute.
  - exact one_image_db_unique_ids.
  - by_compute.
  - intros B id E. injection E as <- <-. reflexivity.
Defined.

Lemma perform_keeps_table_shape_witness :
  max_files (header Toy.with_two_db) = max_files (header Toy.one_image_db)
  /\ length (metadata Toy.with_two_db) = length (metadata Toy.one_image_db)
  /\ flags_ok Toy.with_two_db.
Proof.
  apply (perform_keeps_table_shape (Insert Toy.jpg_b (str "two")) Toy.one_image_db
           Toy.with_two_db ERR_NONE).
  - by_compute.
  - by_compute.
  - exact one_image_db_flags_ok.
  - by_compute.
Defined.

Lemma one_image_db_on_disk : on_disk Toy.one_image_db.
Proof. by_compute. Qed.

(** The first read of "pic" as a thumbnail: the toy library keeps the
    eight bytes of the image. *)
Lemma read_creates_variant_witness :
  exists f1,
    do_read (str "pic") THUMB_RES Toy.one_image_db
    = Some (mk_read_result ERR_NONE Toy.jpg_a (Z.of_nat (length Toy.jpg_a)) f1)
    /\ header f1 = header Toy.one_image_db
    /\ metadata f1
       = <[0%nat := with_variant (Toy.slot "pic" Toy.jpg_a 8) THUMB_RES
                      (flen (file Toy.one_image_db)) (Z.of_nat (length Toy.jpg_a))]>
           (metadata Toy.one_image_db)
    /\ flen (file f1) = flen (file Toy.one_image_db) + Z.of_nat (length Toy.jpg_a)
    /\ drop (Z.to_nat (prefix_size Toy.one_image_db)) (contents (file f1))
       = drop (Z.to_nat (prefix_size Toy.one_image_db)) (contents (file Toy.one_image_db))
           ++ Toy.jpg_a.
Proof.
  apply (@read_creates_variant Toy.toy_imglib Toy.toy_layout (str "pic") THUMB_RES Toy.one_image_db 0
           (Toy.slot "pic" Toy.jpg_a 8) Toy.jpg_a Toy.jpg_a Toy.jpg_a Toy.jpg_a 64).
  - exact one_image_db_well_formed.
  - by_compute.
  - by_compute.
  - by_compute.
  - by_compute.
  - intros j mj Hj. lia.
  - by_compute.
  - left. reflexivity.
  - by_compute.
  - discriminate.
  - by_compute.
  - by_compute.
  - by_compute.
  - by_compute.
  - by_compute.
  - discriminate.
  - by_compute.
Defined.

Lemma read_variant_twice_witness :
  exists f1 f2 f3,
    do_read (str "pic") THUMB_RES Toy.one_image_db
    = Some (mk_read_result ERR_NONE Toy.jpg_a (Z.of_nat (length Toy.jpg_a)) f1)
    /\ do_read (str "pic") THUMB_RES f1
       = Some (mk_read_result ERR_NONE Toy.jpg_a (Z.of_nat (length Toy.jpg_a)) f2)
    /\ header f2 = header f1 /\ metadata f2 = metadata f1
    /\ contents (file f2) = contents (file f1)
    /\ do_read (str "pic") ORIG_RES f2
       = Some (mk_read_result ERR_NONE Toy.jpg_a (Z.of_nat (length Toy.jpg_a)) f3).
Proof.
  apply (@read_variant_twice Toy.toy_imglib Toy.toy_layout (str "pic") THUMB_RES Toy.one_image_db 0
           (Toy.slot "pic" Toy.jpg_a 8) Toy.jpg_a Toy.jpg_a Toy.jpg_a Toy.jpg_a 64).
  - exact one_image_db_well_formed.
  - by_compute.
  - by_compute.
  - by_compute.
  - by_compute.
  - intros j mj Hj. lia.
  - by_compute.
  - left. reflexivity.
  - by_compute.
  - discriminate.
  - by_compute.
  - by_compute.
  - by_compute.
  - by_compute.
  - by_compute.
  - discriminate.
  - by_compute.
Defined.

Lemma insert_and_read_append_only_witness :
  flen (file Toy.one_image_db) <= flen (file Toy.with_two_db)
  /\ drop (Z.to_nat (prefix_size Toy.one_image_db)) (contents (file Toy.one_image_db))
     `prefix_of` drop (Z.to_nat (prefix_size Toy.one_image_db))
                   (contents (file Toy.with_two_db)).
Proof.
  apply (insert_and_read_append_only (Insert Toy.jpg_b (str "two")) Toy.one_image_db
           Toy.with_two_db ERR_NONE).
  - by_compute.
  - by_compute.
  - by_compute.
  - by_compute.
  - intros id E. discriminate E.
  - by_compute.
Defined.


(** A database of capacity 2 created, opened again, and used under an id of
    128 bytes. *)
Lemma create_insert_read_witness :
  exists c out f1 f2 f3,
    do_create (str "EPFL ImgFS 2024") 31 [] true (Toy.blank 2) = (ERR_NONE, c, out)
    /\ reopened c = Some f1
    /\ do_insert Toy.jpg_a Toy.long_id f1 = Some (ERR_NONE, f2)
    /\ nb_files (header f2) = 1 /\ version (header f2) = 1
    /\ flen (file f2) = prefix_size f1 + Z.of_nat (length Toy.jpg_a)
    /\ do_read (take MAX_IMG_ID (cstr Toy.long_id)) ORIG_RES f2
       = Some (mk_read_result ERR_NONE Toy.jpg_a (Z.of_nat (length Toy.jpg_a)) f3).
Proof.
  apply (create_insert_read (str "EPFL ImgFS 2024") 31 (Toy.blank 2) Toy.jpg_a Toy.long_id
           (600, 800)).
  - by_compute.
  - discriminate.
  - by_compute.
  - by_compute.
  - by_compute.
Defined.

Lemma list_json_ids_witness :
  do_list (fun _ => []) (fun _ => []) (fun _ => []) true Toy.one_image_db JSON
  = Some (ERR_NONE, [], Some ((fun _ => []) (listing (ids_in_use (metadata Toy.one_image_db)))))
  /\ (forall id, id ∈ ids_in_use (metadata Toy.one_image_db) <->
        exists j m, metadata Toy.one_image_db !! j = Some m /\ is_valid m <> 0
                    /\ cstr (img_id m) = id)
  /\ (counted Toy.one_image_db ->
      Z.of_nat (length (ids_in_use (metadata Toy.one_image_db)))
      = nb_files (header Toy.one_image_db))
  /\ do_list (fun _ => []) (fun _ => []) (fun _ => []) true Toy.one_image_db other_mode
     = Some (ERR_INVALID_ARGUMENT, [], None).
Proof.
  apply (list_json_ids (fun _ => []) (fun _ => []) (fun _ => []) Toy.one_image_db).
  by_compute.
Defined.

Lemma list_follows_insert_and_delete_witness :
  images_json Toy.with_two_db = Some (listing (ids_in_use (metadata Toy.with_two_db)))
  /\ exists before after,
       ids_in_use (metadata Toy.one_image_db) = before ++ after
       /\ ids_in_use (metadata Toy.with_two_db)
          = before ++ take MAX_IMG_ID (cstr (str "two")) :: after.
Proof.
  apply (list_follows_insert_and_delete (Insert Toy.jpg_b (str "two")) Toy.one_image_db
           Toy.with_two_db).
  - by_compute.
  - by_compute.
  - by_compute.
Defined.

Lemma perform_keeps_on_disk_witness : on_disk Toy.with_two_db.
Proof.
  apply (perform_keeps_on_disk (Insert Toy.jpg_b (str "two")) Toy.one_image_db
           Toy.with_two_db).
  - exact one_image_db_well_formed.
  - by_compute.
  - exact one_image_db_on_disk.
  - by_compute.
Defined.

Lemma perform_keeps_well_formed_witness :
  well_formed Toy.hole_db
  /\ max_files (header Toy.hole_db) = max_files (header Toy.two_images_db).
Proof.
  apply (perform_keeps_well_formed (Delete (str "first")) Toy.two_images_db Toy.hole_db
           ERR_NONE).
  - exact two_images_db_well_formed.
  - by_compute.
  - by_compute.
Defined.

Lemma read_keeps_originals_witness :
  exists m',
    metadata (rd_state Toy.read_thumb) !! 0%nat = Some m'
    /\ img_id m' = img_id (Toy.slot "pic" Toy.jpg_a 8)
    /\ SHA m' = SHA (Toy.slot "pic" Toy.jpg_a 8)
    /\ is_valid m' = is_valid (Toy.slot "pic" Toy.jpg_a 8)
    /\ orig_res m' = orig_res (Toy.slot "pic" Toy.jpg_a 8)
    /\ forall B, stores Toy.one_image_db (Toy.slot "pic" Toy.jpg_a 8) B ->
                 stores (rd_state Toy.read_thumb) m' B.
Proof.
  apply (read_keeps_originals (str "pic") THUMB_RES Toy.one_image_db Toy.read_thumb 0
           (Toy.slot "pic" Toy.jpg_a 8)).
  - by_compute.
  - by_compute.
  - by_compute.
  - by_compute.
  - by_compute.
Defined.

End EngineExamples.

(** ** Query parameters *)

Section GetVar.
Import Http.

Lemma strchr_Some (c : ascii) :
  forall s d, strchr s c = Some d ->
    s !! d = Some c /\ (c ∉ take d s) /\ (NUL ∉ take d s).
Proof.
  induction s as [|x s IH]; intros d Hd; [discriminate|]. cbn [strchr] in Hd.
  destruct (Ascii.eqb_spec x c) as [->|Hxc].
  - injection Hd as <-. cbn [take]. split; [reflexivity|]. split; apply not_elem_of_nil.
  - destruct (Ascii.eqb_spec x NUL) as [->|Hx0]; [discriminate|].
    apply fmap_Some in Hd as (d' & Hd' & ->).
    destruct (IH _ Hd') as (Hl & Hc & Hn). cbn [take].
    split; [exact Hl|]. split; apply not_elem_of_cons; auto.
Qed.

Lemma strchr_app (c : ascii) (a r : bytes) :
  c ∉ a -> NUL ∉ a -> strchr (a ++ c :: r) c = Some (length a).
Proof.
  induction a as [|x a IH]; intros Hc Hn; cbn [app strchr length].
  - rewrite Ascii.eqb_refl. reflexivity.
  - apply not_elem_of_cons in Hc as [Hxc Hc]. apply not_elem_of_cons in Hn as [Hx0 Hn].
    destruct (Ascii.eqb_spec x c) as [E|_]; [congruence|].
    destruct (Ascii.eqb_spec x NUL) as [E|_]; [congruence|].
    rewrite IH by assumption. reflexivity.
Qed.

(** No [c] in the string at [s]: the search gives NULL. *)
Lemma strchr_None (c : ascii) (s : bytes) :
  c <> NUL -> c ∉ cstr s -> strchr s c = None.
Proof.
  intros Hc0. induction s as [|x s IH]; intros Hc; [reflexivity|].
  cbn [strchr]. cbn [cstr] in Hc.
  destruct (Ascii.eqb_spec x NUL) as [->|Hx0].
  - destruct (Ascii.eqb_spec NUL c); [congruence|reflexivity].
  - apply not_elem_of_cons in Hc as [Hxc Hc].
    destruct (Ascii.eqb_spec x c) as [E|_]; [congruence|].
    rewrite IH by exact Hc. reflexivity.
Qed.

Lemma starts_with_hd (c : ascii) (d s : bytes) :
  c <> NUL -> starts_with (c :: d) s = true -> exists s', s = c :: s'.
Proof.
  intros Hc. cbn [starts_with].
  destruct (Ascii.eqb_spec c NUL) as [E|_]; [congruence|].
  destruct s as [|e s]; [discriminate|].
  destruct (Ascii.eqb_spec c e) as [->|_]; [eauto|discriminate].
Qed.

Lemma starts_with_app (d r : bytes) : starts_with d (d ++ r) = true.
Proof.
  induction d as [|c d IH]; [reflexivity|]. cbn [starts_with app].
  destruct (Ascii.eqb c NUL); [reflexivity|]. rewrite Ascii.eqb_refl. exact IH.
Qed.

(** An occurrence of a string that starts with [c] is at a [c]. *)
Lemma strstr_Some (c : ascii) (d : bytes) :
  c <> NUL -> forall s k, strstr s (c :: d) = Some k -> s !! k = Some c.
Proof.
  intros Hc. induction s as [|e s IH]; intros k Hk.
  - cbn in Hk. destruct (Ascii.eqb_spec c NUL); [congruence|discriminate].
  - cbn [strstr] in Hk. destruct (starts_with (c :: d) (e :: s)) eqn:Hs.
    + injection Hk as <-. destruct (starts_with_hd _ _ _ Hc Hs) as [s' E].
      rewrite E. reflexivity.
    + destruct (Ascii.eqb e NUL); [discriminate|].
      apply fmap_Some in Hk as (k' & Hk' & ->). exact (IH _ Hk').
Qed.

Lemma length_cstr_insert_nul (l : bytes) (n : nat) :
  (n < length l)%nat -> (length (cstr (<[n := NUL]> l)) <= n)%nat.
Proof.
  revert n. induction l as [|x l IH]; intros n Hn; [cbn [length] in Hn; lia|].
  destruct n as [|n].
  - reflexivity.
  - change (<[S n := NUL]> (x :: l)) with (x :: <[n := NUL]> l). cbn [cstr].
    cbn [length] in Hn. specialize (IH n ltac:(lia)).
    destruct (Ascii.eqb x NUL); cbn [length]; lia.
Qed.

Lemma to_int_small (z : Z) : 0 <= z < 2 ^ 31 -> to_int z = z.
Proof.
  intros Hz. unfold to_int. rewrite Z.mod_small by lia.
  replace (z <? 2 ^ 31) with true by (symmetry; apply Z.ltb_lt; lia). reflexivity.
Qed.

Lemma length_strncpy (dst src : bytes) (n : nat) :
  (n <= length dst)%nat -> length (strncpy dst src n) = length dst.
Proof.
  intros Hn. unfold strncpy.
  rewrite length_app, length_take, length_app, length_replicate, length_drop. lia.
Qed.

Lemma to_uint64_nonneg (z : Z) : 0 <= to_uint64 z.
Proof. unfold to_uint64. apply Z.mod_pos_bound. lia. Qed.

Lemma get_var_loop_safe (url : http_string) (c : ascii) (d : bytes) (q : nat)
    (out : bytes) :
  c <> NUL -> Z.of_nat (length out) <= 2 ^ 31 ->
  forall fuel start,
    (q < start < length (val url))%nat -> (length (val url) - start < fuel)%nat ->
    exists r, get_var_loop fuel url (c :: d) q start out = Some r /\ safe_result out r.
Proof.
  intros Hc Hout. induction fuel as [|fuel IH]; intros start Hs Hf; [lia|].
  cbn [get_var_loop].
  assert (Hat : exists b,
            (if (start =? q + 1)%nat then Some true
             else match start with
                  | O => None
                  | S p => (fun x => Ascii.eqb x "&"%char) <$> val url !! p
                  end) = Some b).
  { destruct (start =? q + 1)%nat; [eauto|].
    destruct start as [|p]; [lia|].
    destruct (val url !! p) as [x|] eqn:Hx; [cbn; eauto|].
    apply lookup_ge_None in Hx. lia. }
  destruct Hat as [b ->]. cbn [mbind option_bind]. destruct b.
  - set (start1 := (start + Z.to_nat (strlen (c :: d)))%nat).
    set (len := match strchr (drop start1 (val url)) "&"%char with
                | Some e => Z.of_nat e
                | None => to_uint64 (Z.of_nat (Http.len url) - Z.of_nat start1)
                end).
    assert (Hlen : 0 <= len).
    { unfold len. destruct (strchr _ _); [lia|apply to_uint64_nonneg]. }
    destruct (Z.of_nat (length out) <=? len) eqn:Hcmp.
    + eexists. split; [reflexivity|]. reflexivity.
    + apply Z.leb_gt in Hcmp. eexists. split; [reflexivity|]. cbn [safe_result].
      rewrite to_int_small by lia. split; [exact Hlen|].
      assert (Hl : length (<[Z.to_nat len := NUL]>
                             (strncpy out (drop start1 (val url)) (Z.to_nat len)))
                   = length out)
        by (rewrite length_insert; apply length_strncpy; lia).
      split; [exact Hl|]. right. split; [exact Hcmp|].
      unfold strlen.
      pose proof (length_cstr_insert_nul
                    (strncpy out (drop start1 (val url)) (Z.to_nat len)) (Z.to_nat len)) as Hn.
      rewrite length_strncpy in Hn by lia. lia.
  - destruct (strstr (drop (S start) (val url)) (c :: d)) as [k|] eqn:Hk.
    + apply IH.
      * apply (strstr_Some c d Hc) in Hk. apply lookup_lt_Some in Hk.
        rewrite length_drop in Hk. lia.
      * lia.
    + eexists. split; [reflexivity|]. cbn [safe_result]. split; [lia|]. split; [reflexivity|].
      left. auto.
Qed.

(** X19.  [http_get_var] never writes outside the buffer it is given: for
    a parameter name that does not start with a question mark it returns,
    and what it returns is either the length of a value that was found,
    smaller than the buffer, with a buffer of the same size that holds a
    string no longer than that length; or zero with the buffer untouched;
    or [ERR_RUNTIME] for a value that does not fit. *)
Theorem get_var_is_safe (url : http_string) (name out : bytes) :
  Z.of_nat (length out) <= 2 ^ 31 ->
  hd NUL (cstr name ++ str "=") <> "?"%char ->
  exists r, http_get_var url name out = Some r /\ safe_result out r.
Proof.
  intros Hout Hq. unfold http_get_var.
  assert (Hnone : safe_result out (var_value 0 out)).
  { cbn. split; [lia|]. split; [reflexivity|]. left. auto. }
  destruct (strchr (val url) "?"%char) as [q|] eqn:Hchr; [|eauto].
  assert (Hp : exists c d, cstr name ++ str "=" = c :: d /\ c <> NUL /\ c <> "?"%char).
  { pose proof (cstr_nul_free name) as Hn.
    destruct (cstr name) as [|c n'] eqn:E.
    - exists "="%char, []. repeat split; discriminate.
    - exists c, (n' ++ str "="). split; [reflexivity|]. split.
      + intros ->. apply Hn. left.
      + exact Hq. }
  destruct Hp as (c & d & -> & Hc & Hcq).
  destruct (strstr (drop q (val url)) (c :: d)) as [k|] eqn:Hk; [|eauto].
  apply (strstr_Some c d Hc) in Hk.
  apply strchr_Some in Hchr as (Hqm & _).
  assert (k <> 0%nat).
  { intros ->. rewrite lookup_drop, Nat.add_0_r, Hqm in Hk. congruence. }
  pose proof (lookup_lt_Some _ _ _ Hk) as Hlt. rewrite length_drop in Hlt.
  apply get_var_loop_safe; auto; lia.
Qed.

Lemma starts_with_hd_ne (c x : ascii) (d s : bytes) :
  c <> NUL -> c <> x -> starts_with (c :: d) (x :: s) = false.
Proof.
  intros Hc Hx. cbn [starts_with].
  destruct (Ascii.eqb_spec c NUL) as [E|_]; [congruence|].
  destruct (Ascii.eqb_spec c x) as [E|_]; [congruence|]. reflexivity.
Qed.

Lemma strstr_here (s d : bytes) : starts_with d s = true -> strstr s d = Some 0%nat.
Proof. intros Hs. destruct s; cbn [strstr]; rewrite Hs; reflexivity. Qed.

Lemma cstr_app_nul_free (w r : bytes) : NUL ∉ w -> cstr (w ++ r) = w ++ cstr r.
Proof.
  induction w as [|c w IH]; intros Hw; [reflexivity|].
  apply not_elem_of_cons in Hw as [Hc Hw]. cbn [app cstr].
  destruct (Ascii.eqb_spec c NUL) as [E|_]; [congruence|]. rewrite IH by exact Hw. reflexivity.
Qed.

Lemma cstr_app_has_nul (a r : bytes) : NUL ∈ a -> cstr (a ++ r) = cstr a.
Proof.
  induction a as [|c a IH]; intros Ha; [inversion Ha|]. cbn [app cstr].
  destruct (Ascii.eqb_spec c NUL) as [->|Hc]; [reflexivity|].
  apply elem_of_cons in Ha as [Ha|Ha]; [congruence|]. rewrite IH by exact Ha. reflexivity.
Qed.

Lemma cstr_at_nul (w r : bytes) : NUL ∉ w -> cstr (w ++ NUL :: r) = w.
Proof. intros Hw. rewrite cstr_app_nul_free by exact Hw. cbn. apply app_nil_r. Qed.

(** The value of the first parameter of the query, [n] bytes long: what
    [http_get_var] does once the name is found straight after the question
    mark. *)
Lemma get_var_first (url : http_string) (name out path tail : bytes) :
  val url = path ++ "?"%char :: (cstr name ++ str "=") ++ tail ->
  "?"%char ∉ path -> NUL ∉ path ->
  hd NUL (cstr name ++ str "=") <> "?"%char ->
  http_get_var url name out
  = let start1 := (length path + 1 + length (cstr name ++ str "="))%nat in
    let len := match strchr tail "&"%char with
               | Some e => Z.of_nat e
               | None => to_uint64 (Z.of_nat (len url) - Z.of_nat start1)
               end in
    if Z.of_nat (length out) <=? len then Some (var_error ERR_RUNTIME)
    else Some (var_value (to_int len)
                 (<[Z.to_nat len := NUL]> (strncpy out tail (Z.to_nat len)))).
Proof.
  intros Hval Hq Hn Hhd. unfold http_get_var.
  remember (cstr name ++ str "=") as param eqn:Eparam.
  assert (Hpn : NUL ∉ param).
  { rewrite Eparam. intros Hx. apply elem_of_app in Hx as [Hx|Hx].
    - exact (cstr_nul_free name Hx).
    - apply list_elem_of_singleton in Hx. discriminate. }
  assert (Hp : exists c d, param = c :: d).
  { rewrite Eparam. destruct (cstr name); cbn; eauto. }
  destruct Hp as (c & d & Ep).
  assert (Hc : c <> NUL) by (intros ->; apply Hpn; rewrite Ep; left).
  assert (Hcq : c <> "?"%char) by (rewrite Ep in Hhd; exact Hhd).
  rewrite Hval, strchr_app by assumption.
  rewrite drop_app_length.
  assert (Hstr : strstr ("?"%char :: param ++ tail) param = Some 1%nat).
  { cbn [strstr]. rewrite Ep at 1. rewrite starts_with_hd_ne by assumption.
    change (Ascii.eqb "?"%char NUL) with false. cbv iota.
    rewrite strstr_here by apply starts_with_app. reflexivity. }
  rewrite Hstr. cbn [get_var_loop].
  replace (length path + 1 =? length path + 1)%nat with true
    by (symmetry; apply Nat.eqb_eq; reflexivity).
  cbn [mbind option_bind].
  replace (Z.to_nat (strlen param)) with (length param)
    by (unfold strlen; rewrite cstr_id by exact Hpn; lia).
  replace (drop (length path + 1 + length param) (val url)) with tail.
  - reflexivity.
  - rewrite Hval. rewrite <- Nat.add_assoc.
    rewrite drop_app_add' by reflexivity.
    change (1 + length param)%nat with (S (length param)).
    cbn [drop]. rewrite drop_app_length. reflexivity.
Qed.

(** X20.  The value of a parameter runs to the next ampersand of the
    buffer: for a URI whose query starts with the parameter, followed
    anywhere in the buffer by an ampersand, [http_get_var] returns the bytes
    between the equals sign and that ampersand, whatever the length of the
    URI. *)
Theorem get_var_value_until_ampersand (url : http_string) (name out path w rest : bytes) :
  val url = path ++ "?"%char :: (cstr name ++ str "=") ++ w ++ "&"%char :: rest ->
  "?"%char ∉ path -> NUL ∉ path ->
  hd NUL (cstr name ++ str "=") <> "?"%char ->
  "&"%char ∉ w -> NUL ∉ w ->
  (length w < length out)%nat -> Z.of_nat (length out) <= 2 ^ 31 ->
  exists out',
    http_get_var url name out = Some (var_value (Z.of_nat (length w)) out')
    /\ cstr out' = w /\ length out' = length out.
Proof.
  intros Hval Hq Hn Hhd Hamp Hw Hlen Hout.
  rewrite (get_var_first url name out path (w ++ "&"%char :: rest) Hval Hq Hn Hhd).
  cbv zeta. rewrite strchr_app by assumption.
  replace (Z.of_nat (length out) <=? Z.of_nat (length w)) with false
    by (symmetry; apply Z.leb_gt; lia).
  rewrite to_int_small by lia. rewrite Nat2Z.id.
  eexists. split; [reflexivity|]. split.
  - unfold strncpy. rewrite cstr_app_nul_free by exact Hw.
    rewrite <- app_assoc, take_app_length.
    rewrite insert_app_r_alt by lia. rewrite Nat.sub_diag.
    destruct (drop (length w) out) as [|x r] eqn:E.
    + apply (f_equal length) in E. rewrite length_drop in E. cbn in E. lia.
    + change (<[0%nat := NUL]> (x :: r)) with (NUL :: r). apply cstr_at_nul. exact Hw.
  - rewrite length_insert. apply length_strncpy. lia.
Qed.

(** X21.  The value of a parameter that no ampersand follows in the buffer
    is cut at the end of the URI: for a URI whose query starts with the
    parameter, [http_get_var] returns the [n] bytes that are left of the
    URI after the equals sign. *)
Theorem get_var_value_until_uri_end (url : http_string) (name out path tail : bytes)
    (n : nat) :
  val url = path ++ "?"%char :: (cstr name ++ str "=") ++ tail ->
  "?"%char ∉ path -> NUL ∉ path ->
  hd NUL (cstr name ++ str "=") <> "?"%char ->
  "&"%char ∉ cstr tail ->
  len url = (length path + 1 + length (cstr name ++ str "=") + n)%nat ->
  (n < length out)%nat -> Z.of_nat (length out) <= 2 ^ 31 ->
  exists out',
    http_get_var url name out = Some (var_value (Z.of_nat n) out')
    /\ cstr out' = take n (cstr tail) /\ length out' = length out.
Proof.
  intros Hval Hq Hn Hhd Hamp Hlen Hnout Hout.
  rewrite (get_var_first url name out path tail Hval Hq Hn Hhd).
  cbv zeta. rewrite strchr_None by (discriminate || exact Hamp).
  rewrite Hlen.
  replace (Z.of_nat (length path + 1 + length (cstr name ++ str "=") + n)
           - Z.of_nat (length path + 1 + length (cstr name ++ str "=")))
    with (Z.of_nat n) by lia.
  rewrite to_uint64_small by lia.
  replace (Z.of_nat (length out) <=? Z.of_nat n) with false
    by (symmetry; apply Z.leb_gt; lia).
  rewrite to_int_small by lia. rewrite Nat2Z.id.
  eexists. split; [reflexivity|]. split.
  - unfold strncpy.
    set (t := take n (cstr tail ++ replicate n NUL)).
    assert (Ht : length t = n)
      by (unfold t; rewrite length_take, length_app, length_replicate; lia).
    rewrite insert_app_r_alt by lia. rewrite Ht, Nat.sub_diag.
    destruct (drop n out) as [|x r] eqn:E.
    + apply (f_equal length) in E. rewrite length_drop in E. cbn in E. lia.
    + unfold t.
      change (<[0%nat := NUL]> (x :: r)) with ([NUL] ++ r).
      rewrite app_assoc, cstr_app_has_nul by (apply elem_of_app; right; left).
      apply cstr_take_padded, cstr_nul_free.
  - rewrite length_insert. apply length_strncpy. lia.
Qed.

End GetVar.

(** ** What a parsed request is *)

Section ParseFacts.
Import Http.

Lemma strstr_char_before (c : ascii) :
  c <> NUL -> forall s d, strstr s [c] = Some d -> c ∉ take d s.
Proof.
  intros Hc. induction s as [|e s IH]; intros d Hd.
  - cbn in Hd. destruct (Ascii.eqb_spec c NUL); [congruence|discriminate].
  - cbn [strstr starts_with] in Hd.
    destruct (Ascii.eqb_spec c NUL) as [E|_]; [congruence|].
    destruct (Ascii.eqb_spec c e) as [->|Hce]; cbn [andb] in Hd.
    + injection Hd as <-. apply not_elem_of_nil.
    + destruct (Ascii.eqb e NUL); [discriminate|].
      apply fmap_Some in Hd as (d' & Hd' & ->). cbn [take].
      apply not_elem_of_cons. split; [exact Hce|exact (IH _ Hd')].
Qed.

(** A token cut at a space: the stream from the start of the token is the
    token, the space, and what follows at the address returned. *)
Lemma get_next_token_space (stream : bytes) (p q : nat) (s : http_string) :
  get_next_token stream p (str " ") = Some (s, q) ->
  length (text s) = len s
  /\ drop p stream = text s ++ " "%char :: drop q stream
  /\ " "%char ∉ text s.
Proof.
  unfold get_next_token. intros Hg.
  destruct (strstr (drop p stream) (str " ")) as [d|] eqn:Hd; [|discriminate].
  injection Hg as <- <-. unfold text. cbn [val len].
  pose proof (strstr_char " "%char ltac:(discriminate) _ _ Hd) as Hl.
  split; [rewrite length_take; apply lookup_lt_Some in Hl; lia|].
  split; [|exact (strstr_char_before " "%char ltac:(discriminate) _ _ Hd)].
  rewrite <- (take_drop_middle _ _ _ Hl) at 1. f_equal. f_equal.
  rewrite drop_drop. change (Z.to_nat (strlen (str " "))) with 1%nat.
  replace (p + S d)%nat with (p + d + 1)%nat by lia. reflexivity.
Qed.

Lemma parse_headers_loop_length (stream : bytes) (room : nat) :
  forall current acc r hs,
    parse_headers_loop stream room current acc = (r, hs) ->
    (length hs <= length acc + room)%nat.
Proof.
  induction room as [|room IH]; intros current acc r hs Hp; cbn [parse_headers_loop] in Hp.
  - split_paths Hp; lia.
  - destruct (negb _ && negb _); [|injection Hp as <- <-; lia].
    destruct (strstr _ HTTP_LINE_DELIM); [|injection Hp as <- <-; lia].
    destruct (_ =? _)%nat; [injection Hp as <- <-; lia|].
    destruct (get_next_token stream current HTTP_HDR_KV_DELIM) as [[k c1]|];
      [|injection Hp as <- <-; lia].
    destruct (_ <=? _)%nat; [injection Hp as <- <-; lia|].
    destruct (get_next_token stream c1 HTTP_LINE_DELIM) as [[v c2]|];
      [|injection Hp as <- <-; lia].
    destruct (_ <? _)%nat; [injection Hp as <- <-; lia|].
    apply IH in Hp. rewrite length_app in Hp. cbn [length] in Hp. lia.
Qed.

(** X22.  [http_parse_message] returns 0 or 1 and nothing else, so a
    request that is malformed is reported like one that is incomplete.
    When it returns 1, the buffer starts with the method, a space, the URI
    and a space; the method and the URI are not empty and hold no space;
    at most [MAX_HEADERS] headers are stored; and a positive content length
    is the length of the body. *)
Theorem parse_message_result (stream : bytes) (n : Z) (out msg : http_message)
    (cl clen rc : Z) :
  http_parse_message stream n out cl = (rc, msg, clen) ->
  (rc = 0 \/ rc = 1)
  /\ (rc = 1 ->
      (text (method msg) ++ " "%char :: text (uri msg) ++ [" "%char]) `prefix_of` stream
      /\ text (method msg) <> [] /\ text (uri msg) <> []
      /\ (" "%char ∉ text (method msg)) /\ (" "%char ∉ text (uri msg))
      /\ (num_headers msg <= MAX_HEADERS)%nat
      /\ (0 < clen -> Z.of_nat (len (body msg)) = clen)).
Proof.
  unfold http_parse_message. intros Hp.
  destruct (strstr stream HTTP_HDR_END_DELIM); [|injection Hp as <- _ _; split; [auto|discriminate]].
  destruct (get_next_token stream 0 (str " ")) as [[m c1]|] eqn:Hm;
    [|injection Hp as <- _ _; split; [auto|discriminate]].
  destruct (len m =? 0)%nat eqn:Hml; [injection Hp as <- _ _; split; [auto|discriminate]|].
  destruct (get_next_token stream c1 (str " ")) as [[u c2]|] eqn:Hu;
    [|injection Hp as <- _ _; split; [auto|discriminate]].
  destruct (len u =? 0)%nat eqn:Hul; [injection Hp as <- _ _; split; [auto|discriminate]|].
  destruct (get_next_token stream c2 HTTP_LINE_DELIM) as [[l c3]|];
    [|injection Hp as <- _ _; split; [auto|discriminate]].
  destruct (http_parse_headers stream c3 []) as [[current|] hs] eqn:Hh;
    [|injection Hp as <- _ _; split; [auto|discriminate]].
  apply get_next_token_space in Hm as (Hmv & Hms & Hmn).
  apply get_next_token_space in Hu as (Huv & Hus & Hun).
  apply Nat.eqb_neq in Hml. apply Nat.eqb_neq in Hul.
  unfold http_parse_headers in Hh. apply parse_headers_loop_length in Hh.
  cbn [length] in Hh.
  assert (Hfacts : forall b,
            (text m ++ " "%char :: text u ++ [" "%char]) `prefix_of` stream
            /\ text m <> [] /\ text u <> []
            /\ (" "%char ∉ text m) /\ (" "%char ∉ text u)
            /\ (num_headers (mk_http_message m u hs b) <= MAX_HEADERS)%nat).
  { intros b. split.
    - exists (drop c2 stream). rewrite Hms at 1. rewrite Hus.
      rewrite <- app_assoc. f_equal. cbn [app]. f_equal.
      rewrite <- app_assoc. reflexivity.
    - split; [intros E; rewrite E in Hmv; cbn in Hmv; lia|].
      split; [intros E; rewrite E in Huv; cbn in Huv; lia|].
      split; [exact Hmn|]. split; [exact Hun|].
      unfold num_headers. cbn [headers]. unfold MAX_HEADERS in *. lia. }
  destruct (n <? _); [injection Hp as <- _ _; split; [auto|discriminate]|].
  destruct (0 <? find_content_len hs) eqn:Hc; injection Hp as <- <- <-.
  - split; [auto|]. intros _.
    destruct (Hfacts (mk_http_string (drop current stream)
                        (Z.to_nat (find_content_len hs)))) as (F1 & F2 & F3 & F4 & F5 & F6).
    cbn [method uri body len] in *. repeat (split; [assumption|]).
    intros Hpos. lia.
  - split; [auto|]. intros _.
    destruct (Hfacts (body out)) as (F1 & F2 & F3 & F4 & F5 & F6).
    cbn [method uri body len] in *. repeat (split; [assumption|]).
    apply Z.ltb_ge in Hc. intros Hpos. lia.
Qed.

End ParseFacts.

(** ** Replies *)

Section PrintDec.
Import Printf.

Lemma digit_cases (d : Z) :
  0 <= d < 10 ->
  d = 0 \/ d = 1 \/ d = 2 \/ d = 3 \/ d = 4 \/ d = 5 \/ d = 6 \/ d = 7 \/ d = 8 \/ d = 9.
Proof. lia. Qed.

Lemma digit_char_spec (d : Z) :
  0 <= d < 10 ->
  isdigit (digit_char d) = true /\ uchar (digit_char d) - 48 = d
  /\ digit_char d <> NUL.
Proof.
  intros Hd.
  destruct (digit_cases d Hd) as [-> | [-> | [-> | [-> | [-> | [-> | [-> | [-> | [-> | ->]]]]]]]]];
    repeat split; discriminate.
Qed.

Lemma dec_digits_app (fuel : nat) :
  forall n acc, dec_digits fuel n acc = dec_digits fuel n [] ++ acc.
Proof.
  induction fuel as [|fuel IH]; intros n acc; cbn [dec_digits]; [reflexivity|].
  destruct (n <? 10); [reflexivity|].
  rewrite (IH _ (_ :: acc)), (IH _ [_]), <- app_assoc. reflexivity.
Qed.

Lemma length_dec_digits (fuel : nat) :
  forall n, (length (dec_digits fuel n []) <= fuel)%nat.
Proof.
  induction fuel as [|fuel IH]; intros n; cbn [dec_digits]; [reflexivity|].
  destruct (n <? 10); [cbn [length]; lia|].
  rewrite dec_digits_app, length_app. specialize (IH (n / 10)). cbn [length]. lia.
Qed.

(** The digits printed hold no NUL. *)
Lemma dec_digits_nul_free (fuel : nat) :
  forall n, 0 <= n -> NUL ∉ dec_digits fuel n [].
Proof.
  induction fuel as [|fuel IH]; intros n Hn; cbn [dec_digits]; [apply not_elem_of_nil|].
  assert (Hd : digit_char (n mod 10) <> NUL)
    by (apply digit_char_spec, Z.mod_pos_bound; lia).
  destruct (n <? 10).
  - apply not_elem_of_cons. split; [congruence|apply not_elem_of_nil].
  - rewrite dec_digits_app. intros Hx. apply elem_of_app in Hx as [Hx|Hx].
    + apply (IH (n / 10)); [apply Z.div_pos; lia|exact Hx].
    + apply list_elem_of_singleton in Hx. congruence.
Qed.

(** Reading the digits printed gives the number back. *)
Lemma digits_value_dec_digits (fuel : nat) :
  forall n rest, 0 <= n < 10 ^ Z.of_nat fuel ->
    digits_value (dec_digits fuel n [] ++ rest) 0 = digits_value rest n.
Proof.
  induction fuel as [|fuel IH]; intros n rest Hn.
  - cbn in Hn. replace n with 0 by lia. reflexivity.
  - cbn [dec_digits].
    pose proof (digit_char_spec (n mod 10) ltac:(apply Z.mod_pos_bound; lia))
      as (Hd & Hv & _).
    destruct (n <? 10) eqn:Hlt.
    + apply Z.ltb_lt in Hlt. cbn [app digits_value]. rewrite Hd, Hv.
      rewrite Z.mod_small by lia. f_equal.
    + apply Z.ltb_ge in Hlt. rewrite dec_digits_app, <- app_assoc.
      rewrite IH.
      * cbn [app digits_value]. rewrite Hd, Hv. f_equal.
        pose proof (Z.div_mod n 10 ltac:(lia)). lia.
      * rewrite Nat2Z.inj_succ, Z.pow_succ_r in Hn by lia.
        split; [apply Z.div_pos; lia|apply Z.div_lt_upper_bound; lia].
Qed.

Lemma digits_value_stop (rest : bytes) (a : Z) :
  isdigit (hd NUL rest) = false -> digits_value rest a = a.
Proof. destruct rest as [|c r]; [reflexivity|]. cbn [hd digits_value]. intros ->. reflexivity. Qed.

Lemma dec_digits_first (fuel : nat) :
  forall k, 0 <= k -> fuel <> 0%nat ->
    exists c r, dec_digits fuel k [] = c :: r /\ isdigit c = true.
Proof.
  induction fuel as [|fuel IH]; intros k Hk Hf; [congruence|]. cbn [dec_digits].
  pose proof (digit_char_spec (k mod 10) ltac:(apply Z.mod_pos_bound; lia)) as (Hdk & _).
  destruct (k <? 10); [eauto|].
  destruct fuel as [|fuel']; [cbn [dec_digits]; eauto|].
  destruct (IH (k / 10) ltac:(apply Z.div_pos; lia) ltac:(lia)) as (c & r & E & Hc).
  rewrite dec_digits_app, E. cbn [app]. eauto.
Qed.

(** The decimal text of a number is at most 20 bytes long, and [atoi]
    reads it back when it is followed by a byte that is not a digit and
    the number fits an [int]. *)
Lemma print_dec_round_trip (n : Z) (rest : bytes) :
  0 <= n < 2 ^ 31 -> isdigit (hd NUL rest) = false ->
  (length (print_dec n) <= 20)%nat /\ atoi (print_dec n ++ rest) = n.
Proof.
  intros Hn Hrest. split; [apply length_dec_digits|].
  unfold atoi, strtol10.
  destruct (dec_digits_first 20 n ltac:(lia) ltac:(lia)) as (c & r & E & Hc).
  assert (Hval : digits_value (print_dec n ++ rest) 0 = n).
  { unfold print_dec. rewrite digits_value_dec_digits by (cbn; lia).
    apply digits_value_stop. exact Hrest. }
  unfold print_dec in *. rewrite E in *. cbn [app skip_spaces].
  assert (Hsp : isspace c = false).
  { unfold isdigit, isspace in *. apply andb_true_iff in Hc as [H1 H2].
    apply Z.leb_le in H1. apply Z.leb_le in H2.
    replace (uchar c =? 32) with false by (symmetry; apply Z.eqb_neq; lia).
    replace (uchar c <=? 13) with false by (symmetry; apply Z.leb_gt; lia).
    rewrite andb_false_r. reflexivity. }
  rewrite Hsp.
  assert (Hsign : Ascii.eqb c "-"%char = false /\ Ascii.eqb c "+"%char = false).
  { unfold isdigit in Hc. apply andb_true_iff in Hc as [H1 H2]. apply Z.leb_le in H1.
    split; apply Ascii.eqb_neq; intros ->; vm_compute in H1; congruence. }
  destruct Hsign as [-> ->]. cbn [app] in Hval. rewrite Hval.
  unfold LONG_MIN, LONG_MAX. rewrite Z.min_r, Z.max_r by lia.
  unfold to_int. rewrite Z.mod_small by lia.
  replace (n <? 2 ^ 31) with true by (symmetry; apply Z.ltb_lt; lia). reflexivity.
Qed.

End PrintDec.

Section Reply.
Import Http Printf.

Lemma length_reply_header (pid status headers : bytes) (body_len : Z) :
  length (reply_header pid status headers body_len)
  = (length (cstr pid) + length (cstr status) + length (cstr headers) + 22
     + length (print_dec body_len))%nat.
Proof.
  unfold reply_header. rewrite !length_app.
  change (length HTTP_LINE_DELIM) with 2%nat.
  change (length (str "Content-Length: ")) with 16%nat.
  change (length HTTP_HDR_END_DELIM) with 4%nat. lia.
Qed.

(** X23.  [http_reply] never leaves its buffer and never cuts the
    header: for a body of at least [body_len] bytes it hands to [tcp_send]
    the protocol id, the status, the headers, a Content-Length line and an
    empty line, followed by exactly [body_len] bytes of the body; the
    Content-Length printed is read back by [atoi] as [body_len]; and the
    return code is [ERR_NONE] exactly when [tcp_send] reports all bytes
    sent and [shutdown] does not fail. *)
Theorem reply_is_well_formed (pid status headers b : bytes) (body_len : Z)
    (tcp_send : bytes -> Z) (shutdown_rc : Z) :
  0 <= body_len < 2 ^ 31 -> body_len <= Z.of_nat (length b) ->
  strlen pid + strlen status + strlen headers < 2 ^ 62 ->
  let response := reply_header pid status headers body_len ++ take (Z.to_nat body_len) b in
  exists code,
    http_reply pid status headers (Some b) body_len true tcp_send shutdown_rc
    = Some (code, Some response)
    /\ (code = ERR_NONE <->
        tcp_send response = Z.of_nat (length response) /\ 0 <= shutdown_rc)
    /\ (code = ERR_NONE \/ code = ERR_IO)
    /\ atoi (print_dec body_len ++ HTTP_HDR_END_DELIM ++ take (Z.to_nat body_len) b)
       = body_len.
Proof.
  intros Hbl Hb Hsz response.
  pose proof (print_dec_round_trip body_len
                (HTTP_HDR_END_DELIM ++ take (Z.to_nat body_len) b) Hbl eq_refl) as [Hd Hatoi].
  pose proof (length_reply_header pid status headers body_len) as Lh.
  unfold strlen in Hsz.
  unfold http_reply. cbn [bool_decide andb negb]. rewrite bool_decide_eq_false_2 by discriminate.
  cbn [andb]. unfold snprintf, MAX_SIZE_T_STRING_SIZE, strlen.
  change (Z.of_nat (length (cstr (str " ")))) with 1.
  change (Z.of_nat (length (cstr HTTP_LINE_DELIM))) with 2.
  change (Z.of_nat (length (cstr (str "Content-Length: ")))) with 16.
  change (Z.of_nat (length (cstr [NUL]))) with 0.
  assert (Htail : forall cl, cl = Z.of_nat (length response) ->
            exists code,
              (let sent := tcp_send response in
               if sent <? 0 then Some (ERR_IO, Some response)
               else if negb (sent =? cl) then Some (ERR_IO, Some response)
               else if shutdown_rc <? 0 then Some (ERR_IO, Some response)
               else Some (ERR_NONE, Some response))
              = Some (code, Some response)
              /\ (code = ERR_NONE <->
                  tcp_send response = Z.of_nat (length response) /\ 0 <= shutdown_rc)
              /\ (code = ERR_NONE \/ code = ERR_IO)
              /\ atoi (print_dec body_len ++ HTTP_HDR_END_DELIM
                         ++ take (Z.to_nat body_len) b) = body_len).
  { intros cl ->. cbv zeta.
    destruct (tcp_send response <? 0) eqn:E1.
    { apply Z.ltb_lt in E1. eexists. split; [reflexivity|].
      split; [split; [discriminate|intros [E _]; lia]|]. split; [auto|exact Hatoi]. }
    apply Z.ltb_ge in E1.
    destruct (tcp_send response =? Z.of_nat (length response)) eqn:E2; cbn [negb].
    - apply Z.eqb_eq in E2. destruct (shutdown_rc <? 0) eqn:E3.
      + apply Z.ltb_lt in E3. eexists. split; [reflexivity|].
        split; [split; [discriminate|intros [_ E]; lia]|]. split; [auto|exact Hatoi].
      + apply Z.ltb_ge in E3. eexists. split; [reflexivity|].
        split; [split; [auto|reflexivity]|]. split; [auto|exact Hatoi].
    - apply Z.eqb_neq in E2. eexists. split; [reflexivity|].
      split; [split; [discriminate|intros [E _]; congruence]|]. split; [auto|exact Hatoi]. }
  set (hl := length (reply_header pid status headers body_len)) in *.
  assert (Hlr : Z.of_nat (length response) = Z.of_nat hl + body_len).
  { unfold response. rewrite length_app, length_take. fold hl. lia. }
  destruct (0 <? body_len) eqn:E.
  - set (mx := Z.of_nat (length (cstr pid)) + 1 + Z.of_nat (length (cstr status)) + 2
               + Z.of_nat (length (cstr headers)) + 2 + 16 + 19 + 2 + body_len + 0).
    rewrite (to_uint64_small mx) by (unfold mx; lia).
    rewrite (to_uint64_small (mx + 1)) by (unfold mx; lia).
    replace (mx + 1 <=? Z.of_nat hl) with false by (symmetry; apply Z.leb_gt; unfold mx; lia).
    rewrite take_ge by (fold hl; unfold mx; lia).
    cbn [mbind option_bind].
    replace (Z.of_nat hl + body_len <=? mx + 1) with true
      by (symmetry; apply Z.leb_le; unfold mx; lia).
    replace (body_len <=? Z.of_nat (length b)) with true by (symmetry; apply Z.leb_le; lia).
    cbn [andb mbind option_bind]. apply Htail. lia.
  - apply Z.ltb_ge in E.
    set (mx := Z.of_nat (length (cstr pid)) + 1 + Z.of_nat (length (cstr status)) + 2
               + Z.of_nat (length (cstr headers)) + 2 + 16 + 19 + 2 + 0 + 0).
    rewrite (to_uint64_small mx) by (unfold mx; lia).
    rewrite (to_uint64_small (mx + 1)) by (unfold mx; lia).
    replace (mx + 1 <=? Z.of_nat hl) with false by (symmetry; apply Z.leb_gt; unfold mx; lia).
    rewrite take_ge by (fold hl; unfold mx; lia).
    cbn [mbind option_bind].
    assert (Er : reply_header pid status headers body_len = response).
    { unfold response. replace body_len with 0 by lia. cbn [Z.to_nat take].
      rewrite app_nil_r. reflexivity. }
    rewrite Er. apply Htail. lia.
Qed.

End Reply.

(** ** Requests that reach the engine *)

Section ServiceFacts.
Import Http Service.
Context `{ImgLib} `{Layout}.











End ServiceFacts.

(** ** The HTTP layer on concrete requests *)

Section HttpExamples.
Import Http Service.

Ltac by_compute :=
  vm_compute; repeat split; solve [reflexivity | discriminate | lia].

Ltac not_in := apply (bool_decide_unpack _); vm_compute; exact I.

(** The id of a read request, looked up in the buffer of the handler. *)
Lemma get_var_is_safe_witness :
  exists r, http_get_var (uri (Toy.message Toy.read_pic)) (str "img_id") id_buffer = Some r
            /\ safe_result id_buffer r.
Proof. apply (get_var_is_safe (uri (Toy.message Toy.read_pic)) (str "img_id") id_buffer); by_compute. Defined.

(** The resolution of a read request, which the id follows. *)
Lemma get_var_value_until_ampersand_witness :
  exists out',
    http_get_var (uri (Toy.message Toy.read_pic)) (str "res") id_buffer
    = Some (var_value (Z.of_nat (length (str "thumb"))) out')
    /\ cstr out' = str "thumb" /\ length out' = length id_buffer.
Proof.
  apply (get_var_value_until_ampersand (uri (Toy.message Toy.read_pic)) (str "res") id_buffer
           (str "/imgfs/read") (str "thumb") (drop 26 (str Toy.read_pic))).
  - by_compute.
  - not_in.
  - not_in.
  - by_compute.
  - not_in.
  - not_in.
  - by_compute.
  - by_compute.
Defined.

(** The id of a delete request, which ends the URI. *)
Lemma get_var_value_until_uri_end_witness :
  exists out',
    http_get_var (uri (Toy.message Toy.delete_pic)) (str "img_id") id_buffer
    = Some (var_value (Z.of_nat 3) out')
    /\ cstr out' = take 3 (cstr (drop 25 (str Toy.delete_pic)))
    /\ length out' = length id_buffer.
Proof.
  apply (get_var_value_until_uri_end (uri (Toy.message Toy.delete_pic)) (str "img_id")
           id_buffer (str "/imgfs/delete") (drop 25 (str Toy.delete_pic)) 3).
  - by_compute.
  - not_in.
  - not_in.
  - by_compute.
  - not_in.
  - by_compute.
  - by_compute.
  - by_compute.
Defined.

(** The insert request, parsed from an empty message. *)
Lemma parse_message_result_witness :
  (1 = 0 \/ 1 = 1)
  /\ (1 = 1 ->
      (text (method (Toy.message Toy.insert_two)) ++ " "%char
         :: text (uri (Toy.message Toy.insert_two)) ++ [" "%char])
        `prefix_of` str Toy.insert_two
      /\ text (method (Toy.message Toy.insert_two)) <> []
      /\ text (uri (Toy.message Toy.insert_two)) <> []
      /\ (" "%char ∉ text (method (Toy.message Toy.insert_two)))
      /\ (" "%char ∉ text (uri (Toy.message Toy.insert_two)))
      /\ (num_headers (Toy.message Toy.insert_two) <= MAX_HEADERS)%nat
      /\ (0 < 10 -> Z.of_nat (len (body (Toy.message Toy.insert_two))) = 10)).
Proof.
  apply (parse_message_result (str Toy.insert_two) (Z.of_nat (String.length Toy.insert_two))
           empty_message (Toy.message Toy.insert_two) 0 10 1).
  by_compute.
Defined.

(** The reply to a read of eight bytes on a connection that takes them. *)
Lemma reply_is_well_formed_witness :
  let response :=
    reply_header (str "HTTP/1.1 ") (str "200 OK")
      (str "Content-Type: image/jpeg" ++ HTTP_LINE_DELIM) 8
    ++ take (Z.to_nat 8) Toy.jpg_a in
  exists code,
    http_reply (str "HTTP/1.1 ") (str "200 OK")
      (str "Content-Type: image/jpeg" ++ HTTP_LINE_DELIM) (Some Toy.jpg_a) 8 true
      Toy.send_all 0
    = Some (code, Some response)
    /\ (code = ERR_NONE <->
        Toy.send_all response = Z.of_nat (length response) /\ 0 <= 0)
    /\ (code = ERR_NONE \/ code = ERR_IO)
    /\ atoi (Printf.print_dec 8 ++ HTTP_HDR_END_DELIM ++ take (Z.to_nat 8) Toy.jpg_a) = 8.
Proof.
  apply (reply_is_well_formed (str "HTTP/1.1 ") (str "200 OK")
           (str "Content-Type: image/jpeg" ++ HTTP_LINE_DELIM) Toy.jpg_a 8 Toy.send_all 0).
  - by_compute.
  - by_compute.
  - by_compute.
Defined.



(** The same delete request with and without an ampersand in a header:
    the first reaches the engine under "pic", the second under the bytes up
    to the ampersand, which no slot holds. *)
Lemma delete_request_past_uri :
  (fst <$> handle_delete_call (Toy.message Toy.delete_pic) Toy.one_image_db)
  = Some found_302
  /\ query_value (drop 25 (str Toy.delete_pic_accept)) 3
     = str ("pic HTTP/1.1" ++ CRLF ++ "Accept: a")
  /\ (fst <$> handle_delete_call (Toy.message Toy.delete_pic_accept) Toy.one_image_db)
     = Some (error_msg ERR_IMAGE_NOT_FOUND).
Proof. by_compute. Qed.

End HttpExamples.
